(** * Wonder Shuffle: draw resolution, effect aggregation and dice text

    A shallow embedding of the game logic of the repository:
    - [utils/rng.js]           the singleton random source (module [Rng]);
    - [models/DeckManager.js]  deck creation, shuffling, sampling;
    - [main.js] ([CardGame])   the draw and the Mischief bonus draw;
    - [models/CardEffects.js]  tallying cards into stacking effects;
    - [utils/diceRoller.js]    dice expressions embedded in effect text;
    - [renderers/effectRenderers/EffectRenderers.js]  the duration notation
                                and the Coin description;
    - [renderers/EffectsRenderer.js]  the selections, the choice of a renderer;
    - [ui/UIManager.js]        the check of the number of cards asked for.

    JavaScript numbers are modelled as [Z] (every number the program handles
    here is an integer far below 2^53), strings as [string], arrays as
    [list].  The random source and the console are the only global mutable
    resources; they are threaded through a small state monad.  Objects
    ([DeckManager], [CardGame]) are passed and returned explicitly.
    Rendering calls (PixiJS, DOM) are outside the model.

    The file has three parts: the embedding of the program, the vocabulary
    in which its properties are stated, and the properties with their
    proofs, followed by runs of the program on given rolls.  Further
    properties of the code, with their runs, come last. *)

From Stdlib Require Import ZArith String Ascii DecimalString DecimalPos.
From stdpp Require Import base list strings.

Local Open Scope string_scope.
Local Open Scope list_scope.
Local Open Scope Z_scope.

(** ** The random source: [utils/rng.js] over the pure-rand library *)

(** pure-rand is an external library.  Its generators are immutable values and
    [prand.uniformIntDistribution(min, max, rng)] returns the pair
    [[value, nextRng]] with [min <= value <= max].  That contract is all the
    program relies on, so the generator is an interface with this law. *)
Class RandomSource (rng : Type) := {
  uniformIntDistribution : Z → Z → rng → Z * rng;
  uniformIntDistribution_range :
    ∀ lo hi g, lo ≤ hi → lo ≤ (uniformIntDistribution lo hi g).1 ≤ hi
}.

(** The global resources: the singleton generator of [rng.js] and the lines
    written with [console.error]. *)
Record world (rng : Type) := World {
  gen : rng;
  console : list string
}.
Arguments World {rng} _ _.
Arguments gen {rng} _.
Arguments console {rng} _.

(** The state monad over the global resources. *)
Definition M (rng : Type) (A : Type) : Type := world rng → A * world rng.

Definition ret {rng A} (a : A) : M rng A := λ w, (a, w).
Definition bind {rng A B} (m : M rng A) (k : A → M rng B) : M rng B :=
  λ w, let '(a, w') := m w in k a w'.

Arguments ret : simpl never.
Arguments bind : simpl never.

Declare Scope js_scope.
Delimit Scope js_scope with js.
Notation "x <- m ;; k" := (bind m (λ x, k))
  (at level 100, m at next level, right associativity) : js_scope.
Local Open Scope js_scope.

Module Rng.
Section Rng.
Context {rng : Type} `{RandomSource rng}.

(** [randomInt(min, max)]: one step of the singleton generator. *)
Definition randomInt (min max : Z) : M rng Z :=
  λ w, let '(value, newRng) := uniformIntDistribution min max (gen w) in
       (value, World newRng (console w)).

(** [console.error(line)]. *)
Definition console_error (line : string) : M rng unit :=
  λ w, (tt, World (gen w) (console w ++ [line])).
End Rng.
End Rng.

(** ** [constants.js] *)

(** A card is identified by its name. *)
Abbreviation card := string (only parsing).

Module TAROT_CARDS.
Definition FULL : list card :=
  [ "beginning"; "champion"; "chancellor"; "chaos"; "coin"; "crown"; "dawn";
    "day"; "destiny"; "dusk"; "end"; "isolation"; "justice"; "knife";
    "lock"; "mischief"; "monster"; "mystery"; "night"; "order"; "student";
    "vulture" ].
Definition REDUCED : list card :=
  [ "day"; "night"; "dawn"; "crown"; "lock"; "champion"; "chaos"; "order";
    "beginning"; "end"; "monster"; "knife"; "mischief" ].
End TAROT_CARDS.

Module DECK_SIZES.
Definition FULL : Z := 22.
Definition REDUCED : Z := 13.
End DECK_SIZES.

Module DECK_CONFIG.
Definition DEFAULT_SIZE : Z := DECK_SIZES.FULL.
Definition MAX_DRAW : Z := 20.
End DECK_CONFIG.

(** ** JavaScript array operations used by the program *)

Section JsArray.
Context {A : Type} `{EqDecision A}.

(** [arr.indexOf(x)]: the first index holding [x], or [-1]. *)
Fixpoint indexOf (arr : list A) (x : A) : Z :=
  match arr with
  | [] => -1
  | y :: rest =>
      if decide (y = x) then 0
      else let i := indexOf rest x in if i =? -1 then -1 else i + 1
  end.

(** [arr.includes(x)]. *)
Definition includes (arr : list A) (x : A) : bool :=
  bool_decide (x ∈ arr).

(** [arr.slice(0, stop)]: a negative [stop] counts from the end. *)
Definition slice0 (arr : list A) (stop : Z) : list A :=
  if stop <? 0 then take (Z.to_nat (Z.of_nat (length arr) + stop)) arr
  else take (Z.to_nat stop) arr.

(** [arr.splice(index, 1)] for an index found by [indexOf]. *)
Definition splice1 (arr : list A) (index : Z) : list A :=
  delete (Z.to_nat index) arr.

(** [arr.filter(c => c === x).length]. *)
Definition countOf (arr : list A) (x : A) : Z :=
  Z.of_nat (length (filter (λ c, c = x) arr)).
End JsArray.

(** ** [models/DeckManager.js] *)

Module DeckManager.

(** The fields of a [DeckManager] object. *)
Record t := Make {
  deck : list card;
  deckSize : Z
}.

(** Modelled from the spec: the constant [DECK_SIZES.CUSTOM].  It is used by
    [DeckManager.js], [UIManager.js] and [main.js], but [constants.js] as
    given does not define it; the spec names the mode Custom beside Full and
    Reduced.  All the code does with the constant is compare the [size]
    argument with it by [===], so the value is a constructor of its own,
    [SizeCustom], in the type of the [size] argument of [createDeck]:
    [null] (the default), a number, or that tag. *)
Inductive size_arg :=
| SizeNull
| SizeNumber (n : Z)
| SizeCustom.

(** [arr[i]] for reading.  Every index the program reads comes from
    [randomInt(0, arr.length - 1)] on a non-empty array, so it is in range
    (lemma [randomIndex_in_range] below) and the out-of-range arm, where
    JavaScript yields [undefined], is never taken. *)
Definition element (arr : list card) (i : Z) : card :=
  if i <? 0 then "undefined" else default "undefined" (arr !! Z.to_nat i).

(** [[arr[i], arr[j]] = [arr[j], arr[i]]]: the right-hand side is read
    first, then [arr[i]] and [arr[j]] are written in that order.  The
    shuffle calls it with [0 <= j <= i < arr.length] (see
    [shuffleLoop_Permutation]), so both writes fall inside the array. *)
Definition swap (arr : list card) (i j : Z) : list card :=
  let ai := element arr i in
  let aj := element arr j in
  <[Z.to_nat j := ai]> (<[Z.to_nat i := aj]> arr).

Section Methods.
Context {rng : Type} `{RandomSource rng}.

(** The loop of [shuffleDeck]; [i] runs from [deck.length - 1] down
    to 1. *)
Fixpoint shuffleLoop (i : nat) (arr : list card) : M rng (list card) :=
  match i with
  | O => ret arr
  | S i' =>
      j <- Rng.randomInt 0 (Z.of_nat i) ;;
      shuffleLoop i' (swap arr (Z.of_nat i) j)
  end.

Definition shuffleDeck (this : t) : M rng t :=
  arr <- shuffleLoop (length (deck this) - 1)%nat (deck this) ;;
  ret (Make arr (deckSize this)).

Definition createDeck (this : t) (size : size_arg)
    (customCards : option (list card)) : M rng t :=
  let '(cardSet, newSize) :=
    match size with
    | SizeCustom =>
        let cardSet :=
          match customCards with
          | Some ((_ :: _) as cards) => cards
          | _ => []
          end in
        (cardSet, Z.of_nat (length cardSet))
    | _ =>
        let targetSize :=
          match size with SizeNumber n => n | _ => deckSize this end in
        let cardSet :=
          if targetSize =? DECK_SIZES.REDUCED
          then TAROT_CARDS.REDUCED else TAROT_CARDS.FULL in
        (cardSet, targetSize)
    end in
  shuffleDeck (Make cardSet newSize).

(** [new DeckManager()]. *)
Definition new : M rng t :=
  createDeck (Make [] DECK_CONFIG.DEFAULT_SIZE) SizeNull None.

(** The loop of [drawCards]: [n] iterations still to run. *)
Fixpoint drawLoop (n : nat) (arr : list card) (drawn : list card)
    : M rng (list card) :=
  match n with
  | O => ret drawn
  | S n' =>
      randomIndex <- Rng.randomInt 0 (Z.of_nat (length arr) - 1) ;;
      drawLoop n' arr (drawn ++ [element arr randomIndex])
  end.

(** [drawCards(count)]; [None] is the [null] returned on an empty
    deck. *)
Definition drawCards (this : t) (count : Z) : M rng (option (list card)) :=
  if Z.of_nat (length (deck this)) =? 0 then ret None
  else
    drawn <- drawLoop (Z.to_nat count) (deck this) [] ;;
    ret (Some drawn).

Definition getDeckSize (this : t) : Z := Z.of_nat (length (deck this)).

Definition isEmpty (this : t) : bool :=
  Z.of_nat (length (deck this)) =? 0.
End Methods.
End DeckManager.

(** ** [main.js]: the [CardGame] handlers *)

Module CardGame.

(** The fields of [CardGame] that the handlers read and write; the
    renderers and the UI manager are outside the model. *)
Record t := Make {
  deckManager : DeckManager.t;
  drawnCards : list card
}.

(** The [return] statements that leave a handler before it has done
    anything. *)
Inductive guard :=
| CountNotPositive      (* [!Number.isInteger(count) || count <= 0] *)
| CountAboveMaxDraw     (* [count > DECK_CONFIG.MAX_DRAW] *)
| DeckIsEmpty           (* [this.deckManager.isEmpty()] *)
| IsolationAlreadyDrawn (* [this.drawnCards.includes("isolation")] *).

(** How a handler call ends. *)
Inductive completion :=
| Completed
| Returned (g : guard)
| Threw (error : string).

Section Handlers.
Context {rng : Type} `{RandomSource rng}.

(** The Mystery loop of [handleDrawCards]: [n] iterations still to run
    on the local [drawnCards]. *)
Fixpoint mysteryLoop (dm : DeckManager.t) (n : nat)
    (drawnCards : list card) : M rng (list card) :=
  match n with
  | O => ret drawnCards
  | S n' =>
      extraCards <- DeckManager.drawCards dm 1 ;;
      match extraCards with
      | Some ((_ :: _) as extra) =>
          let drawnCards := drawnCards ++ extra in
          let newIsolationIndex := indexOf drawnCards "isolation" in
          if negb (newIsolationIndex =? -1)
          then ret (slice0 drawnCards (newIsolationIndex + 1))
          else mysteryLoop dm n' drawnCards
      | _ => mysteryLoop dm n' drawnCards
      end
  end.

(** [handleDrawCards(count)].  [count] is an integer by its type, so
    [Number.isInteger(count)] holds. *)
Definition handleDrawCards (this : t) (count : Z)
    : M rng (completion * t) :=
  if count <=? 0 then ret (Returned CountNotPositive, this)
  else if DECK_CONFIG.MAX_DRAW <? count
  then ret (Returned CountAboveMaxDraw, this)
  else if DeckManager.isEmpty (deckManager this)
  then ret (Returned DeckIsEmpty, this)
  else
    drawn <- DeckManager.drawCards (deckManager this) count ;;
    match drawn with
    | None => ret (Threw "TypeError", this)
    | Some drawnCards =>
        let isolationIndex := indexOf drawnCards "isolation" in
        let drawnCards :=
          if negb (isolationIndex =? -1)
          then slice0 drawnCards (isolationIndex + 1)
          else drawnCards in
        let mysteryCount := countOf drawnCards "mystery" in
        drawnCards <-
          (if (0 <? mysteryCount) && negb (includes drawnCards "isolation")
           then mysteryLoop (deckManager this) (Z.to_nat mysteryCount)
                  drawnCards
           else ret drawnCards) ;;
        ret (Completed, Make (deckManager this) drawnCards)
    end.

(** [handleDeckSizeChange(size, selectedCards)]. *)
Definition handleDeckSizeChange (this : t) (size : DeckManager.size_arg)
    (selectedCards : option (list card)) : M rng t :=
  dm <- DeckManager.createDeck (deckManager this) size selectedCards ;;
  ret (Make dm []).

(** [handleMischiefDraw()].  On an empty deck [drawCards] returns [null]
    and reading [newCards.length] throws before anything is written. *)
Definition handleMischiefDraw (this : t) : M rng (completion * t) :=
  if includes (drawnCards this) "isolation"
  then ret (Returned IsolationAlreadyDrawn, this)
  else
    drawn <- DeckManager.drawCards (deckManager this) 2 ;;
    match drawn with
    | None => ret (Threw "TypeError", this)
    | Some newCards =>
        let newCards :=
          if (0 <? Z.of_nat (length newCards))
             && bool_decide (DeckManager.element newCards 0 = "isolation")
          then [DeckManager.element newCards 0]
          else if (1 <? Z.of_nat (length newCards))
             && bool_decide (DeckManager.element newCards 1 = "isolation")
          then slice0 newCards 2
          else newCards in
        let mischiefIndex := indexOf (drawnCards this) "mischief" in
        let current :=
          if negb (mischiefIndex =? -1)
          then splice1 (drawnCards this) mischiefIndex
          else drawnCards this in
        let current := current ++ newCards in
        let isolationIndex := indexOf current "isolation" in
        let current :=
          if negb (isolationIndex =? -1)
          then slice0 current (isolationIndex + 1)
          else current in
        ret (Completed, Make (deckManager this) current)
    end.

(** [new CardGame()] after [init()]. *)
Definition new : M rng t :=
  dm <- DeckManager.new ;;
  ret (Make dm []).
End Handlers.
End CardGame.

(** ** JavaScript numbers as text, and [Map] *)

(** [Number.MAX_SAFE_INTEGER]: up to it every integer is a JavaScript
    number of its own. *)
Definition MAX_SAFE_INTEGER : Z := 2 ^ 53 - 1.

(** [n.toString()] and [`${n}`] for an integer [n].  The digits are exact:
    the model agrees with JavaScript up to [MAX_SAFE_INTEGER]; beyond it
    JavaScript holds the nearest double and, from 1e21 on, prints an
    exponent. *)
Definition toString (n : Z) : string :=
  NilZero.string_of_int (Z.to_int n).

(** [parseInt(s, 10)] on a string of decimal digits, which is all the
    program passes (the [\d+] groups of a regular expression); [None] is
    [NaN].  The number is exact: the model agrees with JavaScript on runs
    of digits that read up to [MAX_SAFE_INTEGER]; a longer run is read by
    JavaScript as the nearest double. *)
Definition parseInt (s : string) : option Z :=
  (λ d, Z.of_N (N.of_uint d)) <$> NilZero.uint_of_string s.

(** A JavaScript [Map] keeps its entries in insertion order, and
    [calculateEffects] iterates in that order: an association list. *)
Section JsMap.
Context {K V : Type} `{EqDecision K}.

(** [m.get(k)]; [None] is [undefined]. *)
Fixpoint Map_get (m : list (K * V)) (k : K) : option V :=
  match m with
  | [] => None
  | (k', v) :: rest => if decide (k' = k) then Some v else Map_get rest k
  end.

(** [m.set(k, v)]: an existing key keeps its place, a new key goes last. *)
Fixpoint Map_set (m : list (K * V)) (k : K) (v : V) : list (K * V) :=
  match m with
  | [] => [(k, v)]
  | (k', v') :: rest =>
      if decide (k' = k) then (k', v) :: rest
      else (k', v') :: Map_set rest k v
  end.
End JsMap.

(** ** [models/CardEffects.js] *)

Module CardEffects.

(** One option of the Coin card: [{ value, label, quantity, worth }]. *)
Record choice := Choice {
  value : string;
  label : string;
  quantity : Z;
  worth : Z
}.

(** What [getEffect] returns when it does not return [null]: a string, or
    one of four object shapes. *)
Inductive effect :=
| Text (text : string)
    (* a plain string *)
| Resistance (type : string) (count : Z) (damageTypes : list string)
    (* [{ type, count, damageTypes }], for chaos and order *)
| Reward (count : Z) (choices : list choice)
    (* [{ type: "coin", count, choices }] *)
| Curse (text : string)
    (* [{ text, isCurse: true }] *)
| Offer (count : Z) (text : string)
    (* [{ type: "mischief", count, text }] *).

(** [count === 1 ? a : b] where [b] may be the number itself. *)
Definition one (count : Z) (a b : string) : string :=
  if count =? 1 then a else b.

(** [getEffect(cardName, count)]; [None] is [null]. *)
Definition getEffect (cardName : card) (count : Z) : option effect :=
  if count =? 0 then None
  else if decide (cardName = "beginning") then
    let d10Count := 2 * count in
    Some (Text ("Your hit point maximum and current hit points increase by "
      +:+ toString d10Count +:+ "d10. Your hit point maximum remains increased in this way for the next 8 hours."))
  else if decide (cardName = "champion") then
    let bonus := count in
    Some (Text ("You gain a +" +:+ toString bonus
      +:+ " bonus to weapon attack and damage rolls. This bonus lasts for 8 hours."))
  else if decide (cardName = "chancellor") then
    Some (Text "Within 8 hours of drawing this card, you can cast Augury once as an action, requiring no material components. Use your Intelligence, Wisdom, or Charisma as the spellcasting ability (your choice).")
  else if decide (cardName = "chaos") then
    Some (Resistance "chaos" count
            ["acid"; "cold"; "fire"; "lightning"; "thunder"])
  else if decide (cardName = "coin") then
    Some (Reward count
            [ Choice "jewelry" "Jewelry" 5 100;
              Choice "gemstones" "Gemstones" 10 50 ])
  else if decide (cardName = "crown") then
    Some (Text "You learn the Friends cantrip. Use your Intelligence, Wisdom, or Charisma as the spellcasting ability (your choice). If you already know this cantrip, the card has no effect.")
  else if decide (cardName = "dawn") then
    Some (Text "This card invigorates you. For the next 8 hours, you can add your proficiency bonus to your initiative rolls.")
  else if decide (cardName = "day") then
    let bonus := count in
    Some (Text ("You gain a +" +:+ toString bonus
      +:+ " bonus to saving throws. This benefit lasts until you finish a long rest."))
  else if decide (cardName = "destiny") then
    Some (Text "This card protects you against an untimely demise. The first time after drawing this card that you would drop to 0 hit points from taking damage, you instead drop to 1 hit point.")
  else if decide (cardName = "dusk") then
    Some (Curse "This card supernaturally saps your energy. You have disadvantage on initiative rolls. This effect lasts until you finish a long rest, but it can be ended early by a Remove Curse spell or similar magic.")
  else if decide (cardName = "end") then
    let d10Count := 2 * count in
    Some (Curse ("This card is an omen of death. You take "
      +:+ toString d10Count +:+ "d10 necrotic damage, and your hit point maximum is reduced by an amount equal to the damage taken. This effect can't reduce your hit point maximum below 10 hit points. This reduction lasts until you finish a long rest, but it can be ended early by a Remove Curse spell or similar magic."))
  else if decide (cardName = "isolation") then
    Some (Curse "You disappear, along with anything you are wearing or carrying, and become trapped in a harmless extradimensional space for 1d4 minutes. You draw no more cards. You then reappear in the space you left or the nearest unoccupied space. When you reappear, you must succeed on a DC 11 Constitution saving throw or have the poisoned condition for 1 hour as your body reels from the extradimensional travel.")
  else if decide (cardName = "justice") then
    Some (Text "You momentarily gain the ability to balance the scales of fate. For the next 8 hours, whenever you or a creature within 60 feet of you is about to roll a d20 with advantage or disadvantage, you can use your reaction to prevent the roll from being affected by advantage or disadvantage.")
  else if decide (cardName = "knife") then
    let weaponCount := one count "An" (toString count) in
    let weaponText := one count "weapon" "weapons" in
    Some (Text (weaponCount +:+ " uncommon magic " +:+ weaponText
      +:+ " you're proficient with " +:+ one count "appears" "appear"
      +:+ " in your hands. The DM chooses the " +:+ weaponText +:+ "."))
  else if decide (cardName = "lock") then
    let d3Count := count in
    Some (Text ("You gain the ability to cast Knock " +:+ toString d3Count
      +:+ "d3 times. Use your Intelligence, Wisdom, or Charisma as the spellcasting ability (your choice)."))
  else if decide (cardName = "monster") then
    let d4Count := count in
    Some (Curse ("This card's monstrous visage curses you. While cursed in this way, whenever you make a saving throw, you must roll "
      +:+ toString d4Count +:+ "d4 and subtract the number rolled from the total. The curse lasts until you finish a long rest, but it can be ended early with a Remove Curse spell or similar magic."))
  else if decide (cardName = "mystery") then
    Some (Curse "You have disadvantage on Intelligence saving throws for 1 hour. Discard this card and draw from the deck again; together, the two draws count as one of your declared draws.")
  else if decide (cardName = "night") then
    Some (Text "You gain darkvision within a range of 300 feet. This darkvision lasts for 8 hours.")
  else if decide (cardName = "order") then
    Some (Resistance "order" count
            ["force"; "necrotic"; "poison"; "psychic"; "radiant"])
  else if decide (cardName = "student") then
    Some (Text "You gain proficiency in Wisdom saving throws. If you already have this proficiency, you instead gain proficiency in Intelligence or Charisma saving throws (your choice).")
  else if decide (cardName = "vulture") then
    let itemText :=
      one count "item or piece of equipment" "items or pieces of equipment" in
    let numberText := one count "One" (toString count) in
    Some (Curse (numberText +:+ " nonmagical " +:+ itemText
      +:+ " in your possession (chosen by the DM) "
      +:+ one count "disappears" "disappear" +:+ ". The "
      +:+ one count "item" "items"
      +:+ " remain nearby but concealed for a short time, so "
      +:+ one count "it can" "they can"
      +:+ " be found with a successful DC 15 Wisdom (Perception) check. If the "
      +:+ one count "item isn't" "items aren't"
      +:+ " recovered within 1 hour, "
      +:+ one count "it disappears" "they disappear" +:+ " forever."))
  else if decide (cardName = "mischief") then
    let additionalCards := count * 2 in
    let itemText := one count "item" "items" in
    Some (Offer count ("You receive " +:+ one count "an" (toString count)
      +:+ " uncommon wondrous " +:+ itemText
      +:+ " (chosen by the DM), or you can draw " +:+ toString additionalCards
      +:+ " additional card" +:+ (if additionalCards =? 1 then "" else "s")
      +:+ " beyond your declared draws."))
  else None.

(** [countCards(drawnCards)]. *)
Definition countCards (drawnCards : list card) : list (card * Z) :=
  fold_left
    (λ counts card, Map_set counts card (default 0 (Map_get counts card) + 1))
    drawnCards [].

(** An element of the [regular] or [curses] array:
    [{ card, count, effect }]. *)
Record EffectRecord := Record_ {
  rcard : card;
  rcount : Z;
  reffect : effect
}.

(** [if (effect)]: [null] and the empty string are falsy, objects and
    other strings are truthy. *)
Definition truthy (e : option effect) : bool :=
  match e with
  | None => false
  | Some (Text "") => false
  | Some _ => true
  end.

(** The loop of [calculateEffects] over [cardCounts.entries()]. *)
Fixpoint effectsLoop (entries : list (card * Z))
    (regularEffects curseEffects : list EffectRecord)
    : list EffectRecord * list EffectRecord :=
  match entries with
  | [] => (regularEffects, curseEffects)
  | (cardName, count) :: rest =>
      let effect := getEffect cardName count in
      if truthy effect then
        match effect with
        | Some (Curse text) =>
            effectsLoop rest regularEffects
              (curseEffects ++ [Record_ cardName count (Text text)])
        | Some e =>
            effectsLoop rest
              (regularEffects ++ [Record_ cardName count e]) curseEffects
        | None => effectsLoop rest regularEffects curseEffects
        end
      else effectsLoop rest regularEffects curseEffects
  end.

(** [calculateEffects(drawnCards)], as the pair [(regular, curses)]. *)
Definition calculateEffects (drawnCards : list card)
    : list EffectRecord * list EffectRecord :=
  if Z.of_nat (length drawnCards) =? 0 then ([], [])
  else effectsLoop (countCards drawnCards) [] [].

(** [calculateChaosDurations(selections)] and
    [calculateOrderDurations(selections)] have the same body. *)
Definition calculateDurations (selections : list string)
    : list (string * Z) :=
  fold_left
    (λ durations damageType,
       Map_set durations damageType
         (default 0 (Map_get durations damageType) + 1))
    selections [].
Definition calculateChaosDurations := calculateDurations.
Definition calculateOrderDurations := calculateDurations.
End CardEffects.

(** ** [utils/diceRoller.js] (the version with [kh1]) *)

Module DiceRoller.

(** The character classes [\d] and [\w] of a regular expression without
    the [u] flag. *)
Definition isDigit (c : ascii) : bool :=
  (("0" <=? c) && (c <=? "9"))%char.

Definition isWordChar (c : ascii) : bool :=
  (isDigit c || (("A" <=? c) && (c <=? "Z")) || (("a" <=? c) && (c <=? "z"))
   || (c =? "_"))%char.

(** The longest run of digits at the head of [s], and what follows it:
    how a greedy [\d*] matches. *)
Fixpoint spanDigits (s : string) : string * string :=
  match s with
  | String c rest =>
      if isDigit c
      then let '(digits, after) := spanDigits rest in (String c digits, after)
      else ("", s)
  | "" => ("", "")
  end.

(** What follows the literal [p] at the head of [s], if [s] starts with
    it. *)
Fixpoint stripPrefix (p s : string) : option string :=
  match p, s with
  | "", _ => Some s
  | String a p', String b s' =>
      if (a =? b)%char then stripPrefix p' s' else None
  | String _ _, "" => None
  end.

(** [s.includes(sub)]. *)
Fixpoint str_includes (s sub : string) : bool :=
  String.prefix sub s ||
  match s with
  | String _ rest => str_includes rest sub
  | "" => false
  end.

(** [s.match(/^(\d+)d(\d+)(?:kh1)?$/)]: the two groups, or [None] for
    [null].  A greedy [\d+] followed by the letter [d] can only match the
    whole run of digits, so no backtracking changes the result. *)
Definition matchWhole (s : string) : option (string * string) :=
  let '(g1, after1) := spanDigits s in
  match g1, stripPrefix "d" after1 with
  | String _ _, Some after_d =>
      let '(g2, after2) := spanDigits after_d in
      match g2 with
      | String _ _ =>
          if bool_decide (after2 = "") || bool_decide (after2 = "kh1")
          then Some (g1, g2) else None
      | "" => None
      end
  | _, _ => None
  end.

(** [\b] after a word character: end of text or a non-word character. *)
Definition boundaryAfterWord (s : string) : bool :=
  match s with
  | "" => true
  | String c _ => negb (isWordChar c)
  end.

(** One attempt of [/\b(\d+d\d+(?:kh1)?)\b/] at a position that follows
    no word character: the matched token and the rest of the text.  Both
    [\d+] take whole runs of digits (a shorter run would be followed by a
    digit, where neither [d] nor [\b] can match), and [(?:kh1)?] is tried
    before the alternative without it. *)
Definition matchAt (s : string) : option (string * string) :=
  let '(g1, after1) := spanDigits s in
  match g1, stripPrefix "d" after1 with
  | String _ _, Some after_d =>
      let '(g2, after2) := spanDigits after_d in
      match g2 with
      | String _ _ =>
          match stripPrefix "kh1" after2 with
          | Some after_kh1 =>
              if boundaryAfterWord after_kh1
              then Some (g1 +:+ "d" +:+ g2 +:+ "kh1", after_kh1)
              else None
          | None =>
              if boundaryAfterWord after2
              then Some (g1 +:+ "d" +:+ g2, after2)
              else None
          end
      | "" => None
      end
  | _, _ => None
  end.

(** The object returned by [parseDiceExpression]. *)
Record parsed := Parsed {
  quantity : Z;
  sides : Z;
  keepHighest : bool
}.

(** [parseDiceExpression(diceExpression)]; [None] is [null]. *)
Definition parseDiceExpression (diceExpression : string) : option parsed :=
  match matchWhole diceExpression with
  | None => None
  | Some (g1, g2) =>
      let hasKeepHighest := str_includes diceExpression "kh1" in
      match parseInt g1, parseInt g2 with
      | Some quantity, Some sides =>
          if (quantity <? 1) || (sides <? 1) then None
          else Some (Parsed quantity sides hasKeepHighest)
      | _, _ => None
      end
  end.

(** The double quote character, for the diagnostic line. *)
Definition dquote : string := String "034" "".

Section Rolling.
Context {rng : Type} `{RandomSource rng}.

(** The [kh1] loop: [n] rolls still to make, [max] so far. *)
Fixpoint maxLoop (n : nat) (sides : Z) (max : Z) : M rng Z :=
  match n with
  | O => ret max
  | S n' =>
      roll <- Rng.randomInt 1 sides ;;
      maxLoop n' sides (Z.max max roll)
  end.

(** The summing loop: [n] rolls still to make, [total] so far. *)
Fixpoint sumLoop (n : nat) (sides : Z) (total : Z) : M rng Z :=
  match n with
  | O => ret total
  | S n' =>
      roll <- Rng.randomInt 1 sides ;;
      sumLoop n' sides (total + roll)
  end.

(** [rollDiceExpression(diceExpression)].  Nothing in the [try] block
    throws, so the [catch] arm is not modelled. *)
Definition rollDiceExpression (diceExpression : string) : M rng Z :=
  match parseDiceExpression diceExpression with
  | None =>
      _ <- Rng.console_error
             ("Invalid dice expression: " +:+ dquote +:+ diceExpression
              +:+ dquote) ;;
      ret 0
  | Some p =>
      if keepHighest p then
        if quantity p =? 0 then ret 0
        else maxLoop (Z.to_nat (quantity p)) (sides p) 0
      else sumLoop (Z.to_nat (quantity p)) (sides p) 0
  end.

(** [text.replace(dicePattern, callback)] from a position on: [fuel]
    bounds the characters still to scan, [afterWord] tells whether the
    previous character is a word character (then [\b] cannot match
    before a digit).  The callback runs once per match, left to
    right. *)
Fixpoint replaceLoop (fuel : nat) (afterWord : bool) (text : string)
    : M rng string :=
  match fuel, text with
  | S fuel', String c rest =>
      match (if afterWord then None else matchAt text) with
      | Some (token, after) =>
          rolledValue <- rollDiceExpression token ;;
          out <- replaceLoop fuel' true after ;;
          ret (toString rolledValue +:+ out)
      | None =>
          out <- replaceLoop fuel' (isWordChar c) rest ;;
          ret (String c out)
      end
  | _, _ => ret text
  end.

(** [rollDiceInText(text)]. *)
Definition rollDiceInText (text : string) : M rng string :=
  replaceLoop (String.length text) false text.
End Rolling.
End DiceRoller.

(** ** [utils/stringUtils.js] and [renderers/effectRenderers/EffectRenderers.js] *)

Module EffectRenderers.

(** [c.toUpperCase()] on one character (ASCII letters; the damage types
    are ASCII). *)
Definition toUpperCase (c : ascii) : ascii :=
  if (("a" <=? c) && (c <=? "z"))%char
  then ascii_of_nat (nat_of_ascii c - 32) else c.

(** [capitalizeFirst(str)]. *)
Definition capitalizeFirst (str : string) : string :=
  match str with
  | "" => str
  | String c rest => String (toUpperCase c) rest
  end.

(** The [diceNotation] of one duration in [renderChaosEffect] and
    [renderOrderEffect]. *)
Definition diceNotation (d12Count : Z) : string :=
  if d12Count =? 1 then toString d12Count +:+ "d12"
  else toString d12Count +:+ "d12kh1".

(** The [textContent] of one [chaos-duration-item]. *)
Definition durationText (damageType : string) (d12Count : Z) : string :=
  capitalizeFirst damageType +:+ ": " +:+ diceNotation d12Count +:+ " days".

(** The duration lines of [renderChaosEffect] / [renderOrderEffect], in
    the order of [durations.forEach]. *)
Definition renderDurations (selections : list string) : list string :=
  map (λ '(damageType, d12Count), durationText damageType d12Count)
      (CardEffects.calculateDurations selections).
End EffectRenderers.

(** ** [EffectRenderers.js]: the Coin description *)

Module CoinEffect.
Import CardEffects.

(** [c.toLowerCase()] on one character (ASCII letters; the labels are
    ASCII). *)
Definition toLowerCaseChar (c : ascii) : ascii :=
  if (("A" <=? c) && (c <=? "Z"))%char
  then ascii_of_nat (nat_of_ascii c + 32) else c.

(** [s.toLowerCase()]. *)
Fixpoint toLowerCase (s : string) : string :=
  match s with
  | "" => ""
  | String c rest => String (toLowerCaseChar c) (toLowerCase rest)
  end.

(** [choices.find(choice => choice.value === selection)]; [None] is
    [undefined]. *)
Definition findChoice (choices : list choice) (selection : string)
    : option choice :=
  List.find (λ choice, bool_decide (value choice = selection)) choices.

(** The totals [renderCoinEffect] computes for the selected choice:
    [(totalQuantity, totalWorth)]. *)
Definition totals (selectedChoice : choice) (count : Z) : Z * Z :=
  let totalQuantity := quantity selectedChoice * count in
  let totalWorth := totalQuantity * worth selectedChoice in
  (totalQuantity, totalWorth).

(** The [textContent] of the [coin-description] written by
    [renderCoinEffect]; [None] when no choice has the selected value and
    no description is added. *)
Definition description (count : Z) (choices : list choice)
    (selection : string) : option string :=
  match findChoice choices selection with
  | Some selectedChoice =>
      let '(totalQuantity, totalWorth) := totals selectedChoice count in
      Some (toString totalQuantity +:+ " "
            +:+ toLowerCase (label selectedChoice) +:+ ", each worth "
            +:+ toString (worth selectedChoice)
            +:+ " gp, appear at your feet. (total: "
            +:+ toString totalWorth +:+ " gp)")
  | None => None
  end.
End CoinEffect.

(** ** [renderers/EffectsRenderer.js]: selections and the choice of a renderer *)

Module EffectsRenderer.
Import CardEffects.

(** The fields of an [EffectsRenderer] that hold the selections. *)
Record t := Make {
  chaosSelections : list string;
  orderSelections : list string;
  coinSelection : string
}.

(** The selections set by the constructor. *)
Definition new : t := Make [] [] "jewelry".

(** [resetSelections(drawnCards)]. *)
Definition resetSelections (this : t) (drawnCards : list card) : t :=
  let chaosCount := length (filter (λ card, card = "chaos") drawnCards) in
  let orderCount := length (filter (λ card, card = "order") drawnCards) in
  Make (replicate chaosCount "acid") (replicate orderCount "force")
       "jewelry".

(** [clearSelections()]. *)
Definition clearSelections (this : t) : t := Make [] [] "jewelry".

(** One call of a renderer of [EffectRenderers.js] made by
    [renderEffects], with the arguments that decide what is shown. *)
Inductive call :=
| renderStandardEffect (effect : EffectRecord) (isCurse : bool)
| renderChaosEffect (effect : EffectRecord) (selections : list string)
| renderCoinEffect (effect : EffectRecord) (selection : string)
| renderOrderEffect (effect : EffectRecord) (selections : list string)
| renderMischiefEffect (effect : EffectRecord) (hasIsolation : bool)
    (onMischiefDraw : bool).

(** The body of [regular.forEach]: the renderer chosen for one record.
    A string has no [type]; of the objects only [{ type, ... }] with one
    of the four types has a renderer of its own. *)
Definition dispatch (this : t) (hasIsolation onMischiefDraw : bool)
    (effect : EffectRecord) : call :=
  match reffect effect with
  | Resistance type _ _ =>
      if decide (type = "chaos")
      then renderChaosEffect effect (chaosSelections this)
      else if decide (type = "order")
      then renderOrderEffect effect (orderSelections this)
      else renderStandardEffect effect false
  | Reward _ _ => renderCoinEffect effect (coinSelection this)
  | Offer _ _ => renderMischiefEffect effect hasIsolation onMischiefDraw
  | Text _ | Curse _ => renderStandardEffect effect false
  end.

(** [renderEffects(drawnCards)] once the display elements exist: [None]
    when the display is left marked empty, else the renderer calls in
    order.  [onMischiefDraw] tells whether the callback is set. *)
Definition renderEffects (this : t) (onMischiefDraw : bool)
    (drawnCards : list card) : option (list call) :=
  if Z.of_nat (length drawnCards) =? 0 then None
  else
    let '(regular, curses) := calculateEffects drawnCards in
    if (Z.of_nat (length regular) =? 0) && (Z.of_nat (length curses) =? 0)
    then None
    else
      let hasIsolation := includes drawnCards "isolation" in
      Some (map (dispatch this hasIsolation onMischiefDraw) regular
            ++ map (λ effect, renderStandardEffect effect true) curses).

(** Whether [renderMischiefEffect] adds the button: [!hasIsolation &&
    onMischiefDraw]. *)
Definition showsDrawButton (c : call) : bool :=
  match c with
  | renderMischiefEffect _ hasIsolation onMischiefDraw =>
      negb hasIsolation && onMischiefDraw
  | _ => false
  end.
End EffectsRenderer.

(** ** [ui/UIManager.js]: the check of the number typed *)

Module UIManager.
(** [isValidCardCount(count)], where [count] is what [parseInt] made of
    the input: an integer, or [NaN] ([None]). *)
Definition isValidCardCount (count : option Z) : bool :=
  match count with
  | None => false
  | Some count => (0 <? count) && (count <=? DECK_CONFIG.MAX_DRAW)
  end.

Section Click.
Context {rng : Type} `{RandomSource rng}.

(** The click listener of the draw button, with the callback that
    [init] has set ([handleDrawCardsAsync], which awaits
    [handleDrawCards]): [None] when the listener returns without calling
    the handler. *)
Definition drawButtonClick (count : option Z) (this : CardGame.t)
    : M rng (option CardGame.completion * CardGame.t) :=
  match count with
  | Some n =>
      if negb (isValidCardCount count) then ret (None, this)
      else
        r <- CardGame.handleDrawCards this n ;;
        ret (Some r.1, r.2)
  | None => ret (None, this)
  end.
End Click.
End UIManager.

(** ** A scripted random source, for running the program on given rolls *)

Module Scripted.
(** The generator is the list of values still to come; a value outside the
    requested range, or an exhausted script, yields the lower bound. *)
Definition t := list Z.

Definition next (lo hi : Z) (g : t) : Z * t :=
  match g with
  | [] => (lo, [])
  | x :: g' => (if (lo <=? x) && (x <=? hi) then x else lo, g')
  end.

Lemma next_range lo hi g : lo ≤ hi → lo ≤ (next lo hi g).1 ≤ hi.
Proof.
  intros Hle. destruct g as [|x g']; simpl; [lia|].
  destruct (lo <=? x) eqn:E1, (x <=? hi) eqn:E2; simpl; lia.
Qed.

#[export] Instance source : RandomSource t :=
  {| uniformIntDistribution := next;
     uniformIntDistribution_range := next_range |}.

(** Run a computation on a script, with an empty console. *)
Definition run {A} (m : M t A) (script : list Z) : A * world t :=
  m (World script []).
End Scripted.

(** * Vocabulary of the properties *)

(** ** The halt rule and the removal of one Mischief card *)

(** The truncation written three times in [main.js]: cut the array after the
    first "isolation", if there is one. *)
Definition haltRule (cards : list card) : list card :=
  let isolationIndex := indexOf cards "isolation" in
  if negb (isolationIndex =? -1) then slice0 cards (isolationIndex + 1)
  else cards.

(** No card exists after the first occurrence of the halt card. *)
Definition NoCardAfterHalt (cards : list card) : Prop :=
  ∀ pre post, cards = pre ++ "isolation" :: post → "isolation" ∉ pre →
              post = [].

(** [k] samples either contain no "isolation", or stop at the first one. *)
Definition StopsAtHalt (samples : list card) (k limit : nat) : Prop :=
  (("isolation" ∉ samples) ∧ k = limit) ∨
  (∃ pre, samples = pre ++ ["isolation"] ∧ ("isolation" ∉ pre)).

(** The removal written in [handleMischiefDraw]: drop the first "mischief",
    if there is one. *)
Definition removeOneMischief (cards : list card) : list card :=
  let mischiefIndex := indexOf cards "mischief" in
  if negb (mischiefIndex =? -1) then splice1 cards mischiefIndex else cards.

(** ** Samples and rolls in a row *)

Section Sequences.
Context {rng : Type} `{RandomSource rng}.

(** One sample: what [drawCards] does in each iteration of its loop. *)
Definition sampleOne (arr : list card) : M rng card :=
  randomIndex <- Rng.randomInt 0 (Z.of_nat (length arr) - 1) ;;
  ret (DeckManager.element arr randomIndex).

(** [n] samples in a row. *)
Fixpoint sampleMany (n : nat) (arr : list card) : M rng (list card) :=
  match n with
  | O => ret []
  | S n' =>
      c <- sampleOne arr ;;
      rest <- sampleMany n' arr ;;
      ret (c :: rest)
  end.

(** [n] rolls of a die with [sides] sides, in order. *)
Fixpoint rollMany (n : nat) (sides : Z) : M rng (list Z) :=
  match n with
  | O => ret []
  | S n' =>
      roll <- Rng.randomInt 1 sides ;;
      rest <- rollMany n' sides ;;
      ret (roll :: rest)
  end.

(** The games that can be reached from a new game by the handlers, with
    the state of the global resources. *)
Inductive reachable : CardGame.t → world rng → Prop :=
| reachable_new w :
    reachable (CardGame.new w).1 (CardGame.new w).2
| reachable_draw this w count :
    reachable this w →
    reachable (CardGame.handleDrawCards this count w).1.2
              (CardGame.handleDrawCards this count w).2
| reachable_bonus this w :
    reachable this w →
    reachable (CardGame.handleMischiefDraw this w).1.2
              (CardGame.handleMischiefDraw this w).2
| reachable_deck this w size selectedCards :
    reachable this w →
    reachable (CardGame.handleDeckSizeChange this size selectedCards w).1
              (CardGame.handleDeckSizeChange this size selectedCards w).2.

End Sequences.

(** The highest of a list of rolls, as the [kh1] loop computes it. *)
Definition highest (rolls : list Z) : Z := fold_left Z.max rolls 0.

(** The total of a list of rolls. *)
Definition total (rolls : list Z) : Z := fold_left Z.add rolls 0.

(** The line [rollDiceExpression] writes for an expression it cannot
    parse. *)
Definition diagnostic (diceExpression : string) : string :=
  "Invalid dice expression: " +:+ DiceRoller.dquote +:+ diceExpression
  +:+ DiceRoller.dquote.

(** ** The deck *)

(** The card set [createDeck] copies into the deck. *)
Definition chosenCardSet (this : DeckManager.t) (size : DeckManager.size_arg)
    (customCards : option (list card)) : list card :=
  match size with
  | DeckManager.SizeCustom => default [] customCards
  | DeckManager.SizeNumber n =>
      if n =? DECK_SIZES.REDUCED
      then TAROT_CARDS.REDUCED else TAROT_CARDS.FULL
  | DeckManager.SizeNull =>
      if DeckManager.deckSize this =? DECK_SIZES.REDUCED
      then TAROT_CARDS.REDUCED else TAROT_CARDS.FULL
  end.

(** ** Tallies *)

Module Tally.
(** The case labels of the [switch] in [getEffect]: the rule table. *)
Definition ruleTable : list card :=
  [ "beginning"; "champion"; "chancellor"; "chaos"; "coin"; "crown"; "dawn";
    "day"; "destiny"; "dusk"; "end"; "isolation"; "justice"; "knife";
    "lock"; "monster"; "mystery"; "night"; "order"; "student"; "vulture";
    "mischief" ].

Definition hasRule (cardName : card) : bool :=
  bool_decide (cardName ∈ ruleTable).

(** The sum of the [count] fields of a list of records. *)
Definition sumCounts (records : list CardEffects.EffectRecord) : Z :=
  foldr (λ r acc, CardEffects.rcount r + acc) 0 records.

(** The sum of the tallies of the keys selected by [P]. *)
Definition sumIf {K} (P : K → bool) (m : list (K * Z)) : Z :=
  foldr (λ '(k, v) acc, (if P k then v else 0) + acc) 0 m.

(** The number of drawn cards without an entry in the rule table. *)
Definition unmapped (drawnCards : list card) : Z :=
  Z.of_nat (length (filter (λ c, hasRule c = false) drawnCards)).

(** Tallying a list, from the tallies [m] on. *)
Definition tallyFrom {K : Type} `{EqDecision K} (m : list (K * Z))
    (l : list K) : list (K * Z) :=
  fold_left (λ acc x, Map_set acc x (default 0 (Map_get acc x) + 1)) l m.
End Tally.

(** ** Dice tokens in a text *)

Module DiceText.
Import DiceRoller.

(** Every character of [s] is a digit. *)
Fixpoint allDigits (s : string) : bool :=
  match s with
  | "" => true
  | String c rest => isDigit c && allDigits rest
  end.

(** No character of [s] is a digit. *)
Fixpoint noDigit (s : string) : bool :=
  match s with
  | "" => true
  | String c rest => negb (isDigit c) && noDigit rest
  end.

(** [s] does not start with a digit. *)
Definition startsNonDigit (s : string) : bool :=
  match s with
  | "" => true
  | String c _ => negb (isDigit c)
  end.

(** Whether the position after [s] follows a word character, given that
    the position before [s] does ([b]). *)
Fixpoint endsInWord (b : bool) (s : string) : bool :=
  match s with
  | "" => b
  | String c rest => endsInWord (isWordChar c) rest
  end.

(** The shape of a token matched by the pattern of [rollDiceInText]. *)
Definition diceToken (g1 g2 : string) (kh : bool) : string :=
  g1 +:+ "d" +:+ g2 +:+ (if kh then "kh1" else "").
End DiceText.

(** ** The tokens of a text, as the pattern of [rollDiceInText] finds them *)

Module Tokens.
Import DiceRoller DiceText.

(** A dice token: a run of digits, the letter [d], a run of digits, and
    then nothing or [kh1]. *)
Definition isToken (tok : string) : Prop :=
  ∃ g1 g2 kh, tok = diceToken g1 g2 kh
    ∧ allDigits g1 = true ∧ g1 ≠ ""
    ∧ allDigits g2 = true ∧ g2 ≠ "".

(** The pattern matches [tok] in [text] behind [x] and before [y]: [tok]
    is a dice token between two word boundaries.  A token starts and ends
    with a word character, so the boundaries are there when no word
    character stands before it and none after it.  [b] tells whether the
    text itself follows a word character. *)
Definition occursAt (b : bool) (text x tok y : string) : Prop :=
  text = x +:+ tok +:+ y ∧ isToken tok
  ∧ endsInWord b x = false ∧ boundaryAfterWord y = true.

(** The pattern matches nowhere in the text. *)
Definition tokenFree (b : bool) (text : string) : Prop :=
  ∀ x tok y, ¬ occursAt b text x tok y.

(** The leftmost match: where a search from the start of the text
    stops. *)
Definition firstToken (b : bool) (text plain tok after : string) : Prop :=
  occursAt b text plain tok after
  ∧ ∀ x tok' y, occursAt b text x tok' y →
                (String.length plain ≤ String.length x)%nat.

(** The matches of a global search, from left to right, each search
    starting where the match before it ends: every match with the
    stretch of text in front of it, and the stretch behind the last
    match. *)
Inductive cut : bool → string → list (string * string) → string → Prop :=
| cut_end b text :
    tokenFree b text → cut b text [] text
| cut_token b text plain tok after segs last :
    firstToken b text plain tok after →
    cut true after segs last →
    cut b text ((plain, tok) :: segs) last.

(** A cut of any text, computed by a scan ([fuel] bounds the characters
    still to read): it shows that every text has a cut. *)
Fixpoint scan (fuel : nat) (b : bool) (text : string)
    : list (string * string) * string :=
  match fuel, text with
  | S fuel', String c rest =>
      match (if b then None else matchAt text) with
      | Some (tok, after) =>
          let '(segs, last) := scan fuel' true after in
          (("", tok) :: segs, last)
      | None =>
          match scan fuel' (isWordChar c) rest with
          | ([], last) => ([], String c last)
          | ((plain, tok) :: segs, last) =>
              ((String c plain, tok) :: segs, last)
          end
      end
  | _, _ => ([], text)
  end.

Section Replaced.
Context {rng : Type} `{RandomSource rng}.

(** The text of a cut with each token replaced by the value
    [rollDiceExpression] returns for it, the tokens rolled from left to
    right. *)
Fixpoint replaced (segs : list (string * string)) (last : string)
    : M rng string :=
  match segs with
  | [] => ret last
  | (plain, tok) :: rest =>
      rolledValue <- rollDiceExpression tok ;;
      out <- replaced rest last ;;
      ret (plain +:+ toString rolledValue +:+ out)
  end.
End Replaced.
End Tokens.

(** ** How a handler call ends for its caller *)



(** ** Games and rolls to run the program on *)

Module Fixture.
(** A game on the full deck, in vocabulary order. *)
Definition fullDeck : DeckManager.t :=
  DeckManager.Make TAROT_CARDS.FULL DECK_SIZES.FULL.
Definition game (drawnCards : list card) : CardGame.t :=
  CardGame.Make fullDeck drawnCards.

(** The global resources with a script of rolls and an empty console. *)
Definition rolls (script : list Z) : world Scripted.t := World script [].
End Fixture.

(** ** The effects on display *)

Module Display.
(** The distinct elements of a list, in the order of their first
    occurrence. *)
Fixpoint firstOccurrences {K : Type} `{EqDecision K} (l : list K) : list K :=
  match l with
  | [] => []
  | x :: rest => x :: filter (λ y, y ≠ x) (firstOccurrences rest)
  end.

(** The cards whose effect [getEffect] marks with [isCurse]. *)
Definition curseCards : list card :=
  [ "dusk"; "end"; "isolation"; "monster"; "mystery"; "vulture" ].

Definition isCurseCard (cardName : card) : bool :=
  bool_decide (cardName ∈ curseCards).

(** The cards with an effect that is not a curse. *)
Definition isRegularCard (cardName : card) : bool :=
  Tally.hasRule cardName && negb (isCurseCard cardName).

(** The sum of all tallies of a map. *)
Definition sumAll {K : Type} (m : list (K * Z)) : Z :=
  Tally.sumIf (λ _, true) m.

(** What [handleDrawCards] and [handleMischiefDraw] put on display at
    their end: [resetSelections(this.drawnCards)], then
    [renderEffects(this.drawnCards)], with the Mischief callback that
    [init] has set. *)
Definition shown (drawnCards : list card)
    : option (list EffectsRenderer.call) :=
  EffectsRenderer.renderEffects
    (EffectsRenderer.resetSelections EffectsRenderer.new drawnCards)
    true drawnCards.
End Display.

(** ** A game in play, to run the program on *)

Module Session.
Import Scripted Fixture.

(** Rolls that leave the new deck in the order of the vocabulary: the
    shuffle swaps each card with itself. *)
Definition keepOrder : list Z :=
  [21; 20; 19; 18; 17; 16; 15; 14; 13; 12; 11; 10; 9; 8; 7; 6; 5; 4; 3; 2; 1].

(** A new game, then a draw of 2 with "mischief" and "day" as the
    cards. *)
Definition afterDraw
    : (CardGame.completion * CardGame.t) * world Scripted.t :=
  let fresh := CardGame.new (rolls (keepOrder ++ [15; 7; 3; 11])) in
  CardGame.handleDrawCards fresh.1 2 fresh.2.
End Session.

(** Decide a closed proposition by evaluation. *)
Ltac by_compute := apply (bool_decide_unpack _); vm_compute; exact I.

(** * Properties *)

(** ** The state monad *)

Lemma bind_run {rng A B} (m : M rng A) (k : A → M rng B) w :
  bind m k w = k (m w).1 (m w).2.
Proof. unfold bind. by destruct (m w). Qed.

Lemma ret_run {rng A} (a : A) (w : world rng) : ret a w = (a, w).
Proof. done. Qed.

(** ** JavaScript array operations *)

Section JsArrayFacts.
Context {A : Type} `{EqDecision A}.
Implicit Types (arr pre post : list A) (x : A).

Lemma indexOf_bounds arr x : -1 ≤ indexOf arr x < Z.of_nat (length arr).
Proof.
  induction arr as [|y rest IH]; simpl; [lia|].
  case_decide; [lia|]. destruct (indexOf rest x =? -1) eqn:E; lia.
Qed.

Lemma indexOf_absent arr x : indexOf arr x = -1 ↔ x ∉ arr.
Proof.
  induction arr as [|y rest IH]; simpl.
  - split; [intros _; apply not_elem_of_nil | done].
  - rewrite not_elem_of_cons. pose proof (indexOf_bounds rest x).
    case_decide as Hy; [subst; split; [lia | intros [Hn _]; by destruct Hn]|].
    destruct (indexOf rest x =? -1) eqn:E.
    + apply Z.eqb_eq in E. split; [intros _; split; [congruence | tauto] | done].
    + apply Z.eqb_neq in E. split; [lia|]. intros [_ Hn]. tauto.
Qed.

(** A found index splits the array at the first occurrence. *)
Lemma indexOf_found arr x :
  indexOf arr x ≠ (-1) →
  ∃ pre post, arr = pre ++ x :: post ∧ (x ∉ pre)
              ∧ indexOf arr x = Z.of_nat (length pre)%nat.
Proof.
  induction arr as [|y rest IH]; simpl; [done|].
  case_decide as Hy.
  - subst. intros _. exists [], rest. split_and!; [done | apply not_elem_of_nil | done].
  - destruct (indexOf rest x =? -1) eqn:E; [done|]. apply Z.eqb_neq in E.
    intros _. destruct (IH E) as (pre & post & -> & Hpre & Hidx).
    exists (y :: pre), post. split_and!; [done | |simpl length; lia].
    rewrite not_elem_of_cons. split; [congruence | done].
Qed.

Lemma indexOf_first pre post x :
  x ∉ pre → indexOf (pre ++ x :: post) x = Z.of_nat (length pre).
Proof.
  induction pre as [|y pre IH]; simpl; intros Hpre.
  - by rewrite decide_True.
  - apply not_elem_of_cons in Hpre as [Hne Hpre].
    rewrite decide_False by done. rewrite IH by done.
    destruct (Z.of_nat (length pre) =? -1) eqn:E; lia.
Qed.

Lemma includes_true arr x : includes arr x = true ↔ x ∈ arr.
Proof. unfold includes. apply bool_decide_eq_true. Qed.

Lemma includes_false arr x : includes arr x = false ↔ x ∉ arr.
Proof. unfold includes. apply bool_decide_eq_false. Qed.

Lemma slice0_first pre post x :
  slice0 (pre ++ x :: post) (Z.of_nat (length pre) + 1) = pre ++ [x].
Proof.
  unfold slice0. destruct (_ <? 0) eqn:E; [apply Z.ltb_lt in E; lia|].
  replace (Z.to_nat (Z.of_nat (length pre) + 1)) with (length pre + 1)%nat
    by lia.
  rewrite take_app_add'; [|done]. by rewrite firstn_cons, take_0.
Qed.

Lemma splice1_first pre post x :
  splice1 (pre ++ x :: post) (Z.of_nat (length pre)) = pre ++ post.
Proof.
  unfold splice1. rewrite Nat2Z.id.
  induction pre as [|y pre IH]; simpl; [done | by rewrite IH].
Qed.

Lemma countOf_app arr1 arr2 x :
  countOf (arr1 ++ arr2) x = countOf arr1 x + countOf arr2 x.
Proof. unfold countOf. rewrite filter_app, length_app. lia. Qed.

Lemma countOf_cons y arr x :
  countOf (y :: arr) x = (if decide (y = x) then 1 else 0) + countOf arr x.
Proof.
  unfold countOf. rewrite filter_cons.
  case_decide; simpl length; lia.
Qed.

Lemma countOf_nonneg arr x : 0 ≤ countOf arr x.
Proof. unfold countOf. lia. Qed.

Lemma countOf_absent arr x : x ∉ arr → countOf arr x = 0.
Proof.
  induction arr as [|y arr IH]; [done|].
  rewrite not_elem_of_cons, countOf_cons. intros [Hne Hn].
  rewrite decide_False by done. rewrite IH by done. lia.
Qed.
End JsArrayFacts.

(** ** The halt rule *)

Lemma haltRule_absent cards : "isolation" ∉ cards → haltRule cards = cards.
Proof.
  intros Hn. unfold haltRule.
  apply indexOf_absent in Hn. by rewrite Hn.
Qed.

Lemma haltRule_first pre post :
  "isolation" ∉ pre → haltRule (pre ++ "isolation" :: post) = pre ++ ["isolation"].
Proof.
  intros Hpre. unfold haltRule. rewrite indexOf_first by done.
  destruct (_ =? -1) eqn:E; [apply Z.eqb_eq in E; lia|]. simpl. apply slice0_first.
Qed.

Lemma NoCardAfterHalt_absent cards : "isolation" ∉ cards → NoCardAfterHalt cards.
Proof.
  intros Hn pre post -> _. exfalso. apply Hn.
  apply elem_of_app. right. apply elem_of_cons. by left.
Qed.

Lemma NoCardAfterHalt_snoc pre :
  "isolation" ∉ pre → NoCardAfterHalt (pre ++ ["isolation"]).
Proof.
  intros Hpre pre' post Heq Hpre'.
  destruct post as [|c post]; [done|]. exfalso.
  assert (length pre' < length pre)%nat as Hlen.
  { apply (f_equal length) in Heq. rewrite !length_app in Heq.
    simpl in Heq. lia. }
  apply Hpre. apply list_elem_of_lookup. exists (length pre').
  apply (f_equal (λ l, l !! length pre')) in Heq.
  rewrite lookup_app_l in Heq by done. rewrite Heq.
  by rewrite list_lookup_middle.
Qed.

Lemma haltRule_cases cards :
  (("isolation" ∉ cards) ∧ haltRule cards = cards) ∨
  (∃ pre post, cards = pre ++ "isolation" :: post ∧ ("isolation" ∉ pre)
               ∧ haltRule cards = pre ++ ["isolation"]).
Proof.
  destruct (decide (indexOf cards "isolation" = -1)) as [E|E].
  - left. apply indexOf_absent in E. split; [done | by apply haltRule_absent].
  - right. destruct (indexOf_found _ _ E) as (pre & post & -> & Hpre & _).
    exists pre, post. split_and!; [done..|]. by apply haltRule_first.
Qed.

Lemma haltRule_NoCardAfterHalt cards : NoCardAfterHalt (haltRule cards).
Proof.
  destruct (haltRule_cases cards) as [[Hn ->]|(pre & post & -> & Hpre & ->)].
  - by apply NoCardAfterHalt_absent.
  - by apply NoCardAfterHalt_snoc.
Qed.

(** ** Sampling from the deck *)

Section Sampling.
Context {rng : Type} `{RandomSource rng}.
Implicit Types (dm : DeckManager.t) (w : world rng).

Lemma randomInt_range lo hi w :
  lo ≤ hi → lo ≤ (Rng.randomInt lo hi w).1 ≤ hi.
Proof.
  intros Hle. unfold Rng.randomInt.
  pose proof (uniformIntDistribution_range lo hi (gen w) Hle) as Hr.
  by destruct (uniformIntDistribution lo hi (gen w)).
Qed.

Lemma randomInt_console lo hi w :
  console (Rng.randomInt lo hi w).2 = console w.
Proof.
  unfold Rng.randomInt. by destruct (uniformIntDistribution lo hi (gen w)).
Qed.

(** The index read by [drawCards] is in range, so [element] never takes
    its out-of-range arm there. *)
Lemma randomIndex_in_range arr w :
  arr ≠ [] →
  let i := (Rng.randomInt 0 (Z.of_nat (length arr) - 1) w).1 in
  0 ≤ i ∧ arr !! Z.to_nat i = Some (DeckManager.element arr i).
Proof.
  intros Hne i.
  assert (0 ≤ i ≤ Z.of_nat (length arr) - 1) as Hi.
  { apply randomInt_range. destruct arr; [done | simpl length; lia]. }
  split; [lia|]. unfold DeckManager.element.
  destruct (i <? 0) eqn:E; [apply Z.ltb_lt in E; lia|].
  destruct (lookup_lt_is_Some_2 arr (Z.to_nat i)) as [c Hc]; [lia|].
  by rewrite Hc.
Qed.

Lemma sampleOne_member arr w :
  arr ≠ [] → (sampleOne arr w).1 ∈ arr.
Proof.
  intros Hne. unfold sampleOne. rewrite bind_run, ret_run. simpl.
  destruct (randomIndex_in_range arr w Hne) as [_ Hl].
  eapply list_elem_of_lookup_2, Hl.
Qed.

Lemma sampleMany_length n arr w : length (sampleMany n arr w).1 = n.
Proof.
  revert w. induction n as [|n IH]; intros w; [done|].
  simpl. rewrite !bind_run, ret_run. simpl. by rewrite IH.
Qed.

Lemma sampleMany_members n arr w :
  arr ≠ [] → ∀ c, c ∈ (sampleMany n arr w).1 → c ∈ arr.
Proof.
  intros Hne. revert w. induction n as [|n IH]; intros w c; simpl.
  - by intros ?%elem_of_nil.
  - rewrite !bind_run, ?ret_run. simpl. intros [->|Hc]%elem_of_cons.
    + by apply sampleOne_member.
    + by eapply IH.
Qed.

(** The loop of [drawCards] appends [n] samples to [drawn]. *)
Lemma drawLoop_sampleMany n arr drawn w :
  DeckManager.drawLoop n arr drawn w
  = (drawn ++ (sampleMany n arr w).1, (sampleMany n arr w).2).
Proof.
  revert drawn w. induction n as [|n IH]; intros drawn w; simpl.
  - by rewrite !ret_run, app_nil_r.
  - unfold sampleOne. rewrite !bind_run, !ret_run. simpl.
    rewrite IH. by rewrite <- app_assoc.
Qed.

(** [drawCards(count)] on a non-empty deck is [count] samples. *)
Lemma drawCards_nonempty dm count w :
  DeckManager.deck dm ≠ [] →
  DeckManager.drawCards dm count w
  = (Some (sampleMany (Z.to_nat count) (DeckManager.deck dm) w).1,
     (sampleMany (Z.to_nat count) (DeckManager.deck dm) w).2).
Proof.
  intros Hne. unfold DeckManager.drawCards.
  destruct (_ =? 0) eqn:E.
  { apply Z.eqb_eq in E. destruct (DeckManager.deck dm); [done|].
    simpl length in E. lia. }
  rewrite bind_run, ret_run, drawLoop_sampleMany. done.
Qed.

Lemma drawCards_empty dm count w :
  DeckManager.deck dm = [] → DeckManager.drawCards dm count w = (None, w).
Proof. intros E. unfold DeckManager.drawCards. by rewrite E. Qed.

Lemma isEmpty_false dm :
  DeckManager.deck dm ≠ [] → DeckManager.isEmpty dm = false.
Proof.
  intros Hne. unfold DeckManager.isEmpty. apply Z.eqb_neq.
  destruct (DeckManager.deck dm); [done | simpl length; lia].
Qed.

Lemma isEmpty_true dm :
  DeckManager.isEmpty dm = true → DeckManager.deck dm = [].
Proof.
  unfold DeckManager.isEmpty. intros E%Z.eqb_eq.
  destruct (DeckManager.deck dm); [done | simpl length in E; lia].
Qed.
End Sampling.

(** ** The draw: [handleDrawCards] *)

Section Draw.
Context {rng : Type} `{RandomSource rng}.
Implicit Types (dm : DeckManager.t) (this : CardGame.t) (w : world rng).

Lemma drawCards_one dm w :
  DeckManager.deck dm ≠ [] →
  DeckManager.drawCards dm 1 w
  = (Some [(sampleOne (DeckManager.deck dm) w).1],
     (sampleOne (DeckManager.deck dm) w).2).
Proof.
  intros Hne. rewrite drawCards_nonempty by done.
  change (Z.to_nat 1) with 1%nat. simpl sampleMany.
  by rewrite !bind_run, !ret_run.
Qed.

(** The Mystery loop draws single cards, at most [n] of them, and stops
    early only right after an "isolation". *)
Lemma mysteryLoop_samples dm n cards w :
  DeckManager.deck dm ≠ [] → "isolation" ∉ cards →
  ∃ k, (k ≤ n)%nat ∧
    CardGame.mysteryLoop dm n cards w
    = (cards ++ (sampleMany k (DeckManager.deck dm) w).1,
       (sampleMany k (DeckManager.deck dm) w).2)
    ∧ StopsAtHalt (sampleMany k (DeckManager.deck dm) w).1 k n.
Proof.
  intros Hne. revert cards w.
  induction n as [|n IH]; intros cards w Hcards.
  - exists 0%nat. split; [lia|]. simpl. rewrite !ret_run, app_nil_r.
    split; [done|]. left. split; [apply not_elem_of_nil | done].
  - simpl CardGame.mysteryLoop. rewrite bind_run, drawCards_one by done.
    simpl.
    set (c := (sampleOne (DeckManager.deck dm) w).1).
    set (w1 := (sampleOne (DeckManager.deck dm) w).2).
    destruct (decide (c = "isolation")) as [Hc|Hc].
    + exists 1%nat. split; [lia|]. simpl sampleMany.
      rewrite !bind_run, !ret_run. simpl. fold c w1. rewrite Hc.
      rewrite indexOf_first by done.
      destruct (_ =? -1) eqn:E; [apply Z.eqb_eq in E; lia|]. simpl.
      rewrite ret_run, slice0_first. split; [done|].
      right. exists []. split; [done | apply not_elem_of_nil].
    + assert ("isolation" ∉ cards ++ [c]) as Hcards'.
      { rewrite elem_of_app, list_elem_of_singleton. intros [?|?]; auto. }
      pose proof (proj2 (indexOf_absent (cards ++ [c]) "isolation") Hcards')
        as ->. simpl.
      destruct (IH (cards ++ [c]) w1 Hcards') as (k & Hk & -> & Hstop).
      exists (S k). split; [lia|]. simpl sampleMany.
      rewrite !bind_run, !ret_run. simpl. fold c w1.
      rewrite <- app_assoc. split; [done|].
      destruct Hstop as [[Hn ->]|(pre & Hpre & Hn)].
      * left. split; [|done]. rewrite not_elem_of_cons. split; [congruence|done].
      * right. exists (c :: pre). rewrite Hpre. split; [done|].
        rewrite not_elem_of_cons. split; [congruence|done].
Qed.

(** What a draw that passes the three guards does. *)
Lemma handleDrawCards_resolved this count w :
  let dm := CardGame.deckManager this in
  let drawn := (sampleMany (Z.to_nat count) (DeckManager.deck dm) w).1 in
  let w1 := (sampleMany (Z.to_nat count) (DeckManager.deck dm) w).2 in
  DeckManager.deck dm ≠ [] → 0 < count ≤ DECK_CONFIG.MAX_DRAW →
  (("isolation" ∈ drawn) ∧
   CardGame.handleDrawCards this count w
   = (CardGame.Completed, CardGame.Make dm (haltRule drawn), w1))
  ∨
  (("isolation" ∉ drawn) ∧
   ∃ k, (k ≤ Z.to_nat (countOf drawn "mystery"))%nat ∧
     CardGame.handleDrawCards this count w
     = (CardGame.Completed,
        CardGame.Make dm
          (drawn ++ (sampleMany k (DeckManager.deck dm) w1).1),
        (sampleMany k (DeckManager.deck dm) w1).2)
     ∧ StopsAtHalt (sampleMany k (DeckManager.deck dm) w1).1 k
         (Z.to_nat (countOf drawn "mystery"))).
Proof.
  intros dm drawn w1 Hne [Hlo Hhi]. unfold CardGame.handleDrawCards.
  destruct (count <=? 0) eqn:E1; [apply Z.leb_le in E1; lia|].
  destruct (DECK_CONFIG.MAX_DRAW <? count) eqn:E2;
    [apply Z.ltb_lt in E2; lia|].
  rewrite isEmpty_false by done.
  rewrite bind_run, drawCards_nonempty by done. simpl.
  fold dm drawn w1. change (if negb (indexOf drawn "isolation" =? -1)
    then slice0 drawn (indexOf drawn "isolation" + 1) else drawn)
    with (haltRule drawn).
  destruct (decide ("isolation" ∈ drawn)) as [Hin|Hout].
  - left. split; [done|].
    destruct (haltRule_cases drawn) as [[Hn _]|(pre & post & _ & Hpre & ->)];
      [done|].
    assert (includes (pre ++ ["isolation"]) "isolation" = true) as ->.
    { apply includes_true, elem_of_app. right. by apply list_elem_of_singleton. }
    rewrite andb_false_r. by rewrite bind_run, !ret_run.
  - right. split; [done|]. rewrite haltRule_absent by done.
    pose proof (proj2 (includes_false drawn "isolation") Hout) as ->.
    rewrite andb_true_r.
    destruct (0 <? countOf drawn "mystery") eqn:E3.
    + destruct (mysteryLoop_samples dm
        (Z.to_nat (countOf drawn "mystery")) drawn w1 Hne Hout)
        as (k & Hk & Hloop & Hstop).
      exists k. split; [done|]. rewrite bind_run, Hloop, ret_run. done.
    + apply Z.ltb_ge in E3. exists 0%nat. split; [lia|].
      rewrite bind_run, !ret_run. simpl. rewrite app_nil_r. split; [done|].
      left. split; [apply not_elem_of_nil|].
      pose proof (countOf_nonneg drawn "mystery"). lia.
Qed.

(** A completed draw passed the three guards. *)
Lemma handleDrawCards_completed_guards this count w this' w' :
  CardGame.handleDrawCards this count w = (CardGame.Completed, this', w') →
  DeckManager.deck (CardGame.deckManager this) ≠ []
  ∧ 0 < count ≤ DECK_CONFIG.MAX_DRAW.
Proof.
  unfold CardGame.handleDrawCards.
  destruct (count <=? 0) eqn:E1; [by rewrite ret_run|].
  destruct (DECK_CONFIG.MAX_DRAW <? count) eqn:E2; [by rewrite ret_run|].
  destruct (DeckManager.isEmpty _) eqn:E3; [by rewrite ret_run|].
  intros _. apply Z.leb_gt in E1. apply Z.ltb_ge in E2.
  split; [|lia]. intros Hd. unfold DeckManager.isEmpty in E3.
  rewrite Hd in E3. done.
Qed.

Lemma StopsAtHalt_NoCardAfterHalt cards samples k n :
  "isolation" ∉ cards → StopsAtHalt samples k n →
  NoCardAfterHalt (cards ++ samples).
Proof.
  intros Hc [[Hn _]|(pre & -> & Hn)].
  - apply NoCardAfterHalt_absent. rewrite elem_of_app. tauto.
  - rewrite app_assoc. apply NoCardAfterHalt_snoc.
    rewrite elem_of_app. tauto.
Qed.

Lemma handleDrawCards_NoCardAfterHalt this count w this' w' :
  CardGame.handleDrawCards this count w = (CardGame.Completed, this', w') →
  NoCardAfterHalt (CardGame.drawnCards this').
Proof.
  intros Hrun.
  destruct (handleDrawCards_completed_guards _ _ _ _ _ Hrun) as [Hne Hc].
  destruct (handleDrawCards_resolved this count w Hne Hc)
    as [[_ Heq]|[Hout (k & _ & Heq & Hstop)]];
    rewrite Heq in Hrun; injection Hrun as <- _; simpl.
  - apply haltRule_NoCardAfterHalt.
  - by eapply StopsAtHalt_NoCardAfterHalt.
Qed.
End Draw.

(** ** The bonus draw: [handleMischiefDraw] *)

Lemma removeOneMischief_first pre post :
  "mischief" ∉ pre →
  removeOneMischief (pre ++ "mischief" :: post) = pre ++ post.
Proof.
  intros Hpre. unfold removeOneMischief. rewrite indexOf_first by done.
  destruct (_ =? -1) eqn:E; [apply Z.eqb_eq in E; lia|]. simpl.
  apply splice1_first.
Qed.

Lemma removeOneMischief_absent cards :
  "mischief" ∉ cards → removeOneMischief cards = cards.
Proof.
  intros Hn. unfold removeOneMischief.
  by rewrite (proj2 (indexOf_absent cards "mischief") Hn).
Qed.

Lemma removeOneMischief_subset cards c :
  c ∈ removeOneMischief cards → c ∈ cards.
Proof.
  destruct (decide (indexOf cards "mischief" = -1)) as [E|E].
  - apply indexOf_absent in E. by rewrite removeOneMischief_absent.
  - destruct (indexOf_found _ _ E) as (pre & post & -> & Hpre & _).
    rewrite removeOneMischief_first by done.
    rewrite !elem_of_app, elem_of_cons. tauto.
Qed.

Lemma haltRule_app_absent cards new :
  "isolation" ∉ cards → haltRule (cards ++ new) = cards ++ haltRule new.
Proof.
  intros Hc.
  destruct (haltRule_cases new) as [[Hn ->]|(pre & post & -> & Hpre & ->)].
  - apply haltRule_absent. rewrite elem_of_app. tauto.
  - rewrite !app_assoc. apply haltRule_first. rewrite elem_of_app. tauto.
Qed.

Lemma haltRule_idemp cards : haltRule (haltRule cards) = haltRule cards.
Proof.
  destruct (haltRule_cases cards) as [[Hn ->]|(pre & post & -> & Hpre & ->)].
  - by apply haltRule_absent.
  - by apply haltRule_first.
Qed.

Section Mischief.
Context {rng : Type} `{RandomSource rng}.
Implicit Types (dm : DeckManager.t) (this : CardGame.t) (w : world rng).

Lemma drawCards_two dm w :
  DeckManager.deck dm ≠ [] →
  let c1 := (sampleOne (DeckManager.deck dm) w).1 in
  let w1 := (sampleOne (DeckManager.deck dm) w).2 in
  let c2 := (sampleOne (DeckManager.deck dm) w1).1 in
  let w2 := (sampleOne (DeckManager.deck dm) w1).2 in
  DeckManager.drawCards dm 2 w = (Some [c1; c2], w2).
Proof.
  intros Hne. cbv zeta. rewrite drawCards_nonempty by done.
  change (Z.to_nat 2) with 2%nat. simpl sampleMany.
  by rewrite !bind_run, !ret_run.
Qed.

(** The guard: with "isolation" among the drawn cards nothing happens. *)
Lemma handleMischiefDraw_guard this w :
  "isolation" ∈ CardGame.drawnCards this →
  CardGame.handleMischiefDraw this w
  = (CardGame.Returned CardGame.IsolationAlreadyDrawn, this, w).
Proof.
  intros Hin. unfold CardGame.handleMischiefDraw.
  by rewrite (proj2 (includes_true _ _) Hin).
Qed.

(** The trimming of the two new cards is the halt rule on them. *)
Lemma trim_new_cards (c1 c2 : card) :
  (if (0 <? Z.of_nat (length [c1; c2]))
      && bool_decide (DeckManager.element [c1; c2] 0 = "isolation")
   then [DeckManager.element [c1; c2] 0]
   else if (1 <? Z.of_nat (length [c1; c2]))
      && bool_decide (DeckManager.element [c1; c2] 1 = "isolation")
   then slice0 [c1; c2] 2
   else [c1; c2])
  = haltRule [c1; c2].
Proof.
  change (DeckManager.element [c1; c2] 0) with c1.
  change (DeckManager.element [c1; c2] 1) with c2.
  change (slice0 [c1; c2] 2) with [c1; c2]. simpl length.
  change (0 <? Z.of_nat 2) with true. change (1 <? Z.of_nat 2) with true.
  simpl andb.
  destruct (decide (c1 = "isolation")) as [->|H1].
  - by rewrite bool_decide_eq_true_2.
  - rewrite (bool_decide_eq_false_2 _ H1).
    destruct (decide (c2 = "isolation")) as [->|H2].
    + rewrite bool_decide_eq_true_2 by done. symmetry.
      apply (haltRule_first [c1] []).
      by rewrite list_elem_of_singleton.
    + rewrite (bool_decide_eq_false_2 _ H2). symmetry.
      apply haltRule_absent. rewrite !not_elem_of_cons.
      split_and!; [congruence | congruence | apply not_elem_of_nil].
Qed.

(** What a bonus draw that passes the guard does on a non-empty deck. *)
Lemma handleMischiefDraw_resolved this w :
  let dm := CardGame.deckManager this in
  let c1 := (sampleOne (DeckManager.deck dm) w).1 in
  let w1 := (sampleOne (DeckManager.deck dm) w).2 in
  let c2 := (sampleOne (DeckManager.deck dm) w1).1 in
  let w2 := (sampleOne (DeckManager.deck dm) w1).2 in
  "isolation" ∉ CardGame.drawnCards this → DeckManager.deck dm ≠ [] →
  CardGame.handleMischiefDraw this w
  = (CardGame.Completed,
     CardGame.Make dm
       (haltRule (removeOneMischief (CardGame.drawnCards this)
                  ++ haltRule [c1; c2])),
     w2).
Proof.
  intros dm c1 w1 c2 w2 Hout Hne. unfold CardGame.handleMischiefDraw.
  rewrite (proj2 (includes_false _ _) Hout).
  rewrite bind_run, (drawCards_two (CardGame.deckManager this) w Hne).
  cbn [fst snd]. fold dm c1 w1 c2 w2. cbv zeta.
  rewrite trim_new_cards. by rewrite ret_run.
Qed.

Lemma handleMischiefDraw_empty_deck this w :
  "isolation" ∉ CardGame.drawnCards this →
  DeckManager.deck (CardGame.deckManager this) = [] →
  CardGame.handleMischiefDraw this w = (CardGame.Threw "TypeError", this, w).
Proof.
  intros Hout Hd. unfold CardGame.handleMischiefDraw.
  rewrite (proj2 (includes_false _ _) Hout).
  by rewrite bind_run, drawCards_empty.
Qed.

Lemma handleMischiefDraw_NoCardAfterHalt this w this' w' :
  CardGame.handleMischiefDraw this w = (CardGame.Completed, this', w') →
  NoCardAfterHalt (CardGame.drawnCards this').
Proof.
  intros Hrun.
  destruct (decide ("isolation" ∈ CardGame.drawnCards this)) as [Hin|Hout].
  { by rewrite handleMischiefDraw_guard in Hrun. }
  destruct (decide (DeckManager.deck (CardGame.deckManager this) = []))
    as [Hd|Hne].
  { by rewrite handleMischiefDraw_empty_deck in Hrun. }
  rewrite handleMischiefDraw_resolved in Hrun by done.
  injection Hrun as <- _. simpl. apply haltRule_NoCardAfterHalt.
Qed.
(** A bonus draw that does not complete changes nothing. *)
Lemma handleMischiefDraw_unchanged this w :
  (CardGame.handleMischiefDraw this w).1.1 ≠ CardGame.Completed →
  (CardGame.handleMischiefDraw this w).1.2 = this.
Proof.
  destruct (decide ("isolation" ∈ CardGame.drawnCards this)) as [Hin|Hout].
  { by rewrite handleMischiefDraw_guard. }
  destruct (decide (DeckManager.deck (CardGame.deckManager this) = []))
    as [Hd|Hne].
  { by rewrite handleMischiefDraw_empty_deck. }
  by rewrite handleMischiefDraw_resolved.
Qed.

(** A draw that does not complete changes nothing. *)
Lemma handleDrawCards_unchanged this count w :
  (CardGame.handleDrawCards this count w).1.1 ≠ CardGame.Completed →
  (CardGame.handleDrawCards this count w).1.2 = this.
Proof.
  destruct (decide (0 < count ≤ DECK_CONFIG.MAX_DRAW)) as [Hc|Hc];
    [destruct (decide (DeckManager.deck (CardGame.deckManager this) = []))
       as [Hd|Hne]|].
  - unfold CardGame.handleDrawCards, DeckManager.isEmpty. rewrite Hd.
    by destruct (count <=? 0), (DECK_CONFIG.MAX_DRAW <? count).
  - destruct (handleDrawCards_resolved this count w Hne Hc)
      as [[_ ->]|[_ (k & _ & -> & _)]]; done.
  - unfold CardGame.handleDrawCards.
    destruct (count <=? 0) eqn:E1; [done|].
    destruct (DECK_CONFIG.MAX_DRAW <? count) eqn:E2; [done|].
    apply Z.leb_gt in E1. apply Z.ltb_ge in E2. lia.
Qed.

(** X11.  In every game reached from a new one, whatever the handlers were
    asked and however they ended, nothing follows the first "isolation". *)
Theorem reachable_NoCardAfterHalt this w :
  reachable this w → NoCardAfterHalt (CardGame.drawnCards this).
Proof.
  induction 1 as [w|this w count _ IH|this w _ IH|this w size cards _ _].
  - unfold CardGame.new. rewrite bind_run, ret_run. simpl.
    apply NoCardAfterHalt_absent, not_elem_of_nil.
  - destruct (CardGame.handleDrawCards this count w) as [[c this'] w'] eqn:E.
    simpl. pose proof (handleDrawCards_unchanged this count w) as Hu.
    rewrite E in Hu. simpl in Hu.
    destruct c; [by eapply handleDrawCards_NoCardAfterHalt|..];
      by rewrite Hu.
  - destruct (CardGame.handleMischiefDraw this w) as [[c this'] w'] eqn:E.
    simpl. pose proof (handleMischiefDraw_unchanged this w) as Hu.
    rewrite E in Hu. simpl in Hu.
    destruct c; [by eapply handleMischiefDraw_NoCardAfterHalt|..];
      by rewrite Hu.
  - unfold CardGame.handleDeckSizeChange. rewrite bind_run, ret_run. simpl.
    apply NoCardAfterHalt_absent, not_elem_of_nil.
Qed.
End Mischief.

(** ** Claims about the draw and the bonus draw *)

Section DrawClaims.
Context {rng : Type} `{RandomSource rng}.
Implicit Types (this : CardGame.t) (w : world rng).

(** C1.  Every outcome produced by a completed draw ([handleDrawCards]) or
    a completed bonus draw ([handleMischiefDraw]) obeys the halt rule: if
    "isolation" occurs in it, nothing follows its first occurrence. *)
Theorem halt_card_ends_outcome :
  (∀ this count w this' w',
     CardGame.handleDrawCards this count w = (CardGame.Completed, this', w') →
     NoCardAfterHalt (CardGame.drawnCards this'))
  ∧
  (∀ this w this' w',
     CardGame.handleMischiefDraw this w = (CardGame.Completed, this', w') →
     NoCardAfterHalt (CardGame.drawnCards this')).
Proof.
  split.
  - intros this count w this' w'. apply handleDrawCards_NoCardAfterHalt.
  - intros this w this' w'. apply handleMischiefDraw_NoCardAfterHalt.
Qed.

(** C2.  When the [count] cards drawn first hold no "isolation", the draw
    appends [k] further single samples, where [k] is at most the number of
    "mystery" cards among the cards drawn first, whatever
    [DECK_CONFIG.MAX_DRAW] is: [k] equals that number when no "isolation"
    comes up, and otherwise the samples stop with the first "isolation".
    Mystery cards among the appended samples draw nothing further. *)
Theorem mystery_extends_draw this count w drawn w1 :
  let dm := CardGame.deckManager this in
  let mysteryCount := Z.to_nat (countOf drawn "mystery") in
  0 < count ≤ DECK_CONFIG.MAX_DRAW →
  DeckManager.drawCards dm count w = (Some drawn, w1) →
  "isolation" ∉ drawn →
  ∃ k, (k ≤ mysteryCount)%nat ∧
    let extra := (sampleMany k (DeckManager.deck dm) w1).1 in
    let w2 := (sampleMany k (DeckManager.deck dm) w1).2 in
    CardGame.handleDrawCards this count w
    = (CardGame.Completed, CardGame.Make dm (drawn ++ extra), w2)
    ∧ length drawn = Z.to_nat count
    ∧ length extra = k
    ∧ ((("isolation" ∉ extra) ∧ k = mysteryCount)
       ∨ (∃ pre, extra = pre ++ ["isolation"] ∧ ("isolation" ∉ pre))).
Proof.
  intros dm mysteryCount Hcount Hdraw Hout.
  assert (DeckManager.deck dm ≠ []) as Hne.
  { intros Hd. by rewrite (drawCards_empty dm count w Hd) in Hdraw. }
  rewrite drawCards_nonempty in Hdraw by done.
  injection Hdraw as Hdrawn Hw1.
  destruct (handleDrawCards_resolved this count w Hne Hcount)
    as [[Hin _]|[_ (k & Hk & Heq & Hstop)]].
  { fold dm in Hin. rewrite Hdrawn in Hin. done. }
  fold dm in Hk, Heq, Hstop. rewrite Hdrawn, Hw1 in *.
  exists k. split; [done|]. cbv zeta. split_and!; [done | | | done].
  - by rewrite <- Hdrawn, sampleMany_length.
  - apply sampleMany_length.
Qed.

(** C3, as the code has it.  On a non-empty deck without "isolation" and
    without "mystery", a draw of [n >= 1] cards completes with exactly [n]
    cards when [n <= MAX_DRAW]; above [MAX_DRAW] it returns at its second
    guard and nothing changes. *)
Theorem draw_length_without_special_cards this n w :
  let dm := CardGame.deckManager this in
  DeckManager.deck dm ≠ [] →
  "isolation" ∉ DeckManager.deck dm →
  "mystery" ∉ DeckManager.deck dm →
  1 ≤ n →
  (n ≤ DECK_CONFIG.MAX_DRAW →
   ∃ this' w',
     CardGame.handleDrawCards this n w = (CardGame.Completed, this', w')
     ∧ Z.of_nat (length (CardGame.drawnCards this')) = n)
  ∧ (DECK_CONFIG.MAX_DRAW < n →
     CardGame.handleDrawCards this n w
     = (CardGame.Returned CardGame.CountAboveMaxDraw, this, w)).
Proof.
  intros dm Hne Hiso Hmys Hn. split.
  - intros Hmax.
    assert (0 < n ≤ DECK_CONFIG.MAX_DRAW) as Hn' by lia.
    pose proof (sampleMany_members (Z.to_nat n) (DeckManager.deck dm) w Hne)
      as Hmem.
    destruct (handleDrawCards_resolved this n w Hne Hn')
      as [[Hin _]|[_ (k & Hk & Heq & _)]].
    { fold dm in Hin. apply Hmem in Hin. done. }
    fold dm in Hk, Heq. rewrite countOf_absent in Hk.
    2:{ intros Hin. apply Hmem in Hin. done. }
    assert (k = 0%nat) as -> by (change (Z.to_nat 0) with 0%nat in Hk; lia).
    eexists _, _. split; [exact Heq|]. simpl.
    rewrite app_nil_r, sampleMany_length. lia.
  - intros Hmax. unfold CardGame.handleDrawCards.
    destruct (n <=? 0) eqn:E1; [apply Z.leb_le in E1; lia|].
    by rewrite (proj2 (Z.ltb_lt _ _) Hmax).
Qed.


(** C5, as the code has it.  Without "isolation" among the drawn cards
    (and with cards in the deck), [handleMischiefDraw] always takes
    exactly two samples [c1], [c2] from the deck, by one call of
    [drawCards(2)]: the second card is drawn also when [c1] is
    "isolation", and the generator is left behind the second sample
    ([w2]) in either case.  If [c1] is "isolation" the second card is
    discarded and only [c1] is appended; otherwise both are appended and
    the halt rule is applied to the whole updated array.  (The array they
    are appended to is the drawn cards without their first "mischief".) *)
Theorem bonus_draw_takes_two_cards this w :
  let dm := CardGame.deckManager this in
  let c1 := (sampleOne (DeckManager.deck dm) w).1 in
  let w1 := (sampleOne (DeckManager.deck dm) w).2 in
  let c2 := (sampleOne (DeckManager.deck dm) w1).1 in
  let w2 := (sampleOne (DeckManager.deck dm) w1).2 in
  let kept := removeOneMischief (CardGame.drawnCards this) in
  "isolation" ∉ CardGame.drawnCards this → DeckManager.deck dm ≠ [] →
  DeckManager.drawCards dm 2 w = (Some [c1; c2], w2)
  ∧ CardGame.handleMischiefDraw this w
    = (CardGame.Completed,
       CardGame.Make dm
         (if decide (c1 = "isolation") then kept ++ [c1]
          else haltRule (kept ++ [c1; c2])),
       w2).
Proof.
  intros dm c1 w1 c2 w2 kept Hout Hne. split; [by apply drawCards_two|].
  rewrite handleMischiefDraw_resolved by done. fold dm c1 w1 c2 w2 kept.
  assert ("isolation" ∉ kept) as Hkept.
  { intros Hin. by apply removeOneMischief_subset in Hin. }
  do 2 f_equal. f_equal. case_decide as Hc1.
  - replace (haltRule [c1; c2]) with [c1].
    2:{ rewrite Hc1. symmetry. apply (haltRule_first [] [c2]).
        apply not_elem_of_nil. }
    rewrite Hc1. by apply (haltRule_first kept []).
  - by rewrite !haltRule_app_absent, haltRule_idemp.
Qed.

(** C10.  A bonus draw that passes its guard, on drawn cards holding
    [k >= 1] "mischief", removes the first "mischief" before it appends
    the new cards: the outcome is the old cards without that occurrence,
    followed by the new cards that survive the halt rule, and it holds
    [k - 1] of the old "mischief" plus those among the surviving new
    cards. *)
Theorem bonus_draw_removes_one_mischief this w k :
  let dm := CardGame.deckManager this in
  let c1 := (sampleOne (DeckManager.deck dm) w).1 in
  let w1 := (sampleOne (DeckManager.deck dm) w).2 in
  let c2 := (sampleOne (DeckManager.deck dm) w1).1 in
  let w2 := (sampleOne (DeckManager.deck dm) w1).2 in
  let surviving := haltRule [c1; c2] in
  "isolation" ∉ CardGame.drawnCards this → DeckManager.deck dm ≠ [] →
  countOf (CardGame.drawnCards this) "mischief" = k → 1 ≤ k →
  ∃ pre post,
    CardGame.drawnCards this = pre ++ "mischief" :: post
    ∧ ("mischief" ∉ pre)
    ∧ CardGame.handleMischiefDraw this w
      = (CardGame.Completed,
         CardGame.Make dm ((pre ++ post) ++ surviving), w2)
    ∧ countOf (pre ++ post) "mischief" = k - 1
    ∧ countOf ((pre ++ post) ++ surviving) "mischief"
      = (k - 1) + countOf surviving "mischief".
Proof.
  intros dm c1 w1 c2 w2 surviving Hout Hne Hk Hpos.
  assert (indexOf (CardGame.drawnCards this) "mischief" ≠ -1) as Hidx.
  { intros E%indexOf_absent. rewrite countOf_absent in Hk by done. lia. }
  destruct (indexOf_found _ _ Hidx) as (pre & post & Hsplit & Hpre & _).
  exists pre, post. split_and!; [done | done | | |].
  - rewrite handleMischiefDraw_resolved by done. fold dm c1 w1 c2 w2.
    rewrite Hsplit, removeOneMischief_first by done.
    rewrite haltRule_app_absent, haltRule_idemp; [done|].
    rewrite Hsplit in Hout. revert Hout.
    rewrite !elem_of_app, elem_of_cons. tauto.
  - rewrite Hsplit in Hk. rewrite countOf_app in *.
    rewrite countOf_cons, decide_True in Hk by done. lia.
  - rewrite Hsplit in Hk. rewrite !countOf_app in *.
    rewrite countOf_cons, decide_True in Hk by done. lia.
Qed.
End DrawClaims.

(** ** The deck: [createDeck] and [shuffleDeck] *)

Section Deck.
Context {rng : Type} `{RandomSource rng}.
Implicit Types (this : DeckManager.t) (w : world rng) (arr : list card).

Lemma element_lookup arr (i : Z) :
  0 ≤ i < Z.of_nat (length arr) →
  arr !! Z.to_nat i = Some (DeckManager.element arr i).
Proof.
  intros Hi. unfold DeckManager.element.
  destruct (i <? 0) eqn:E; [apply Z.ltb_lt in E; lia|].
  destruct (lookup_lt_is_Some_2 arr (Z.to_nat i)) as [c Hc]; [lia|].
  by rewrite Hc.
Qed.

(** Within the array, the destructuring swap exchanges two elements. *)
Lemma swap_Permutation arr (i j : Z) :
  0 ≤ i < Z.of_nat (length arr) → 0 ≤ j < Z.of_nat (length arr) →
  DeckManager.swap arr i j ≡ₚ arr.
Proof.
  intros Hi Hj. unfold DeckManager.swap.
  apply Permutation_insert_swap; by apply element_lookup.
Qed.

Lemma swap_length arr (i j : Z) :
  length (DeckManager.swap arr i j) = length arr.
Proof. unfold DeckManager.swap. by rewrite !length_insert. Qed.

(** Every index the shuffle uses is inside the array, and the shuffle
    rearranges the array. *)
Lemma shuffleLoop_Permutation (i : nat) arr w :
  (i < length arr)%nat ∨ i = 0%nat →
  (DeckManager.shuffleLoop i arr w).1 ≡ₚ arr.
Proof.
  revert arr w. induction i as [|i IH]; intros arr w Hi; [done|].
  destruct Hi as [Hi|Hi]; [|done].
  simpl DeckManager.shuffleLoop. rewrite bind_run.
  pose proof (randomInt_range 0 (Z.of_nat (S i)) w ltac:(lia)) as Hj.
  set (j := (Rng.randomInt 0 (Z.of_nat (S i)) w).1) in *.
  rewrite IH.
  - apply swap_Permutation; lia.
  - rewrite swap_length. left. lia.
Qed.

Lemma shuffleDeck_Permutation this w :
  DeckManager.deck (DeckManager.shuffleDeck this w).1
  ≡ₚ DeckManager.deck this.
Proof.
  unfold DeckManager.shuffleDeck. rewrite bind_run, ret_run. simpl.
  apply shuffleLoop_Permutation.
  destruct (DeckManager.deck this); [by right | left; simpl; lia].
Qed.

Lemma shuffleDeck_deckSize this w :
  DeckManager.deckSize (DeckManager.shuffleDeck this w).1
  = DeckManager.deckSize this.
Proof. unfold DeckManager.shuffleDeck. by rewrite bind_run, ret_run. Qed.

(** C6, as the code has it.  [createDeck] checks nothing and never
    refuses: whatever is requested, the deck is replaced by the chosen
    card set in some order.  For a custom request the chosen card set is
    the member list as given (empty when the list is missing or empty),
    whether or not its members are in the vocabulary. *)
Theorem createDeck_replaces_deck this size customCards w :
  DeckManager.deck (DeckManager.createDeck this size customCards w).1
  ≡ₚ chosenCardSet this size customCards.
Proof.
  unfold DeckManager.createDeck, chosenCardSet.
  destruct size as [|n|].
  - rewrite shuffleDeck_Permutation. done.
  - rewrite shuffleDeck_Permutation. done.
  - rewrite shuffleDeck_Permutation. simpl.
    by destruct customCards as [[|c cards]|].
Qed.
End Deck.

(** ** Effects: [CardEffects.calculateEffects] *)

Section TallyFacts.
Import Tally.
Context {K : Type} `{EqDecision K}.
Implicit Types (m : list (K * Z)) (k : K) (P : K → bool).

Lemma sumIf_Map_set_incr P m k :
  sumIf P (Map_set m k (default 0 (Map_get m k) + 1))
  = sumIf P m + (if P k then 1 else 0).
Proof.
  induction m as [|[k' v'] m IH]; simpl.
  - destruct (P k); lia.
  - case_decide as Hk; simpl.
    + subst. destruct (P k); lia.
    + rewrite IH. lia.
Qed.

Lemma positive_Map_set_incr m k :
  Forall (λ kv, 0 < kv.2) m →
  Forall (λ kv, 0 < kv.2) (Map_set m k (default 0 (Map_get m k) + 1)).
Proof.
  induction m as [|[k' v'] m IH]; simpl; intros Hm.
  - constructor; [simpl; lia | done].
  - apply Forall_cons in Hm as [Hv Hm]. simpl in Hv.
    case_decide; simpl; constructor; simpl; auto; lia.
Qed.

Lemma sumIf_tallyFrom P l m :
  sumIf P (tallyFrom m l)
  = sumIf P m + Z.of_nat (length (filter (λ x, P x = true) l)).
Proof.
  revert m. induction l as [|x l IH]; intros m; simpl.
  - lia.
  - unfold tallyFrom in *. rewrite IH, sumIf_Map_set_incr, filter_cons.
    destruct (P x).
    + rewrite decide_True by done. simpl length. lia.
    + rewrite decide_False by done. lia.
Qed.

Lemma positive_tallyFrom l m :
  Forall (λ kv, 0 < kv.2) m → Forall (λ kv, 0 < kv.2) (tallyFrom m l).
Proof.
  revert m. induction l as [|x l IH]; intros m Hm; simpl; [done|].
  apply IH. by apply positive_Map_set_incr.
Qed.
End TallyFacts.

Section EffectFacts.
Import Tally.
Implicit Types (cardName : card) (count : Z).

Lemma append_nonempty_l (s t : string) : s ≠ "" → s +:+ t ≠ "".
Proof. by destruct s. Qed.

Lemma append_nonempty_r (s t : string) : t ≠ "" → s +:+ t ≠ "".
Proof. by destruct s, t. Qed.

Lemma truthy_Text (s : string) :
  s ≠ "" → CardEffects.truthy (Some (CardEffects.Text s)) = true.
Proof. by destruct s. Qed.

(** Close a goal that a text built by appending is not empty. *)
Ltac nonempty :=
  first [ apply append_nonempty_l; discriminate
        | apply append_nonempty_r; nonempty
        | discriminate ].

(** [getEffect] yields an effect, and a truthy one, exactly for the cards
    of the rule table (given a count other than 0). *)
Lemma getEffect_truthy cardName count :
  count ≠ 0 →
  CardEffects.truthy (CardEffects.getEffect cardName count)
  = hasRule cardName.
Proof.
  intros Hc. unfold CardEffects.getEffect.
  rewrite (proj2 (Z.eqb_neq count 0) Hc).
  repeat (case_decide;
          [ subst cardName; transitivity true;
            [ first [ reflexivity | apply truthy_Text; nonempty ]
            | reflexivity ]
          | ]).
  symmetry. apply bool_decide_eq_false_2. unfold ruleTable. intros Hin.
  repeat (apply elem_of_cons in Hin as [Hin|Hin]; [congruence|]).
  by apply elem_of_nil in Hin.
Qed.

Lemma getEffect_None cardName count :
  count ≠ 0 →
  (CardEffects.getEffect cardName count = None ↔ hasRule cardName = false).
Proof.
  intros Hc. rewrite <- (getEffect_truthy cardName count Hc).
  destruct (CardEffects.getEffect cardName count) as [e|] eqn:E;
    [|done].
  split; [done|]. intros Ht. exfalso. revert E Ht.
  unfold CardEffects.getEffect.
  rewrite (proj2 (Z.eqb_neq count 0) Hc).
  repeat (case_decide;
          [ intros [= <-];
            first [ discriminate
                  | rewrite truthy_Text by nonempty; discriminate ]
          | ]).
  done.
Qed.

(** One pass of the loop of [calculateEffects] adds each tally with a
    rule to exactly one of the two arrays. *)
Lemma effectsLoop_counts entries regular curses :
  Forall (λ kv, 0 < kv.2) entries →
  sumCounts (CardEffects.effectsLoop entries regular curses).1
  + sumCounts (CardEffects.effectsLoop entries regular curses).2
  = sumCounts regular + sumCounts curses + sumIf hasRule entries.
Proof.
  revert regular curses.
  induction entries as [|[cardName count] entries IH];
    intros regular curses Hpos; [simpl; lia|].
  apply Forall_cons in Hpos as [Hc Hpos]. simpl in Hc.
  change (sumIf hasRule ((cardName, count) :: entries))
    with ((if hasRule cardName then count else 0) + sumIf hasRule entries).
  rewrite <- (getEffect_truthy cardName count) by lia.
  assert (∀ records r,
    sumCounts (records ++ [r]) = sumCounts records + CardEffects.rcount r)
    as Hsnoc.
  { intros records r. unfold sumCounts. rewrite foldr_app. simpl.
    induction records as [|r' records IHr]; simpl; lia. }
  cbn [CardEffects.effectsLoop].
  destruct (CardEffects.getEffect cardName count) as [e|].
  - destruct (CardEffects.truthy (Some e)) eqn:Ht.
    + destruct e; rewrite IH by done; rewrite Hsnoc; simpl; lia.
    + rewrite IH by done. lia.
  - change (CardEffects.truthy None) with false. cbv iota.
    rewrite IH by done. lia.
Qed.

(** The loop only writes records for cards of the rule table. *)
Lemma effectsLoop_cards entries regular curses :
  Forall (λ kv, 0 < kv.2) entries →
  Forall (λ r, hasRule (CardEffects.rcard r) = true) regular →
  Forall (λ r, hasRule (CardEffects.rcard r) = true) curses →
  Forall (λ r, hasRule (CardEffects.rcard r) = true)
    (CardEffects.effectsLoop entries regular curses).1
  ∧ Forall (λ r, hasRule (CardEffects.rcard r) = true)
      (CardEffects.effectsLoop entries regular curses).2.
Proof.
  revert regular curses.
  induction entries as [|[cardName count] entries IH];
    intros regular curses Hpos Hr Hc; [done|].
  apply Forall_cons in Hpos as [Hcount Hpos]. simpl in Hcount.
  cbn [CardEffects.effectsLoop].
  pose proof (getEffect_truthy cardName count ltac:(lia)) as Ht.
  destruct (CardEffects.getEffect cardName count) as [e|].
  - destruct (CardEffects.truthy (Some e)); [|by apply IH].
    destruct e; apply IH; try done; apply Forall_app; split; try done;
      by constructor.
  - change (CardEffects.truthy None) with false. cbv iota. by apply IH.
Qed.

Lemma countCards_tallyFrom drawnCards :
  CardEffects.countCards drawnCards = tallyFrom [] drawnCards.
Proof. done. Qed.
End EffectFacts.

(** C7.  The tally invariant of [calculateEffects]: the counts of the
    records in [regular] and [curses], plus the number of drawn cards
    without an entry in the rule table, add up to the number of drawn
    cards; and a record is only written for a card of the rule table.  (It
    holds for the empty array as well.) *)
Theorem calculateEffects_tally (drawnCards : list card) :
  let '(regular, curses) := CardEffects.calculateEffects drawnCards in
  Tally.sumCounts regular + Tally.sumCounts curses + Tally.unmapped drawnCards
  = Z.of_nat (length drawnCards)
  ∧ Forall (λ r, Tally.hasRule (CardEffects.rcard r) = true)
      (regular ++ curses).
Proof.
  unfold CardEffects.calculateEffects.
  destruct (Z.of_nat (length drawnCards) =? 0) eqn:E.
  { apply Z.eqb_eq in E. destruct drawnCards; [done | simpl length in E; lia]. }
  assert (Forall (λ kv : string * Z, 0 < kv.2)
            (CardEffects.countCards drawnCards)) as Hpos.
  { rewrite countCards_tallyFrom. by apply positive_tallyFrom. }
  pose proof (effectsLoop_counts (CardEffects.countCards drawnCards) [] [] Hpos)
    as Hloop.
  pose proof (effectsLoop_cards (CardEffects.countCards drawnCards) [] [] Hpos
                (Forall_nil_2 _) (Forall_nil_2 _)) as [Hreg Hcur].
  destruct (CardEffects.effectsLoop _ [] []) as [regular curses].
  simpl in Hloop, Hreg, Hcur. split; [|by apply Forall_app].
  rewrite Hloop, countCards_tallyFrom, sumIf_tallyFrom. simpl.
  unfold Tally.unmapped.
  clear. induction drawnCards as [|c l IH]; [done|].
  rewrite !filter_cons. simpl length.
  destruct (Tally.hasRule c) eqn:Hc.
  - rewrite decide_True, decide_False by done. simpl length. lia.
  - rewrite decide_False, decide_True by done. simpl length. lia.
Qed.

(** ** Dice text: the regular expressions of [diceRoller.js] *)

Module DiceFacts.
Import DiceRoller DiceText.

Lemma app_cons c (s t : string) : String c s +:+ t = String c (s +:+ t).
Proof. done. Qed.

Lemma app_empty_l (t : string) : "" +:+ t = t.
Proof. done. Qed.

Lemma app_length (s t : string) :
  String.length (s +:+ t) = (String.length s + String.length t)%nat.
Proof.
  induction s as [|c s IH]; [done|]. rewrite app_cons. simpl. by f_equal.
Qed.

Lemma app_assoc (s t u : string) : (s +:+ t) +:+ u = s +:+ t +:+ u.
Proof.
  induction s as [|c s IH]; [done|]. rewrite !app_cons. by f_equal.
Qed.

Lemma app_empty_r (s : string) : s +:+ "" = s.
Proof.
  induction s as [|c s IH]; [done|]. rewrite app_cons. by f_equal.
Qed.

Lemma spanDigits_split s :
  s = (spanDigits s).1 +:+ (spanDigits s).2
  ∧ allDigits (spanDigits s).1 = true
  ∧ startsNonDigit (spanDigits s).2 = true.
Proof.
  induction s as [|c s IH]; simpl; [done|].
  destruct (isDigit c) eqn:Hc.
  - destruct (spanDigits s) as [digits after]. simpl in *.
    destruct IH as (IH1 & IH2 & IH3). rewrite Hc, app_cons.
    split_and!; [by rewrite <- IH1 | done | done].
  - simpl. by rewrite Hc.
Qed.

Lemma spanDigits_app digits after :
  allDigits digits = true → startsNonDigit after = true →
  spanDigits (digits +:+ after) = (digits, after).
Proof.
  intros Hd Ha. induction digits as [|c digits IH].
  - rewrite app_empty_l. destruct after as [|c after]; [done|].
    simpl in *. apply negb_true_iff in Ha. by rewrite Ha.
  - simpl in Hd. apply andb_true_iff in Hd as [Hc Hd].
    rewrite app_cons. simpl. by rewrite Hc, IH.
Qed.

Lemma stripPrefix_split p s after :
  stripPrefix p s = Some after → s = p +:+ after.
Proof.
  revert s. induction p as [|a p IH]; intros s; simpl.
  - by intros [= ->].
  - destruct s as [|b s]; [done|].
    destruct (Ascii.eqb a b) eqn:E; [|done].
    apply Ascii.eqb_eq in E as ->. intros Hs.
    by rewrite app_cons, (IH s Hs).
Qed.

Lemma stripPrefix_app p after : stripPrefix p (p +:+ after) = Some after.
Proof.
  induction p as [|a p IH]; [done|].
  rewrite app_cons. simpl. by rewrite Ascii.eqb_refl.
Qed.

(** A successful match splits the text into a dice token and the rest,
    and the token is followed by a word boundary. *)
Lemma matchAt_split text token after :
  matchAt text = Some (token, after) →
  text = token +:+ after
  ∧ boundaryAfterWord after = true
  ∧ ∃ g1 g2 kh, token = diceToken g1 g2 kh
      ∧ allDigits g1 = true ∧ g1 ≠ ""
      ∧ allDigits g2 = true ∧ g2 ≠ "".
Proof.
  unfold matchAt.
  destruct (spanDigits_split text) as (Ht & Hg1 & _).
  destruct (spanDigits text) as [g1 after1]. simpl in Ht, Hg1.
  destruct g1 as [|c1 g1']; [done|]. set (g1 := String c1 g1') in *.
  destruct (stripPrefix "d" after1) as [after_d|] eqn:Hd; [|done].
  apply stripPrefix_split in Hd.
  destruct (spanDigits_split after_d) as (Ht2 & Hg2 & _).
  destruct (spanDigits after_d) as [g2 after2]. simpl in Ht2, Hg2.
  destruct g2 as [|c2 g2']; [done|]. set (g2 := String c2 g2') in *.
  destruct (stripPrefix "kh1" after2) as [after_kh1|] eqn:Hk.
  - apply stripPrefix_split in Hk.
    destruct (boundaryAfterWord after_kh1) eqn:Hb; [|done].
    intros [= <- <-]. split_and!; [|done|].
    + rewrite Ht, Hd, Ht2, Hk. by rewrite !app_assoc.
    + exists g1, g2, true. by split_and!.
  - destruct (boundaryAfterWord after2) eqn:Hb; [|done].
    intros [= <- <-]. split_and!; [|done|].
    + rewrite Ht, Hd, Ht2. by rewrite !app_assoc.
    + exists g1, g2, false. unfold diceToken. rewrite app_empty_r.
      by split_and!.
Qed.

Lemma matchAt_shorter text token after :
  matchAt text = Some (token, after) →
  (String.length after < String.length text)%nat.
Proof.
  intros Hm. destruct (matchAt_split _ _ _ Hm)
    as (-> & _ & g1 & g2 & kh & -> & _ & Hg1 & _).
  rewrite app_length. unfold diceToken. rewrite app_length.
  destruct g1; [done | simpl; lia].
Qed.

(** A text that starts with a non-digit has no match at its start. *)
Lemma matchAt_non_digit c rest :
  isDigit c = false → matchAt (String c rest) = None.
Proof. intros Hc. unfold matchAt. simpl. by rewrite Hc. Qed.
End DiceFacts.

(** ** Dice text: rolling and replacing *)

Section RollFacts.
Import DiceRoller DiceText DiceFacts.
Context {rng : Type} `{RandomSource rng}.
Implicit Types (w : world rng) (text token after : string).

Lemma rollMany_length n sides w : length (rollMany n sides w).1 = n.
Proof.
  revert w. induction n as [|n IH]; intros w; [done|].
  simpl. rewrite !bind_run, ?ret_run. simpl. by rewrite IH.
Qed.

Lemma rollMany_range n sides w :
  1 ≤ sides → Forall (λ r, 1 ≤ r ≤ sides) (rollMany n sides w).1.
Proof.
  intros Hs. revert w. induction n as [|n IH]; intros w; simpl.
  - constructor.
  - rewrite !bind_run, ?ret_run. simpl. constructor; [|apply IH].
    by apply randomInt_range.
Qed.

Lemma maxLoop_rollMany n sides max w :
  maxLoop n sides max w
  = (fold_left Z.max (rollMany n sides w).1 max, (rollMany n sides w).2).
Proof.
  revert max w. induction n as [|n IH]; intros max w; simpl; [done|].
  rewrite !bind_run, ?ret_run. simpl. by rewrite IH.
Qed.

Lemma sumLoop_rollMany n sides acc w :
  sumLoop n sides acc w
  = (fold_left Z.add (rollMany n sides w).1 acc, (rollMany n sides w).2).
Proof.
  revert acc w. induction n as [|n IH]; intros acc w; simpl; [done|].
  rewrite !bind_run, ?ret_run. simpl. by rewrite IH.
Qed.

(** An expression that does not parse rolls nothing: the result is 0, one
    line goes to the console, the generator is not used. *)
Lemma rollDiceExpression_invalid diceExpression w :
  parseDiceExpression diceExpression = None →
  rollDiceExpression diceExpression w
  = (0, World (gen w) (console w ++ [diagnostic diceExpression])).
Proof.
  intros Hp. unfold rollDiceExpression. rewrite Hp.
  by rewrite bind_run, ret_run.
Qed.

(** A parsed expression rolls [quantity] dice and keeps the highest with
    [kh1], the total without. *)
Lemma rollDiceExpression_valid diceExpression p w :
  parseDiceExpression diceExpression = Some p →
  quantity p ≠ 0 →
  let rolls := (rollMany (Z.to_nat (quantity p)) (sides p) w).1 in
  rollDiceExpression diceExpression w
  = (if keepHighest p then highest rolls else total rolls,
     (rollMany (Z.to_nat (quantity p)) (sides p) w).2).
Proof.
  intros Hp Hq rolls. unfold rollDiceExpression. rewrite Hp.
  destruct (keepHighest p).
  - rewrite (proj2 (Z.eqb_neq _ _) Hq). apply maxLoop_rollMany.
  - apply sumLoop_rollMany.
Qed.

Lemma replaceLoop_empty fuel b w : replaceLoop fuel b "" w = ("", w).
Proof. by destruct fuel. Qed.

(** Any fuel of at least the length of the text gives the same result. *)
Lemma replaceLoop_fuel fuel1 fuel2 b text w :
  (String.length text ≤ fuel1)%nat → (String.length text ≤ fuel2)%nat →
  replaceLoop fuel1 b text w = replaceLoop fuel2 b text w.
Proof.
  revert fuel2 b text w.
  induction fuel1 as [|fuel1 IH]; intros fuel2 b text w H1 H2.
  - destruct text; [|simpl in H1; lia]. by rewrite !replaceLoop_empty.
  - destruct text as [|c rest]; [by rewrite !replaceLoop_empty|].
    destruct fuel2 as [|fuel2]; [simpl in H2; lia|].
    simpl in H1, H2. simpl replaceLoop.
    destruct (if b then None else matchAt (String c rest))
      as [[token after]|] eqn:Hm.
    + assert (String.length after < String.length (String c rest))%nat
        as Hlen.
      { destruct b; [done|]. by eapply matchAt_shorter. }
      simpl in Hlen. rewrite !bind_run, !ret_run.
      rewrite (IH fuel2) by lia. done.
    + rewrite !bind_run, !ret_run. rewrite (IH fuel2) by lia. done.
Qed.

(** At a match, the token is replaced by the text of its rolled value and
    the scan goes on after the token. *)
Lemma replaceLoop_match fuel text token after w :
  (String.length text ≤ fuel)%nat →
  matchAt text = Some (token, after) →
  let r := rollDiceExpression token w in
  let rest := replaceLoop (String.length after) true after r.2 in
  replaceLoop fuel false text w = (toString r.1 +:+ rest.1, rest.2).
Proof.
  intros Hfuel Hm r rest.
  pose proof (matchAt_shorter _ _ _ Hm) as Hlen.
  destruct text as [|c text']; [simpl in Hlen; lia|].
  destruct fuel as [|fuel]; [simpl in Hfuel; lia|].
  simpl in Hfuel, Hlen. simpl replaceLoop. rewrite Hm.
  rewrite !bind_run, !ret_run.
  rewrite (replaceLoop_fuel fuel (String.length after)) by lia. done.
Qed.

(** A stretch of text without digits is copied as it is. *)
Lemma replaceLoop_skip pre fuel b text w :
  noDigit pre = true →
  (String.length (pre +:+ text) ≤ fuel)%nat →
  let rest := replaceLoop (String.length text) (endsInWord b pre) text w in
  replaceLoop fuel b (pre +:+ text) w = (pre +:+ rest.1, rest.2).
Proof.
  revert fuel b. induction pre as [|c pre IH]; intros fuel b Hpre Hfuel.
  - rewrite !app_empty_l in *. simpl.
    rewrite (replaceLoop_fuel fuel (String.length text)) by done.
    by destruct (replaceLoop _ _ _ _).
  - simpl in Hpre. apply andb_true_iff in Hpre as [Hc Hpre].
    apply negb_true_iff in Hc. rewrite app_cons in *.
    destruct fuel as [|fuel]; [simpl in Hfuel; lia|].
    simpl in Hfuel. simpl replaceLoop.
    rewrite (matchAt_non_digit _ _ Hc).
    assert ((if b then None else @None (string * string)) = None) as ->
      by by destruct b.
    rewrite !bind_run, !ret_run. rewrite IH by (done || lia). done.
Qed.
End RollFacts.

(** ** Numbers as text *)

Section NumberText.
Import DiceRoller DiceText DiceFacts.

Lemma string_of_uint_digits (d : Decimal.uint) :
  allDigits (NilEmpty.string_of_uint d) = true.
Proof. induction d; simpl; by rewrite ?IHd. Qed.

(** The text of a positive number is a non-empty run of digits that
    [parseInt] reads back. *)
Lemma toString_positive (n : Z) :
  0 < n →
  allDigits (toString n) = true ∧ toString n ≠ ""
  ∧ parseInt (toString n) = Some n.
Proof.
  intros Hn. destruct n as [|p|p]; [lia| |lia].
  unfold toString, parseInt. simpl.
  pose proof (DecimalPos.Unsigned.to_uint_nonnil p) as Hnil.
  assert (NilZero.string_of_uint (Pos.to_uint p)
          = NilEmpty.string_of_uint (Pos.to_uint p)) as Hs.
  { unfold NilZero.string_of_uint. by destruct (Pos.to_uint p). }
  split_and!.
  - rewrite Hs. apply string_of_uint_digits.
  - rewrite Hs. destruct (Pos.to_uint p); done.
  - rewrite NilZero.usu by done. simpl. unfold N.of_uint.
    by rewrite DecimalPos.Unsigned.of_to.
Qed.

Lemma str_includes_app (s t sub : string) :
  str_includes t sub = true → str_includes (s +:+ t) sub = true.
Proof.
  intros Ht. induction s as [|c s IH]; [done|].
  rewrite app_cons. simpl. rewrite IH. apply orb_true_r.
Qed.

(** The notation written for a tally above 1 parses as that many
    twelve-sided dice, keeping the highest. *)
Lemma parse_kh1_notation (n : Z) :
  0 < n →
  parseDiceExpression (toString n +:+ "d12kh1") = Some (Parsed n 12 true).
Proof.
  intros Hn. destruct (toString_positive n Hn) as (Hd & Hne & Hp).
  unfold parseDiceExpression, matchWhole.
  rewrite spanDigits_app by done.
  remember (toString n) as t eqn:Et. destruct t as [|c s]; [done|].
  assert (stripPrefix "d" "d12kh1" = Some "12kh1") as -> by done.
  assert (spanDigits "12kh1" = ("12", "kh1")) as -> by done.
  assert (bool_decide ("kh1" = "") || bool_decide ("kh1" = "kh1") = true)
    as -> by done.
  rewrite Hp. assert (parseInt "12" = Some 12) as -> by done.
  rewrite str_includes_app by done.
  destruct (n <? 1) eqn:E; [apply Z.ltb_lt in E; lia | done].
Qed.
(** A digit is one of the ten characters [parseInt] reads. *)
Lemma isDigit_uint_of_char c d :
  isDigit c = true → ∃ d', uint_of_char c (Some d) = Some d'.
Proof.
  destruct c as [[] [] [] [] [] [] [] []]; intros Hc;
    first [ discriminate Hc | eexists; reflexivity ].
Qed.

Lemma isDigit_not_k c : isDigit c = true → "k"%char ≠ c.
Proof. intros Hc <-. discriminate Hc. Qed.

(** [parseInt] reads every non-empty run of digits, as a number that is not
    negative. *)
Lemma parseInt_digits (g : string) :
  allDigits g = true → g ≠ "" → ∃ z, parseInt g = Some z ∧ 0 ≤ z.
Proof.
  intros Hg Hne.
  assert (∃ d, NilEmpty.uint_of_string g = Some d) as [d Hd].
  { clear Hne. induction g as [|c g IH]; [by eexists|].
    simpl in Hg. apply andb_true_iff in Hg as [Hc Hg].
    destruct (IH Hg) as [d Hd]. simpl. rewrite Hd.
    by apply isDigit_uint_of_char. }
  unfold parseInt, NilZero.uint_of_string.
  destruct g as [|c g]; [done|]. rewrite Hd. simpl.
  eexists. split; [done | lia].
Qed.

(** A run of digits holds no [kh1]. *)
Lemma str_includes_digits (g t : string) :
  allDigits g = true →
  str_includes (g +:+ t) "kh1" = str_includes t "kh1".
Proof.
  intros Hg. induction g as [|c g IH]; [done|].
  simpl in Hg. apply andb_true_iff in Hg as [Hc Hg].
  rewrite app_cons.
  change (str_includes (String c (g +:+ t)) "kh1")
    with ((if ascii_dec "k" c then String.prefix "h1" (g +:+ t) else false)
          || str_includes (g +:+ t) "kh1").
  rewrite IH by done.
  destruct (ascii_dec "k" c) as [Hk|_]; [|done].
  by apply isDigit_not_k in Hk.
Qed.

(** The anchored pattern of [parseDiceExpression] matches every token the
    pattern of [rollDiceInText] finds, with the same two groups. *)
Lemma matchWhole_token (g1 g2 : string) (kh : bool) :
  allDigits g1 = true → g1 ≠ "" → allDigits g2 = true → g2 ≠ "" →
  matchWhole (diceToken g1 g2 kh) = Some (g1, g2).
Proof.
  intros H1 N1 H2 N2. unfold matchWhole, diceToken.
  rewrite spanDigits_app by done.
  destruct g1 as [|c1 g1]; [done|].
  rewrite stripPrefix_app.
  rewrite spanDigits_app by (done || by destruct kh).
  destruct g2 as [|c2 g2]; [done|]. by destruct kh.
Qed.

Lemma str_includes_token (g1 g2 : string) (kh : bool) :
  allDigits g1 = true → allDigits g2 = true →
  str_includes (diceToken g1 g2 kh) "kh1" = kh.
Proof.
  intros H1 H2. unfold diceToken.
  rewrite str_includes_digits by done. rewrite app_cons. simpl.
  rewrite app_empty_l, str_includes_digits by done. by destruct kh.
Qed.

(** A token found in a text parses unless its quantity or its number of
    sides is 0; the [keepHighest] flag tells whether it ends in [kh1]. *)
Lemma parse_token (g1 g2 : string) (kh : bool) :
  allDigits g1 = true → g1 ≠ "" → allDigits g2 = true → g2 ≠ "" →
  ∃ q s, parseInt g1 = Some q ∧ parseInt g2 = Some s ∧ 0 ≤ q ∧ 0 ≤ s
    ∧ parseDiceExpression (diceToken g1 g2 kh)
      = (if (q <? 1) || (s <? 1) then None else Some (Parsed q s kh)).
Proof.
  intros H1 N1 H2 N2.
  destruct (parseInt_digits g1 H1 N1) as (q & Hq & Hq0).
  destruct (parseInt_digits g2 H2 N2) as (s & Hs & Hs0).
  exists q, s. split_and!; [done..|].
  unfold parseDiceExpression.
  by rewrite matchWhole_token, Hq, Hs, str_includes_token.
Qed.

Lemma parseDiceExpression_Some diceExpression p :
  parseDiceExpression diceExpression = Some p →
  1 ≤ quantity p ∧ 1 ≤ sides p.
Proof.
  unfold parseDiceExpression.
  destruct (matchWhole diceExpression) as [[g1 g2]|]; [|done].
  destruct (parseInt g1) as [q|]; [|done].
  destruct (parseInt g2) as [s|]; [|done].
  destruct (q <? 1) eqn:Eq; [done|]. destruct (s <? 1) eqn:Es; [done|].
  intros [= <-]. simpl. apply Z.ltb_ge in Eq, Es. lia.
Qed.
End NumberText.

(** ** The scan of [rollDiceInText] and the matches of its pattern *)

Section TokenFacts.
Import DiceRoller DiceText DiceFacts Tokens.
Implicit Types (b : bool) (text x tok y plain after rest : string).

(** The pattern of [rollDiceInText] finds a dice token that is followed
    by a word boundary. *)
Lemma matchAt_token (g1 g2 : string) (kh : bool) (after : string) :
  allDigits g1 = true → g1 ≠ "" → allDigits g2 = true → g2 ≠ "" →
  boundaryAfterWord after = true →
  matchAt (diceToken g1 g2 kh +:+ after)
  = Some (diceToken g1 g2 kh, after).
Proof.
  intros H1 N1 H2 N2 Hb.
  assert (startsNonDigit after = true ∧ stripPrefix "kh1" after = None)
    as [Hnd Hk].
  { destruct after as [|c after]; [done|].
    assert (isWordChar c = false) as Hw by by apply negb_true_iff in Hb.
    assert (isDigit c = false) as Hdig.
    { unfold isWordChar in Hw.
      by repeat (apply orb_false_iff in Hw as [Hw _]). }
    split; [unfold startsNonDigit; by rewrite Hdig|].
    change (stripPrefix "kh1" (String c after))
      with (if Ascii.eqb "k" c then stripPrefix "h1" after else None).
    destruct (Ascii.eqb "k" c) eqn:E; [|done].
    apply Ascii.eqb_eq in E as <-. done. }
  unfold matchAt, diceToken. rewrite !app_assoc.
  rewrite spanDigits_app by done.
  destruct g1 as [|c1 g1]; [done|].
  rewrite stripPrefix_app.
  rewrite spanDigits_app by (done || by destruct kh).
  destruct g2 as [|c2 g2]; [done|].
  destruct kh.
  - by rewrite stripPrefix_app, Hb.
  - by rewrite app_empty_l, Hk, Hb, app_empty_r.
Qed.

(** A match at the start of the text, as the scan tests it. *)
Lemma matchAt_occursAt text tok after :
  matchAt text = Some (tok, after) → occursAt false text "" tok after.
Proof.
  intros Hm. destruct (matchAt_split _ _ _ Hm) as (Ht & Hb & Htok).
  by split_and!.
Qed.

Lemma occursAt_matchAt b text tok after :
  occursAt b text "" tok after →
  b = false ∧ matchAt text = Some (tok, after).
Proof.
  intros (Ht & (g1 & g2 & kh & -> & H1 & N1 & H2 & N2) & Hb & Hy).
  split; [done|]. rewrite Ht, app_empty_l. by apply matchAt_token.
Qed.

(** No token starts the text when the scan finds none there. *)
Lemma no_match_at_start b text x tok y :
  (if b then None else matchAt text) = None →
  occursAt b text x tok y → x ≠ "".
Proof.
  intros Hm Ho ->. apply occursAt_matchAt in Ho as [-> Ho].
  by rewrite Ho in Hm.
Qed.

Lemma occursAt_cons b c rest x tok y :
  occursAt b (String c rest) (String c x) tok y
  ↔ occursAt (isWordChar c) rest x tok y.
Proof.
  unfold occursAt. rewrite app_cons. simpl endsInWord.
  split; intros (Ht & ?); split_and!; try tauto.
  - by injection Ht.
  - by rewrite Ht.
Qed.

Lemma occursAt_uncons b c rest x tok y :
  occursAt b (String c rest) x tok y →
  x = "" ∨ ∃ x', x = String c x' ∧ occursAt (isWordChar c) rest x' tok y.
Proof.
  intros Ho. destruct x as [|c' x']; [by left|]. right.
  assert (c' = c) as ->.
  { destruct Ho as (Ht & _). rewrite app_cons in Ht. by injection Ht. }
  exists x'. split; [done|]. exact (proj1 (occursAt_cons _ _ _ _ _ _) Ho).
Qed.

Lemma isToken_nonempty tok : isToken tok → tok ≠ "".
Proof.
  intros (g1 & g2 & kh & -> & _ & N1 & _). unfold diceToken.
  by destruct g1.
Qed.

Lemma tokenFree_empty b : tokenFree b "".
Proof.
  intros x tok y (Ht & Htok & _). apply isToken_nonempty in Htok.
  destruct x; [|done]. rewrite app_empty_l in Ht. by destruct tok.
Qed.

Lemma tokenFree_cons b c rest :
  (if b then None else matchAt (String c rest)) = None →
  tokenFree (isWordChar c) rest → tokenFree b (String c rest).
Proof.
  intros Hm Hfree x tok y Ho.
  pose proof (no_match_at_start _ _ _ _ _ Hm Ho) as Hx.
  destruct (occursAt_uncons _ _ _ _ _ _ Ho) as [->|(x' & -> & Ho')];
    [done|]. by apply Hfree in Ho'.
Qed.

Lemma firstToken_cons b c rest plain tok after :
  (if b then None else matchAt (String c rest)) = None →
  firstToken (isWordChar c) rest plain tok after →
  firstToken b (String c rest) (String c plain) tok after.
Proof.
  intros Hm [Ho Hleast]. split; [exact (proj2 (occursAt_cons _ _ _ _ _ _) Ho)|].
  intros x tok' y Ho'.
  pose proof (no_match_at_start _ _ _ _ _ Hm Ho') as Hx.
  destruct (occursAt_uncons _ _ _ _ _ _ Ho') as [->|(x' & -> & Ho'')];
    [done|]. apply Hleast in Ho''. simpl. lia.
Qed.

(** The other way round: what holds of a text holds of it behind its
    first character. *)
Lemma tokenFree_tail b c rest :
  tokenFree b (String c rest) → tokenFree (isWordChar c) rest.
Proof.
  intros Hfree x tok y Ho.
  exact (Hfree _ _ _ (proj2 (occursAt_cons b c rest x tok y) Ho)).
Qed.

Lemma tokenFree_no_match b text :
  tokenFree b text → (if b then None else matchAt text) = None.
Proof.
  intros Hfree. destruct b; [done|].
  destruct (matchAt text) as [[tok after]|] eqn:Hm; [|done].
  by apply matchAt_occursAt, Hfree in Hm.
Qed.

Lemma firstToken_tail b c rest plain tok after :
  firstToken b (String c rest) (String c plain) tok after →
  firstToken (isWordChar c) rest plain tok after
  ∧ (if b then None else matchAt (String c rest)) = None.
Proof.
  intros [Ho Hleast]. split; [split|].
  - exact (proj1 (occursAt_cons _ _ _ _ _ _) Ho).
  - intros x tok' y Ho'.
    apply (proj2 (occursAt_cons b c rest x tok' y)) in Ho'.
    apply Hleast in Ho'. simpl in Ho'. lia.
  - destruct b; [done|].
    destruct (matchAt (String c rest)) as [[tok' y]|] eqn:Hm; [|done].
    apply matchAt_occursAt, Hleast in Hm. simpl in Hm. lia.
Qed.

(** Every text has a cut: the one [scan] computes. *)
Lemma scan_cut fuel b text :
  (String.length text ≤ fuel)%nat →
  cut b text (scan fuel b text).1 (scan fuel b text).2.
Proof.
  revert b text. induction fuel as [|fuel IH]; intros b text Hfuel.
  { destruct text; [|simpl in Hfuel; lia]. apply cut_end, tokenFree_empty. }
  destruct text as [|c rest]; [apply cut_end, tokenFree_empty|].
  simpl in Hfuel. cbn [scan].
  destruct (if b then None else matchAt (String c rest))
    as [[tok after]|] eqn:Hm.
  - assert (b = false) as -> by by destruct b.
    pose proof (matchAt_shorter _ _ _ Hm) as Hlen. simpl in Hlen.
    specialize (IH true after ltac:(lia)).
    destruct (scan fuel true after) as [segs last].
    eapply cut_token; [|exact IH].
    split; [by apply matchAt_occursAt|]. intros; simpl; lia.
  - specialize (IH (isWordChar c) rest ltac:(lia)).
    destruct (scan fuel (isWordChar c) rest) as [[|[plain tok] segs] last];
      simpl in IH |- *; inversion IH; subst.
    + by apply cut_end, tokenFree_cons.
    + eapply cut_token; [|eassumption]. by apply firstToken_cons.
Qed.
End TokenFacts.

Section ScanFacts.
Import DiceRoller DiceText DiceFacts Tokens.
Context {rng : Type} `{RandomSource rng}.
Implicit Types (w : world rng) (b : bool) (text plain tok after : string).

(** Where the pattern matches nowhere the text is copied as it is. *)
Lemma replaceLoop_tokenFree fuel b text w :
  tokenFree b text → replaceLoop fuel b text w = (text, w).
Proof.
  revert fuel b. induction text as [|c rest IH]; intros fuel b Hfree.
  - apply replaceLoop_empty.
  - destruct fuel as [|fuel]; [done|]. simpl replaceLoop.
    rewrite (tokenFree_no_match _ _ Hfree).
    rewrite !bind_run, !ret_run, IH; [done|]. by eapply tokenFree_tail.
Qed.

(** Up to the leftmost match the text is copied; the token is replaced by
    the text of its value and the scan goes on behind it. *)
Lemma replaceLoop_firstToken fuel b text plain tok after w :
  firstToken b text plain tok after →
  (String.length text ≤ fuel)%nat →
  let r := rollDiceExpression tok w in
  let rest := replaceLoop (String.length after) true after r.2 in
  replaceLoop fuel b text w = (plain +:+ toString r.1 +:+ rest.1, rest.2).
Proof.
  revert fuel b text.
  induction plain as [|c plain IH]; intros fuel b text Hfirst Hfuel r rest.
  - destruct Hfirst as [Ho _]. apply occursAt_matchAt in Ho as [-> Hm].
    rewrite app_empty_l. by apply replaceLoop_match.
  - assert (∃ rest', text = String c rest') as [rest' ->].
    { destruct Hfirst as [(Ht & _) _]. rewrite app_cons in Ht. by eexists. }
    apply firstToken_tail in Hfirst as [Hfirst Hm].
    destruct fuel as [|fuel]; [simpl in Hfuel; lia|]. simpl in Hfuel.
    simpl replaceLoop. rewrite Hm.
    rewrite !bind_run, !ret_run.
    rewrite (IH fuel _ _ Hfirst) by lia. by rewrite app_cons.
Qed.

(** The scan of [rollDiceInText] replaces the tokens of any cut of the
    text, in order. *)
Lemma replaceLoop_cut fuel b text segs last w :
  cut b text segs last → (String.length text ≤ fuel)%nat →
  replaceLoop fuel b text w = replaced segs last w.
Proof.
  intros Hcut. revert fuel w.
  induction Hcut as [b text Hfree|b text plain tok after segs last Hfirst _ IH];
    intros fuel w Hfuel.
  - by apply replaceLoop_tokenFree.
  - rewrite (replaceLoop_firstToken _ _ _ _ _ _ w Hfirst Hfuel).
    cbv zeta. rewrite IH by done.
    simpl replaced. by rewrite !bind_run, !ret_run.
Qed.
End ScanFacts.

(** ** Claims about dice text *)

Section DiceClaims.
Import DiceRoller DiceText DiceFacts.
Context {rng : Type} `{RandomSource rng}.
Implicit Types (w : world rng).

(** C8, as the code has it.  [rollDiceInText] replaces every token its
    pattern matches, from left to right: whatever way the text is cut
    into its matches (and every text has a cut), the result is the text
    with each token replaced by the text of the value
    [rollDiceExpression] returns for it, each token rolled on its own, in
    order; the stretches between the tokens are kept as they are.  A
    matched token fails to parse exactly when its quantity or its number
    of sides is below 1; it is then not left in place but replaced by 0,
    one diagnostic line is written and no random number is used.  A token
    that parses is replaced by the highest (with [kh1]) or the total of
    its rolls. *)
Theorem dice_tokens_are_replaced text w :
  (∃ segs last, Tokens.cut false text segs last)
  ∧ (∀ segs last,
       Tokens.cut false text segs last →
       rollDiceInText text w = Tokens.replaced segs last w)
  ∧ (∀ tok w0,
       Tokens.isToken tok →
       let r := rollDiceExpression tok w0 in
       ∃ g1 g2 kh q s,
         tok = diceToken g1 g2 kh
         ∧ parseInt g1 = Some q ∧ parseInt g2 = Some s
         ∧ parseDiceExpression tok
           = (if (q <? 1) || (s <? 1) then None else Some (Parsed q s kh))
         ∧ (parseDiceExpression tok = None →
            r = (0, World (gen w0) (console w0 ++ [diagnostic tok]))
            ∧ toString r.1 = "0")
         ∧ (∀ p, parseDiceExpression tok = Some p →
            let rolled := rollMany (Z.to_nat (quantity p)) (sides p) w0 in
            r = (if keepHighest p then highest rolled.1 else total rolled.1,
                 rolled.2))).
Proof.
  split_and!.
  - eexists _, _. by apply (scan_cut (String.length text)).
  - intros segs last Hcut. unfold rollDiceInText.
    by apply replaceLoop_cut.
  - intros tok w0 (g1 & g2 & kh & Htok & H1 & N1 & H2 & N2) r.
    destruct (parse_token g1 g2 kh H1 N1 H2 N2)
      as (q & s & Hq & Hs & _ & _ & Hp).
    exists g1, g2, kh, q, s. rewrite <- Htok in Hp.
    split_and!; [done..| |].
    + intros Hnone. unfold r.
      by rewrite rollDiceExpression_invalid by done.
    + intros p Hsome rolled. unfold r.
      destruct (parseDiceExpression_Some _ _ Hsome) as [Hqp _].
      by rewrite (rollDiceExpression_valid tok p) by (done || lia).
Qed.

(** C9, as the code has it.  For every tally [n] of a duration map: [n]
    is at least 1; a tally of 1 is written [1d12], without suffix, and
    rolls one twelve-sided die; a tally above 1 is written with the [kh1]
    suffix and rolls [n] twelve-sided dice of which the highest is kept,
    not the sum. *)
Theorem duration_notation_keeps_highest selections damageType n w :
  (damageType, n) ∈ CardEffects.calculateDurations selections →
  let rolls := (rollMany (Z.to_nat n) 12 w).1 in
  let w' := (rollMany (Z.to_nat n) 12 w).2 in
  1 ≤ n
  ∧ Z.of_nat (length rolls) = n
  ∧ Forall (λ r, 1 ≤ r ≤ 12) rolls
  ∧ (n = 1 →
     EffectRenderers.diceNotation n = "1d12"
     ∧ rollDiceExpression (EffectRenderers.diceNotation n) w
       = (total rolls, w'))
  ∧ (1 < n →
     EffectRenderers.diceNotation n = toString n +:+ "d12kh1"
     ∧ rollDiceExpression (EffectRenderers.diceNotation n) w
       = (highest rolls, w')).
Proof.
  intros Hin rolls w'.
  assert (1 ≤ n) as Hn.
  { pose proof (positive_tallyFrom selections [] (Forall_nil_2 _)) as Hpos.
    rewrite Forall_forall in Hpos. specialize (Hpos _ Hin).
    simpl in Hpos. lia. }
  split_and!; [done | | | |].
  - unfold rolls. rewrite rollMany_length. lia.
  - by apply rollMany_range.
  - intros ->. split; [done|].
    by rewrite (rollDiceExpression_valid "1d12" (Parsed 1 12 false)).
  - intros Hgt. unfold EffectRenderers.diceNotation.
    destruct (n =? 1) eqn:E; [apply Z.eqb_eq in E; lia|].
    split; [done|].
    rewrite (rollDiceExpression_valid _ (Parsed n 12 true));
      [done | apply parse_kh1_notation; lia | simpl; lia].
Qed.
End DiceClaims.

(** * The program on given rolls *)

Module Examples.
Import Scripted Fixture.

(** "isolation" is index 11 of the full deck, "mischief" 15 and "mystery"
    17. *)

(** A draw of five in which the second card is "isolation". *)
Example draw_stops_at_isolation :
  CardGame.handleDrawCards (game []) 5 (rolls [0; 11; 1; 2; 3])
  = (CardGame.Completed, game ["beginning"; "isolation"], rolls []).
Proof. vm_compute. reflexivity. Qed.

(** Two "mystery" cards among three draw two more cards; the "mystery"
    drawn as an extra card draws nothing. *)
Example draw_extends_once_per_mystery :
  CardGame.handleDrawCards (game []) 3 (rolls [17; 1; 17; 17; 2; 9])
  = (CardGame.Completed,
     game ["mystery"; "champion"; "mystery"; "mystery"; "chancellor"],
     rolls [9]).
Proof. vm_compute. reflexivity. Qed.

(** A draw of [MAX_DRAW] cards that starts with "mystery" ends with more
    than [MAX_DRAW] cards. *)
Example draw_exceeds_max_draw :
  let result :=
    CardGame.handleDrawCards (game []) DECK_CONFIG.MAX_DRAW (rolls [17]) in
  result.1.1 = CardGame.Completed
  ∧ Z.of_nat (length (CardGame.drawnCards result.1.2))
    = DECK_CONFIG.MAX_DRAW + 1.
Proof. vm_compute. done. Qed.

(** The bonus draw samples twice even when the first card is
    "isolation"; only the first card is appended. *)
Example bonus_draw_first_isolation :
  CardGame.handleMischiefDraw (game ["day"; "mischief"]) (rolls [11; 3; 4])
  = (CardGame.Completed, game ["day"; "isolation"], rolls [4]).
Proof. vm_compute. reflexivity. Qed.

Example durations_acid_cold_acid :
  CardEffects.calculateChaosDurations ["acid"; "cold"; "acid"]
  = [("acid", 2); ("cold", 1)].
Proof. reflexivity. Qed.

Example duration_lines :
  EffectRenderers.renderDurations ["acid"; "cold"; "acid"]
  = ["Acid: 2d12kh1 days"; "Cold: 1d12 days"].
Proof. vm_compute. reflexivity. Qed.

Example three_champions :
  CardEffects.calculateEffects ["champion"; "champion"; "champion"]
  = ([CardEffects.Record_ "champion" 3
        (CardEffects.Text "You gain a +3 bonus to weapon attack and damage rolls. This bonus lasts for 8 hours.")],
     []).
Proof. vm_compute. reflexivity. Qed.

Example two_d6_rolls_3_and_5 :
  (run (DiceRoller.rollDiceInText "You take 2d6 damage") [3; 5]).1
  = "You take 8 damage".
Proof. vm_compute. reflexivity. Qed.

Example three_d10_keep_highest :
  (run (DiceRoller.rollDiceExpression "3d10kh1") [2; 9; 4]).1 = 9.
Proof. vm_compute. reflexivity. Qed.

(** Tokens inside a word are not matched. *)
Example dice_inside_words :
  (run (DiceRoller.rollDiceInText "a2d6 2d6x 2d6kh1x 1d2d3") [3; 5]).1
  = "a2d6 2d6x 2d6kh1x 1d2d3".
Proof. vm_compute. reflexivity. Qed.

(** ** The theorems at given rolls *)

Lemma halt_card_ends_outcome_witness :
  NoCardAfterHalt ["beginning"; "isolation"]
  ∧ NoCardAfterHalt ["day"; "isolation"].
Proof.
  split.
  - apply (proj1 (halt_card_ends_outcome (rng:=Scripted.t))
             (game []) 5 (rolls [0; 11; 1; 2; 3])
             (game ["beginning"; "isolation"]) (rolls [])).
    vm_compute. reflexivity.
  - apply (proj2 (halt_card_ends_outcome (rng:=Scripted.t))
             (game ["day"; "mischief"]) (rolls [11; 3])
             (game ["day"; "isolation"]) (rolls [])).
    vm_compute. reflexivity.
Defined.

Lemma mystery_extends_draw_witness :
  ∃ k, (k ≤ 2)%nat ∧
    CardGame.handleDrawCards (game []) 3 (rolls [17; 1; 17; 17; 2; 9])
    = (CardGame.Completed,
       game (["mystery"; "champion"; "mystery"]
             ++ (sampleMany k TAROT_CARDS.FULL (rolls [17; 2; 9])).1),
       (sampleMany k TAROT_CARDS.FULL (rolls [17; 2; 9])).2).
Proof.
  destruct (mystery_extends_draw (rng:=Scripted.t)
              (game []) 3 (rolls [17; 1; 17; 17; 2; 9])
              ["mystery"; "champion"; "mystery"] (rolls [17; 2; 9]))
    as (k & Hk & Heq & _).
  - vm_compute. split; [reflexivity | discriminate].
  - vm_compute. reflexivity.
  - by_compute.
  - exists k. split; [exact Hk | exact Heq].
Defined.

Lemma draw_length_without_special_cards_witness :
  ∃ this' w',
    CardGame.handleDrawCards
      (CardGame.Make (DeckManager.Make ["champion"; "day"] 2) []) 3
      (rolls [1; 0; 1])
    = (CardGame.Completed, this', w')
    ∧ Z.of_nat (length (CardGame.drawnCards this')) = 3.
Proof.
  apply (draw_length_without_special_cards (rng:=Scripted.t)
           (CardGame.Make (DeckManager.Make ["champion"; "day"] 2) []) 3
           (rolls [1; 0; 1])).
  - discriminate.
  - by_compute.
  - by_compute.
  - lia.
  - vm_compute. discriminate.
Defined.


Lemma bonus_draw_takes_two_cards_witness :
  (DeckManager.drawCards fullDeck 2 (rolls [11; 3; 4])
   = (Some ["isolation"; "chaos"], rolls [4])
   ∧ CardGame.handleMischiefDraw (game ["day"; "mischief"])
       (rolls [11; 3; 4])
     = (CardGame.Completed, game ["day"; "isolation"], rolls [4]))
  ∧ CardGame.handleMischiefDraw (game ["day"; "mischief"]) (rolls [1; 11; 4])
    = (CardGame.Completed, game ["day"; "champion"; "isolation"], rolls [4]).
Proof.
  split.
  - destruct (bonus_draw_takes_two_cards (rng:=Scripted.t)
                (game ["day"; "mischief"]) (rolls [11; 3; 4]))
      as [Hdraw Heq].
    + by_compute.
    + discriminate.
    + split.
      * etransitivity; [exact Hdraw | vm_compute; reflexivity].
      * etransitivity; [exact Heq | vm_compute; reflexivity].
  - destruct (bonus_draw_takes_two_cards (rng:=Scripted.t)
                (game ["day"; "mischief"]) (rolls [1; 11; 4]))
      as [_ Heq].
    + by_compute.
    + discriminate.
    + etransitivity; [exact Heq | vm_compute; reflexivity].
Defined.

Lemma bonus_draw_removes_one_mischief_witness :
  ∃ pre post,
    ["mischief"; "day"; "mischief"] = pre ++ "mischief" :: post
    ∧ countOf (pre ++ post) "mischief" = 1.
Proof.
  destruct (bonus_draw_removes_one_mischief (rng:=Scripted.t)
              (game ["mischief"; "day"; "mischief"]) (rolls [1; 15]) 2)
    as (pre & post & Hsplit & _ & _ & Hcount & _).
  - by_compute.
  - discriminate.
  - vm_compute. reflexivity.
  - vm_compute. discriminate.
  - exists pre, post. split; [exact Hsplit | exact Hcount].
Defined.

Lemma dice_tokens_are_replaced_witness :
  let text := "DC 15: take 2d6 fire and 0d4 cold, then 3d10kh1" in
  Tokens.scan (String.length text) false text
  = ([("DC 15: take ", "2d6"); (" fire and ", "0d4");
      (" cold, then ", "3d10kh1")], "")
  ∧ run (DiceRoller.rollDiceInText text) [3; 5; 2; 9; 4; 6]
    = ("DC 15: take 8 fire and 0 cold, then 9",
       World [6] [diagnostic "0d4"]).
Proof.
  intros text. split; [vm_compute; reflexivity|].
  destruct (dice_tokens_are_replaced (rng:=Scripted.t) text
              (rolls [3; 5; 2; 9; 4; 6])) as (_ & Hall & _).
  etransitivity.
  - apply (Hall (Tokens.scan (String.length text) false text).1
                (Tokens.scan (String.length text) false text).2).
    apply scan_cut. reflexivity.
  - vm_compute. reflexivity.
Defined.

Lemma duration_notation_keeps_highest_witness :
  EffectRenderers.diceNotation 2 = "2d12kh1"
  ∧ (run (DiceRoller.rollDiceExpression (EffectRenderers.diceNotation 2))
       [3; 5]).1 = 5.
Proof.
  destruct (duration_notation_keeps_highest (rng:=Scripted.t)
              ["acid"; "cold"; "acid"] "acid" 2 (rolls [3; 5]))
    as (_ & _ & _ & _ & Hmany).
  - by_compute.
  - destruct Hmany as [Hnotation Hroll]; [reflexivity|].
    split; [exact Hnotation|].
    etransitivity; [exact (f_equal fst Hroll) | vm_compute; reflexivity].
Defined.

(** ** Where the program departs from a stated property *)

(** C3 as stated fails above [MAX_DRAW]: on a one-card deck without
    special cards, a draw of 21 returns at its second guard and leaves the
    drawn cards as they were. *)
Lemma draw_above_max_draw_is_refused :
  let start := CardGame.Make (DeckManager.Make ["champion"] 1) [] in
  1 ≤ 21
  ∧ CardGame.handleDrawCards start 21 (rolls [])
    = (CardGame.Returned CardGame.CountAboveMaxDraw, start, rolls [])
  ∧ Z.of_nat (length (CardGame.drawnCards start)) ≠ 21.
Proof. vm_compute. split_and!; [discriminate | reflexivity | discriminate]. Qed.


(** C5 as stated fails: with "isolation" as the first card the second
    card is drawn all the same.  [drawCards(2)] has sampled "chaos" with
    the roll 3, which is used up; the card is only kept out of the
    outcome. *)
Lemma bonus_draw_samples_second_card_after_isolation :
  DeckManager.drawCards fullDeck 1 (rolls [11; 3; 4])
  = (Some ["isolation"], rolls [3; 4])
  ∧ DeckManager.drawCards fullDeck 2 (rolls [11; 3; 4])
    = (Some ["isolation"; "chaos"], rolls [4])
  ∧ CardGame.handleMischiefDraw (game ["day"; "mischief"]) (rolls [11; 3; 4])
    = (CardGame.Completed, game ["day"; "isolation"], rolls [4])
  ∧ rolls [4] ≠ rolls [3; 4].
Proof. vm_compute. split_and!; [reflexivity.. | discriminate]. Qed.

(** C6 as stated fails: a custom request with no member, and one with a
    member outside the vocabulary, both replace the full deck. *)
Lemma createDeck_accepts_any_custom_list :
  (DeckManager.createDeck fullDeck DeckManager.SizeCustom (Some [])
     (rolls [])).1
  = DeckManager.Make [] 0
  ∧ (DeckManager.createDeck fullDeck DeckManager.SizeCustom
       (Some ["joker"]) (rolls [])).1
    = DeckManager.Make ["joker"] 1
  ∧ "joker" ∉ TAROT_CARDS.FULL.
Proof. split_and!; [reflexivity | reflexivity | by_compute]. Qed.

(** C8 as stated fails: the token [0d6] does not parse, and it is
    replaced by 0 instead of being left in the text. *)
Lemma unparsed_token_is_replaced_by_zero :
  DiceRoller.parseDiceExpression "0d6" = None
  ∧ run (DiceRoller.rollDiceInText "Take 0d6 now") [3; 5]
    = ("Take 0 now",
       World [3; 5] [diagnostic "0d6"])
  ∧ "Take 0 now" ≠ "Take 0d6 now".
Proof. vm_compute. split_and!; [reflexivity | reflexivity | discriminate]. Qed.

(** C9 as stated fails: the suffix is absent for a tally of 1 and present
    for a tally of 2, where the rolls 3 and 5 give 5, not their sum. *)
Lemma duration_suffix_is_for_several_dice :
  EffectRenderers.diceNotation 1 = "1d12"
  ∧ EffectRenderers.diceNotation 2 = "2d12kh1"
  ∧ (run (DiceRoller.rollDiceExpression (EffectRenderers.diceNotation 2))
       [3; 5]).1 = 5
  ∧ 5 ≠ 3 + 5.
Proof. vm_compute. split_and!; [reflexivity.. | discriminate]. Qed.
End Examples.

(** * Further properties of the code *)

(** ** The deck manager *)

Section DeckProperties.
Context {rng : Type} `{RandomSource rng}.
Implicit Types (this : DeckManager.t) (w : world rng) (arr : list card).

(** Samples in a row can be taken in two batches. *)
Lemma sampleMany_add (n m : nat) arr w :
  sampleMany (n + m) arr w
  = ((sampleMany n arr w).1 ++ (sampleMany m arr (sampleMany n arr w).2).1,
     (sampleMany m arr (sampleMany n arr w).2).2).
Proof.
  revert w. induction n as [|n IH]; intros w.
  - simpl. by destruct (sampleMany m arr w).
  - change (S n + m)%nat with (S (n + m)). simpl sampleMany.
    rewrite !bind_run, ?ret_run. simpl. by rewrite IH.
Qed.

(** A shuffle with at most one card asks for no random number. *)
Lemma shuffleDeck_short this w :
  (length (DeckManager.deck this) ≤ 1)%nat →
  DeckManager.shuffleDeck this w = (this, w).
Proof.
  intros Hlen. unfold DeckManager.shuffleDeck.
  assert ((length (DeckManager.deck this) - 1)%nat = 0%nat) as -> by lia.
  simpl. rewrite bind_run, !ret_run. simpl. by destruct this.
Qed.

(** X1.  [shuffleDeck] only rearranges the deck: the shuffled deck holds the
    same cards the same number of times, and [deckSize] is kept.  A deck of
    at most one card is left as it is and no random number is used. *)
Theorem shuffleDeck_rearranges this w :
  DeckManager.deck (DeckManager.shuffleDeck this w).1
  ≡ₚ DeckManager.deck this
  ∧ DeckManager.deckSize (DeckManager.shuffleDeck this w).1
    = DeckManager.deckSize this
  ∧ ((length (DeckManager.deck this) ≤ 1)%nat →
     DeckManager.shuffleDeck this w = (this, w)).
Proof.
  split_and!.
  - apply shuffleDeck_Permutation.
  - apply shuffleDeck_deckSize.
  - apply shuffleDeck_short.
Qed.

(** X2.  [drawCards(count)] returns [null] on an empty deck, without using
    the generator.  On a deck with cards it returns exactly [count] cards
    (none when [count] is not positive), each of them a card of the deck. *)
Theorem drawCards_draws_from_deck this count w :
  (DeckManager.deck this = [] →
   DeckManager.drawCards this count w = (None, w))
  ∧ (DeckManager.deck this ≠ [] →
     ∃ drawn,
       (DeckManager.drawCards this count w).1 = Some drawn
       ∧ length drawn = Z.to_nat count
       ∧ ∀ c, c ∈ drawn → c ∈ DeckManager.deck this).
Proof.
  split.
  - apply drawCards_empty.
  - intros Hne. rewrite drawCards_nonempty by done. simpl.
    eexists. split_and!; [done | apply sampleMany_length |].
    by apply sampleMany_members.
Qed.

(** X3.  Drawing [n] cards and then [m] more gives the same cards, and
    leaves the generator in the same state, as drawing [n + m] cards at
    once. *)
Theorem drawCards_in_two_batches this (n m : Z) w drawn1 w1 drawn2 w2 :
  0 ≤ n → 0 ≤ m →
  DeckManager.drawCards this n w = (Some drawn1, w1) →
  DeckManager.drawCards this m w1 = (Some drawn2, w2) →
  DeckManager.drawCards this (n + m) w = (Some (drawn1 ++ drawn2), w2).
Proof.
  intros Hn Hm H1 H2.
  assert (DeckManager.deck this ≠ []) as Hne.
  { intros Hd. by rewrite (drawCards_empty this n w Hd) in H1. }
  rewrite drawCards_nonempty in H1, H2 |- * by done.
  injection H1 as <- <-. injection H2 as <- <-.
  rewrite Z2Nat.inj_add by done. by rewrite sampleMany_add.
Qed.

(** X4.  After [createDeck] the deck has 13 cards when the target size is
    13, 22 cards for every other number (or [null]), and as many cards as
    the custom list for a custom request; it is empty exactly for a custom
    request without cards.  The [deckSize] field records the number that
    was asked for, so that it can differ from the number of cards. *)
Theorem createDeck_sizes this size customCards w :
  let this' := (DeckManager.createDeck this size customCards w).1 in
  let target :=
    match size with
    | DeckManager.SizeNumber n => n
    | _ => DeckManager.deckSize this
    end in
  DeckManager.getDeckSize this'
  = match size with
    | DeckManager.SizeCustom => Z.of_nat (length (default [] customCards))
    | _ => if target =? 13 then 13 else 22
    end
  ∧ DeckManager.deckSize this'
    = match size with
      | DeckManager.SizeCustom => Z.of_nat (length (default [] customCards))
      | _ => target
      end
  ∧ (DeckManager.isEmpty this' = true
     ↔ size = DeckManager.SizeCustom ∧ default [] customCards = []).
Proof.
  intros this' target.
  assert (DeckManager.deck this' ≡ₚ chosenCardSet this size customCards)
    as Hperm.
  { unfold this', DeckManager.createDeck, chosenCardSet.
    destruct size as [|n|]; rewrite shuffleDeck_Permutation; [done..|].
    by destruct customCards as [[|c cards]|]. }
  assert (DeckManager.getDeckSize this'
          = Z.of_nat (length (chosenCardSet this size customCards))) as Hlen.
  { unfold DeckManager.getDeckSize. by rewrite Hperm. }
  split_and!.
  - rewrite Hlen. unfold chosenCardSet, target.
    change DECK_SIZES.REDUCED with 13.
    destruct size as [|n|]; [| |done].
    + by destruct (DeckManager.deckSize this =? 13).
    + by destruct (n =? 13).
  - unfold this', DeckManager.createDeck, target.
    destruct size as [|n|]; rewrite shuffleDeck_deckSize; [done..|].
    by destruct customCards as [[|c cards]|].
  - change (DeckManager.isEmpty this')
      with (DeckManager.getDeckSize this' =? 0).
    rewrite Hlen, Z.eqb_eq. unfold chosenCardSet.
    destruct size as [|n|].
    + destruct (DeckManager.deckSize this =? DECK_SIZES.REDUCED);
        (split; [done | by intros [? _]]).
    + destruct (n =? DECK_SIZES.REDUCED);
        (split; [done | by intros [? _]]).
    + destruct (default [] customCards) as [|c l]; simpl; [done|].
      split; [lia | by intros [_ ?]].
Qed.
End DeckProperties.

(** ** The game handlers *)

Lemma haltRule_subset cards c : c ∈ haltRule cards → c ∈ cards.
Proof.
  destruct (haltRule_cases cards) as [[_ ->]|(pre & post & -> & _ & ->)];
    [done|].
  rewrite !elem_of_app, list_elem_of_singleton, elem_of_cons. tauto.
Qed.

Lemma haltRule_length cards :
  (length (haltRule cards) ≤ length cards)%nat
  ∧ (cards ≠ [] → haltRule cards ≠ []).
Proof.
  destruct (haltRule_cases cards) as [[_ ->]|(pre & post & -> & _ & ->)];
    [done|].
  rewrite !length_app. simpl. split; [lia|]. intros _. by destruct pre.
Qed.

Lemma countOf_le_length {A} `{EqDecision A} (arr : list A) (x : A) :
  countOf arr x ≤ Z.of_nat (length arr).
Proof. unfold countOf. pose proof (length_filter (λ c, c = x) arr). lia. Qed.

Section HandlerProperties.
Context {rng : Type} `{RandomSource rng}.
Implicit Types (dm : DeckManager.t) (this : CardGame.t) (w : world rng).

(** X5.  [handleDrawCards] never throws.  It returns at a guard, leaving
    the game, the generator and the console untouched, when [count] is not
    positive, when it is above [MAX_DRAW], or when the deck is empty (the
    guards are tried in this order); in every other case it completes and
    keeps the deck manager. *)
Theorem handleDrawCards_outcomes this count w :
  (count ≤ 0 →
   CardGame.handleDrawCards this count w
   = (CardGame.Returned CardGame.CountNotPositive, this, w))
  ∧ (DECK_CONFIG.MAX_DRAW < count →
     CardGame.handleDrawCards this count w
     = (CardGame.Returned CardGame.CountAboveMaxDraw, this, w))
  ∧ (0 < count ≤ DECK_CONFIG.MAX_DRAW →
     DeckManager.deck (CardGame.deckManager this) = [] →
     CardGame.handleDrawCards this count w
     = (CardGame.Returned CardGame.DeckIsEmpty, this, w))
  ∧ (0 < count ≤ DECK_CONFIG.MAX_DRAW →
     DeckManager.deck (CardGame.deckManager this) ≠ [] →
     (CardGame.handleDrawCards this count w).1.1 = CardGame.Completed
     ∧ CardGame.deckManager (CardGame.handleDrawCards this count w).1.2
       = CardGame.deckManager this).
Proof.
  split_and!.
  - intros Hc. unfold CardGame.handleDrawCards.
    by rewrite (proj2 (Z.leb_le _ _) Hc).
  - intros Hc. unfold CardGame.handleDrawCards.
    assert ((count <=? 0) = false) as ->.
    { apply Z.leb_gt. unfold DECK_CONFIG.MAX_DRAW in Hc. lia. }
    by rewrite (proj2 (Z.ltb_lt _ _) Hc).
  - intros [Hlo Hhi] Hd. unfold CardGame.handleDrawCards.
    rewrite (proj2 (Z.leb_gt _ _) Hlo), (proj2 (Z.ltb_ge _ _) Hhi).
    unfold DeckManager.isEmpty. by rewrite Hd.
  - intros Hc Hne.
    destruct (handleDrawCards_resolved this count w Hne Hc)
      as [[_ ->]|[_ (k & _ & -> & _)]]; done.
Qed.

(** The shape of a completed draw. *)
Lemma handleDrawCards_completed_shape this count w this' w' :
  CardGame.handleDrawCards this count w = (CardGame.Completed, this', w') →
  CardGame.deckManager this' = CardGame.deckManager this
  ∧ 1 ≤ Z.of_nat (length (CardGame.drawnCards this')) ≤ 2 * count
  ∧ ∀ c, c ∈ CardGame.drawnCards this' →
         c ∈ DeckManager.deck (CardGame.deckManager this).
Proof.
  intros Hrun.
  destruct (handleDrawCards_completed_guards _ _ _ _ _ Hrun) as [Hne Hc].
  set (deck := DeckManager.deck (CardGame.deckManager this)) in *.
  set (drawn := (sampleMany (Z.to_nat count) deck w).1).
  assert (length drawn = Z.to_nat count) as Hlen
    by apply sampleMany_length.
  assert (∀ c, c ∈ drawn → c ∈ deck) as Hmem
    by by apply sampleMany_members.
  destruct (handleDrawCards_resolved this count w Hne Hc)
    as [[Hin Heq]|[Hout (k & Hk & Heq & _)]];
    rewrite Heq in Hrun; injection Hrun as <- _; simpl; fold deck drawn;
    (split; [done|]).
  - fold deck in Hin. fold drawn in Hin.
    destruct (haltRule_length drawn) as [Hle Hnil]. split.
    + assert (haltRule drawn ≠ []) as Hn.
      { apply Hnil. intros E. rewrite E in Hin. by apply elem_of_nil in Hin. }
      destruct (haltRule drawn); [done | simpl in *; lia].
    + intros c Hc'. by apply Hmem, haltRule_subset.
  - pose proof (countOf_le_length drawn "mystery") as Hm.
    fold deck in Hk. fold drawn in Hk.
    set (w1 := (sampleMany (Z.to_nat count) deck w).2) in *.
    rewrite length_app, sampleMany_length. split; [lia|].
    intros c [Hc'|Hc']%elem_of_app; [by apply Hmem|].
    by eapply sampleMany_members.
Qed.

(** X6.  A completed draw of [count] cards holds at least one card and at
    most [2 * count] cards, and every card in it is a card of the deck. *)
Theorem handleDrawCards_outcome_bounds this count w this' w' :
  CardGame.handleDrawCards this count w = (CardGame.Completed, this', w') →
  1 ≤ Z.of_nat (length (CardGame.drawnCards this')) ≤ 2 * count
  ∧ ∀ c, c ∈ CardGame.drawnCards this' →
         c ∈ DeckManager.deck (CardGame.deckManager this).
Proof.
  intros Hrun. by destruct (handleDrawCards_completed_shape _ _ _ _ _ Hrun)
    as (_ & ? & ?).
Qed.

(** X7.  When an "isolation" is among the [count] cards drawn first, the
    outcome is those cards up to and including the first "isolation": the
    cards behind it are dropped although they were sampled, and "mystery"
    cards in front of it draw nothing. *)
Theorem draw_halts_at_first_isolation this count w drawn w1 :
  0 < count ≤ DECK_CONFIG.MAX_DRAW →
  DeckManager.drawCards (CardGame.deckManager this) count w
  = (Some drawn, w1) →
  "isolation" ∈ drawn →
  ∃ pre post,
    drawn = pre ++ "isolation" :: post ∧ ("isolation" ∉ pre)
    ∧ CardGame.handleDrawCards this count w
      = (CardGame.Completed,
         CardGame.Make (CardGame.deckManager this) (pre ++ ["isolation"]),
         w1).
Proof.
  intros Hc Hdraw Hin.
  assert (DeckManager.deck (CardGame.deckManager this) ≠ []) as Hne.
  { intros Hd. by rewrite (drawCards_empty _ count w Hd) in Hdraw. }
  rewrite drawCards_nonempty in Hdraw by done.
  injection Hdraw as Hdrawn Hw1.
  destruct (handleDrawCards_resolved this count w Hne Hc)
    as [[_ Heq]|[Hout _]]; [|by rewrite Hdrawn in Hout].
  rewrite Hdrawn, Hw1 in Heq.
  destruct (haltRule_cases drawn) as [[Hn _]|(pre & post & E & Hpre & Hh)];
    [done|].
  exists pre, post. by rewrite Heq, Hh.
Qed.

(** X8.  Without "isolation" among the drawn cards, [handleMischiefDraw]
    on an empty deck throws before it has changed anything ([drawCards]
    returned [null]); on a deck with cards it completes, keeps the deck
    manager and takes exactly two samples. *)
Theorem bonus_draw_throws_on_empty_deck this w :
  "isolation" ∉ CardGame.drawnCards this →
  let deck := DeckManager.deck (CardGame.deckManager this) in
  (deck = [] →
   CardGame.handleMischiefDraw this w
   = (CardGame.Threw "TypeError", this, w))
  ∧ (deck ≠ [] →
     (CardGame.handleMischiefDraw this w).1.1 = CardGame.Completed
     ∧ CardGame.deckManager (CardGame.handleMischiefDraw this w).1.2
       = CardGame.deckManager this
     ∧ (CardGame.handleMischiefDraw this w).2 = (sampleMany 2 deck w).2).
Proof.
  intros Hout deck. split.
  - by apply handleMischiefDraw_empty_deck.
  - intros Hne. rewrite handleMischiefDraw_resolved by done.
    split_and!; [done..|]. simpl. by rewrite !bind_run, !ret_run.
Qed.

(** X9.  A completed bonus draw on drawn cards that hold a "mischief"
    trades that card for one or two cards of the deck: the outcome has as
    many cards as before, or one more. *)
Theorem bonus_draw_grows_by_at_most_one this w this' w' :
  "mischief" ∈ CardGame.drawnCards this →
  CardGame.handleMischiefDraw this w = (CardGame.Completed, this', w') →
  (length (CardGame.drawnCards this)
   ≤ length (CardGame.drawnCards this')
   ≤ length (CardGame.drawnCards this) + 1)%nat
  ∧ ∀ c, c ∈ CardGame.drawnCards this' →
         c ∈ CardGame.drawnCards this
         ∨ c ∈ DeckManager.deck (CardGame.deckManager this).
Proof.
  intros Hmis Hrun.
  destruct (decide ("isolation" ∈ CardGame.drawnCards this)) as [Hin|Hout].
  { by rewrite handleMischiefDraw_guard in Hrun. }
  destruct (decide (DeckManager.deck (CardGame.deckManager this) = []))
    as [Hd|Hne].
  { by rewrite handleMischiefDraw_empty_deck in Hrun. }
  rewrite handleMischiefDraw_resolved in Hrun by done.
  injection Hrun as <- _. simpl.
  set (deck := DeckManager.deck (CardGame.deckManager this)) in *.
  set (c1 := (sampleOne deck w).1). set (w1 := (sampleOne deck w).2).
  set (c2 := (sampleOne deck w1).1).
  assert (indexOf (CardGame.drawnCards this) "mischief" ≠ -1) as Hidx.
  { by intros E%indexOf_absent. }
  destruct (indexOf_found _ _ Hidx) as (pre & post & Hsplit & Hpre & _).
  rewrite Hsplit in Hout |- *. rewrite removeOneMischief_first by done.
  assert ("isolation" ∉ pre ++ post) as Hkept.
  { revert Hout. rewrite !elem_of_app, elem_of_cons. tauto. }
  rewrite haltRule_app_absent, haltRule_idemp by done.
  destruct (haltRule_length [c1; c2]) as [Hle Hnil].
  assert (haltRule [c1; c2] ≠ []) as Hn by by apply Hnil.
  split.
  - rewrite !length_app. simpl length in *.
    destruct (haltRule [c1; c2]) as [|x l]; [done|]. simpl length in *. lia.
  - intros c. rewrite !elem_of_app, elem_of_cons.
    intros [[?|?]|Hc]; [tauto | tauto |]. right.
    apply haltRule_subset in Hc.
    apply elem_of_cons in Hc as [->|Hc];
      [by apply sampleOne_member|].
    apply list_elem_of_singleton in Hc as ->. by apply sampleOne_member.
Qed.

(** X10.  [handleDeckSizeChange] discards the drawn cards and installs the
    chosen card set, in some order, as the deck. *)
Theorem handleDeckSizeChange_resets this size selectedCards w :
  let this' := (CardGame.handleDeckSizeChange this size selectedCards w).1 in
  CardGame.drawnCards this' = []
  ∧ DeckManager.deck (CardGame.deckManager this')
    ≡ₚ chosenCardSet (CardGame.deckManager this) size selectedCards.
Proof.
  intros this'. unfold this', CardGame.handleDeckSizeChange.
  rewrite bind_run, ret_run. simpl. split; [done|].
  unfold DeckManager.createDeck, chosenCardSet.
  destruct size as [|n|]; rewrite shuffleDeck_Permutation; [done..|].
  by destruct selectedCards as [[|c cards]|].
Qed.

(** In every game reached from a new one, every drawn card is a card of
    the current deck. *)
Lemma reachable_members this w :
  reachable this w →
  ∀ c, c ∈ CardGame.drawnCards this →
       c ∈ DeckManager.deck (CardGame.deckManager this).
Proof.
  induction 1 as [w|this w count _ IH|this w _ IH|this w size cards _ _].
  - unfold CardGame.new. rewrite bind_run, ret_run. simpl.
    by intros c ?%elem_of_nil.
  - destruct (CardGame.handleDrawCards this count w)
      as [[r this'] w'] eqn:E. simpl.
    pose proof (handleDrawCards_unchanged this count w) as Hu.
    rewrite E in Hu. simpl in Hu.
    destruct r; [|by rewrite Hu..].
    destruct (handleDrawCards_completed_shape _ _ _ _ _ E)
      as (Hdm & _ & Hmem).
    by rewrite Hdm.
  - destruct (CardGame.handleMischiefDraw this w)
      as [[r this'] w'] eqn:E. simpl.
    pose proof (handleMischiefDraw_unchanged this w) as Hu.
    rewrite E in Hu. simpl in Hu.
    destruct r; [|by rewrite Hu..].
    destruct (decide ("isolation" ∈ CardGame.drawnCards this)) as [Hi|Ho].
    { by rewrite handleMischiefDraw_guard in E. }
    destruct (decide (DeckManager.deck (CardGame.deckManager this) = []))
      as [Hd|Hne].
    { by rewrite handleMischiefDraw_empty_deck in E. }
    rewrite handleMischiefDraw_resolved in E by done.
    injection E as <- _. simpl. intros c Hc.
    apply haltRule_subset in Hc. apply elem_of_app in Hc as [Hc|Hc].
    + by apply IH, removeOneMischief_subset.
    + apply haltRule_subset in Hc.
      apply elem_of_cons in Hc as [->|Hc]; [by apply sampleOne_member|].
      apply list_elem_of_singleton in Hc as ->.
      by apply sampleOne_member.
  - unfold CardGame.handleDeckSizeChange. rewrite bind_run, ret_run.
    simpl. by intros c ?%elem_of_nil.
Qed.

(** While a card is on display the deck has cards. *)
Lemma reachable_deck_nonempty this w :
  reachable this w → CardGame.drawnCards this ≠ [] →
  DeckManager.deck (CardGame.deckManager this) ≠ [].
Proof.
  intros Hreach Hne Hd. pose proof (reachable_members this w Hreach) as Hall.
  destruct (CardGame.drawnCards this) as [|c l]; [done|].
  specialize (Hall c ltac:(by left)). rewrite Hd in Hall.
  by apply elem_of_nil in Hall.
Qed.

(** X12.  In every game reached from a new one, every drawn card is a card
    of the current deck; so while a card is on display the deck is not
    empty, and [handleMischiefDraw] does not throw its [TypeError]. *)
Theorem reachable_drawn_from_deck this w :
  reachable this w →
  (∀ c, c ∈ CardGame.drawnCards this →
        c ∈ DeckManager.deck (CardGame.deckManager this))
  ∧ (CardGame.drawnCards this ≠ [] →
     DeckManager.deck (CardGame.deckManager this) ≠ []
     ∧ ∀ error, (CardGame.handleMischiefDraw this w).1.1
                ≠ CardGame.Threw error).
Proof.
  intros Hreach. split; [by apply (reachable_members this w)|].
  intros Hne.
  pose proof (reachable_deck_nonempty this w Hreach Hne) as Hdeck.
  split; [done|]. intros error.
  destruct (decide ("isolation" ∈ CardGame.drawnCards this)) as [Hi|Ho].
  - by rewrite (handleMischiefDraw_guard this w Hi).
  - by rewrite (handleMischiefDraw_resolved this w Ho Hdeck).
Qed.
End HandlerProperties.

(** ** Tallies and effect records *)

Section MapProperties.
Import Tally Display.
Context {K : Type} `{EqDecision K}.
Implicit Types (m : list (K * Z)) (k : K) (l : list K).

Lemma Map_get_Map_set m k k' (v : Z) :
  Map_get (Map_set m k v) k'
  = if decide (k = k') then Some v else Map_get m k'.
Proof.
  induction m as [|[k0 v0] m IH]; simpl; [done|].
  destruct (decide (k0 = k)) as [->|Hk]; simpl.
  - by destruct (decide (k = k')).
  - rewrite IH. destruct (decide (k0 = k')) as [->|]; [|done].
    by rewrite decide_False.
Qed.

Lemma keys_Map_set m k (v : Z) :
  (Map_set m k v).*1 = if decide (k ∈ m.*1) then m.*1 else m.*1 ++ [k].
Proof.
  induction m as [|[k0 v0] m IH].
  - done.
  - cbn [Map_set]. rewrite !fmap_cons. cbn [fst].
    destruct (decide (k0 = k)) as [->|Hk].
    + rewrite decide_True; [done | by left].
    + rewrite fmap_cons, IH. cbn [fst].
      destruct (decide (k ∈ m.*1)) as [Hin|Hout].
      * rewrite decide_True; [done | by right].
      * rewrite decide_False; [done|].
        intros [?|?]%elem_of_cons; congruence.
Qed.

Lemma Map_get_None m k : Map_get m k = None ↔ k ∉ m.*1.
Proof.
  induction m as [|[k0 v0] m IH]; simpl.
  - split; [intros _; apply not_elem_of_nil | done].
  - rewrite not_elem_of_cons. case_decide; subst.
    + split; [done | by intros [? _]].
    + rewrite IH. split; [by split | by intros [_ ?]].
Qed.

Lemma Map_get_elem_of m k (v : Z) :
  NoDup m.*1 → (k, v) ∈ m → Map_get m k = Some v.
Proof.
  induction m as [|[k0 v0] m IH]; simpl; intros Hnd Hin.
  - by apply elem_of_nil in Hin.
  - apply NoDup_cons in Hnd as [Hk0 Hnd].
    apply elem_of_cons in Hin as [[= -> ->]|Hin].
    + by rewrite decide_True.
    + rewrite decide_False; [by apply IH|].
      intros ->. apply Hk0. apply list_elem_of_fmap. by exists (k, v).
Qed.

Lemma firstOccurrences_elem_of l k : k ∈ firstOccurrences l ↔ k ∈ l.
Proof.
  induction l as [|x l IH]; simpl; [done|].
  rewrite !elem_of_cons, list_elem_of_filter, IH.
  destruct (decide (k = x)); tauto.
Qed.

Lemma firstOccurrences_NoDup l : NoDup (firstOccurrences l).
Proof.
  induction l as [|x l IH]; simpl; [constructor|].
  apply NoDup_cons. split.
  - rewrite list_elem_of_filter. by intros [? _].
  - by apply NoDup_filter.
Qed.

Lemma filter_filter_absent l (keys : list K) k :
  filter (λ x, x ∉ keys ++ [k]) l
  = filter (λ x, x ∉ keys) (filter (λ y, y ≠ k) l).
Proof.
  induction l as [|x l IH]; [done|].
  rewrite !filter_cons.
  destruct (decide (x ≠ k)) as [Hx|Hx].
  - rewrite filter_cons, <- IH.
    destruct (decide (x ∉ keys)) as [Hk|Hk].
    + rewrite decide_True; [done|].
      rewrite elem_of_app, list_elem_of_singleton. tauto.
    + rewrite decide_False; [done|].
      rewrite elem_of_app, list_elem_of_singleton. tauto.
  - rewrite decide_False; [done|].
    rewrite elem_of_app, list_elem_of_singleton.
    destruct (decide (x = k)); [tauto | done].
Qed.

Lemma filter_absent_skip l (keys : list K) k :
  k ∈ keys →
  filter (λ x, x ∉ keys) (filter (λ y, y ≠ k) l)
  = filter (λ x, x ∉ keys) l.
Proof.
  intros Hk. induction l as [|x l IH]; [done|].
  rewrite !filter_cons.
  destruct (decide (x ≠ k)) as [Hx|Hx].
  - rewrite filter_cons, IH. done.
  - assert (x = k) as -> by (destruct (decide (x = k)); [done | tauto]).
    rewrite IH, decide_False; [done | tauto].
Qed.

(** The keys of a tally are the keys it started with, then the new
    elements in the order of their first occurrence. *)
Lemma keys_tallyFrom l m :
  (tallyFrom m l).*1
  = m.*1 ++ filter (λ x, x ∉ m.*1) (firstOccurrences l).
Proof.
  revert m. induction l as [|x l IH]; intros m.
  - simpl. by rewrite app_nil_r.
  - change (tallyFrom m (x :: l))
      with (tallyFrom (Map_set m x (default 0 (Map_get m x) + 1)) l).
    rewrite IH, keys_Map_set. simpl firstOccurrences.
    rewrite filter_cons.
    destruct (decide (x ∈ m.*1)) as [Hin|Hout].
    + rewrite decide_False by tauto. by rewrite filter_absent_skip.
    + rewrite decide_True by done.
      rewrite <- app_assoc. simpl. by rewrite filter_filter_absent.
Qed.

(** The tally of a key is what it started with plus the number of its
    occurrences. *)
Lemma Map_get_tallyFrom l m k :
  Map_get (tallyFrom m l) k
  = if decide (k ∈ l)
    then Some (default 0 (Map_get m k) + countOf l k)
    else Map_get m k.
Proof.
  revert m. induction l as [|x l IH]; intros m; [done|].
  - change (tallyFrom m (x :: l))
      with (tallyFrom (Map_set m x (default 0 (Map_get m x) + 1)) l).
    rewrite IH, Map_get_Map_set, countOf_cons.
    destruct (decide (x = k)) as [->|Hx].
    + rewrite (decide_True (P := k ∈ k :: l)) by by left.
      destruct (decide (k ∈ l)) as [Hin|Hout]; simpl; f_equal; [lia|].
      rewrite (countOf_absent l k) by done. lia.
    + destruct (decide (k ∈ l)) as [Hin|Hout].
      * by rewrite decide_True by by right.
      * rewrite decide_False; [done|].
        intros [?|?]%elem_of_cons; congruence.
Qed.

Lemma sumAll_tallyFrom l :
  sumAll (tallyFrom ([] : list (K * Z)) l) = Z.of_nat (length l).
Proof.
  unfold sumAll. rewrite sumIf_tallyFrom.
  change (sumIf (λ _ : K, true) []) with 0. rewrite Z.add_0_l.
  do 2 f_equal. induction l as [|x l IH]; [done|].
  rewrite filter_cons, decide_True by done. simpl. by rewrite IH.
Qed.
(** A tally from nothing: one key per distinct element, in the order of
    the first occurrences, holding the number of occurrences. *)
Lemma keys_tally l :
  (tallyFrom ([] : list (K * Z)) l).*1 = firstOccurrences l.
Proof.
  rewrite keys_tallyFrom. simpl.
  induction (firstOccurrences l) as [|x l' IH]; [done|].
  rewrite filter_cons, decide_True by apply not_elem_of_nil.
  by rewrite IH.
Qed.

Lemma Map_get_tally l k :
  Map_get (tallyFrom ([] : list (K * Z)) l) k
  = if decide (k ∈ l) then Some (countOf l k) else None.
Proof. rewrite Map_get_tallyFrom. simpl. by rewrite Z.add_0_l. Qed.

Lemma elem_of_tally l k (v : Z) :
  (k, v) ∈ tallyFrom ([] : list (K * Z)) l → v = countOf l k.
Proof.
  intros Hin.
  assert (NoDup (tallyFrom ([] : list (K * Z)) l).*1) as Hnd.
  { rewrite keys_tally. apply firstOccurrences_NoDup. }
  pose proof (Map_get_elem_of _ _ _ Hnd Hin) as Hm.
  rewrite Map_get_tally in Hm.
  by destruct (decide (k ∈ l)); simplify_eq.
Qed.
End MapProperties.

Section EffectProperties.
Import Tally Display.
Implicit Types (cardName : card) (count : Z) (drawnCards : list card).
Implicit Types (entries : list (card * Z)).
Implicit Types (regular curses : list CardEffects.EffectRecord).

(** Close a goal that a text built by appending is not empty. *)
Ltac text_nonempty :=
  first [ apply append_nonempty_l; discriminate
        | apply append_nonempty_r; text_nonempty
        | discriminate ].

(** The kind of effect [getEffect] gives for each card (given a count
    other than 0): a curse for the six curse cards, another truthy effect
    for the other sixteen cards of the rule table, none for any other
    name. *)
Lemma getEffect_kind cardName count :
  count ≠ 0 →
  match CardEffects.getEffect cardName count with
  | Some (CardEffects.Curse _) =>
      isCurseCard cardName = true ∧ isRegularCard cardName = false
  | Some e =>
      CardEffects.truthy (Some e) = true
      ∧ isCurseCard cardName = false ∧ isRegularCard cardName = true
  | None => isCurseCard cardName = false ∧ isRegularCard cardName = false
  end.
Proof.
  intros Hc. unfold CardEffects.getEffect.
  rewrite (proj2 (Z.eqb_neq count 0) Hc).
  repeat (case_decide;
          [ subst cardName; split_and!;
            first [ reflexivity | apply truthy_Text; text_nonempty ]
          | ]).
  assert (cardName ∉ ruleTable) as Hrule.
  { unfold ruleTable. intros Hin.
    repeat (apply elem_of_cons in Hin as [Hin|Hin]; [congruence|]).
    by apply elem_of_nil in Hin. }
  assert (cardName ∉ curseCards) as Hcurse.
  { unfold curseCards. intros Hin.
    repeat (apply elem_of_cons in Hin as [Hin|Hin]; [congruence|]).
    by apply elem_of_nil in Hin. }
  unfold isRegularCard, isCurseCard, hasRule.
  by rewrite !bool_decide_eq_false_2.
Qed.

(** One round of the loop of [calculateEffects], without the test of
    truthiness: every effect [getEffect] gives is truthy. *)
Lemma effectsLoop_step cardName count entries regular curses :
  count ≠ 0 →
  CardEffects.effectsLoop ((cardName, count) :: entries) regular curses
  = match CardEffects.getEffect cardName count with
    | Some (CardEffects.Curse text) =>
        CardEffects.effectsLoop entries regular
          (curses ++ [CardEffects.Record_ cardName count
                        (CardEffects.Text text)])
    | Some e =>
        CardEffects.effectsLoop entries
          (regular ++ [CardEffects.Record_ cardName count e]) curses
    | None => CardEffects.effectsLoop entries regular curses
    end.
Proof.
  intros Hc. pose proof (getEffect_kind cardName count Hc) as Hkind.
  cbn [CardEffects.effectsLoop].
  destruct (CardEffects.getEffect cardName count) as [e|]; [|done].
  destruct e; try (destruct Hkind as [-> _]); done.
Qed.

(** The loop of [calculateEffects] writes one record per entry with an
    effect, in the order of the entries, curses apart. *)
Lemma effectsLoop_records entries regular curses :
  Forall (λ kv, 0 < kv.2) entries →
  let out := CardEffects.effectsLoop entries regular curses in
  map CardEffects.rcard out.1
  = map CardEffects.rcard regular
    ++ filter (λ c, isRegularCard c = true) entries.*1
  ∧ map CardEffects.rcard out.2
    = map CardEffects.rcard curses
      ++ filter (λ c, isCurseCard c = true) entries.*1
  ∧ (∀ r, r ∈ out.1 →
       r ∈ regular
       ∨ ((CardEffects.rcard r, CardEffects.rcount r) ∈ entries
          ∧ CardEffects.getEffect (CardEffects.rcard r) (CardEffects.rcount r)
            = Some (CardEffects.reffect r)))
  ∧ (∀ r, r ∈ out.2 →
       r ∈ curses
       ∨ ((CardEffects.rcard r, CardEffects.rcount r) ∈ entries
          ∧ ∃ text,
              CardEffects.reffect r = CardEffects.Text text
              ∧ CardEffects.getEffect (CardEffects.rcard r)
                  (CardEffects.rcount r)
                = Some (CardEffects.Curse text))).
Proof.
  revert regular curses.
  induction entries as [|[cardName count] entries IH];
    intros regular curses Hpos out.
  { subst out. simpl. rewrite !app_nil_r. split_and!; auto. }
  apply Forall_cons in Hpos as [Hcount Hpos]. simpl in Hcount.
  pose proof (getEffect_kind cardName count ltac:(lia)) as Hkind.
  subst out. rewrite effectsLoop_step by lia.
  rewrite fmap_cons. cbn [fst]. rewrite !filter_cons.
  assert (∀ r0 rs (r : CardEffects.EffectRecord),
            r ∈ rs ++ [r0] → r ∈ rs ∨ r = r0) as Hsnoc.
  { intros r0 rs r [?|?%list_elem_of_singleton]%elem_of_app; auto. }
  destruct (CardEffects.getEffect cardName count) as [e|] eqn:He.
  - destruct e as [text|type n types|n choices|text|n text].
    4: { destruct Hkind as (Hcu & Hre). rewrite Hcu, Hre.
         rewrite (decide_True (P := true = true)) by done.
         rewrite (decide_False (P := false = true)) by done.
         destruct (IH regular
                     (curses ++ [CardEffects.Record_ cardName count
                                   (CardEffects.Text text)]) Hpos)
           as (IH1 & IH2 & IH3 & IH4).
         rewrite IH1, IH2, map_app, <- app_assoc. simpl.
         split_and!; [done | done | |]; intros r Hr.
         - destruct (IH3 r Hr) as [Hin|[Hin Hg]]; [by left|].
           right. split; [by right | done].
         - destruct (IH4 r Hr) as [Hin|[Hin Hg]].
           + apply Hsnoc in Hin as [Hin| ->]; [by left|].
             right. simpl. split; [by left|]. by exists text.
           + right. split; [by right | done]. }
    all: destruct Hkind as (_ & Hcu & Hre); rewrite Hcu, Hre;
      rewrite (decide_True (P := true = true)) by done;
      rewrite (decide_False (P := false = true)) by done;
      match goal with
      | |- context [CardEffects.effectsLoop _ ?rs ?cs] =>
          destruct (IH rs cs Hpos) as (IH1 & IH2 & IH3 & IH4)
      end;
      rewrite IH1, IH2, map_app, <- app_assoc; simpl;
      (split_and!; [done | done | |]); intros r Hr;
      [ destruct (IH3 r Hr) as [Hin|[Hin Hg]];
        [ apply Hsnoc in Hin as [Hin| ->];
          [by left | right; simpl; split; [by left | done]]
        | right; split; [by right | done] ]
      | destruct (IH4 r Hr) as [Hin|[Hin Hg]];
        [ by left | right; split; [by right | done] ] ].
  - destruct Hkind as [-> ->].
    rewrite !(decide_False (P := false = true)) by done.
    destruct (IH regular curses Hpos) as (IH1 & IH2 & IH3 & IH4).
    split_and!; [done | done | |]; intros r Hr.
    + destruct (IH3 r Hr) as [Hin|[Hin Hg]]; [by left|].
      right. split; [by right | done].
    + destruct (IH4 r Hr) as [Hin|[Hin Hg]]; [by left|].
      right. split; [by right | done].
Qed.
End EffectProperties.

Section TallyProperties.
Import Tally Display.
Implicit Types (drawnCards : list card) (selections : list string).

(** X13.  [countCards] counts occurrences: it has one entry per distinct
    card, in the order in which the cards were first drawn, and the entry
    of a card holds the number of its occurrences; a card that was not
    drawn has no entry. *)
Theorem countCards_counts_occurrences drawnCards :
  (CardEffects.countCards drawnCards).*1 = firstOccurrences drawnCards
  ∧ NoDup (CardEffects.countCards drawnCards).*1
  ∧ ∀ c, Map_get (CardEffects.countCards drawnCards) c
         = if decide (c ∈ drawnCards)
           then Some (countOf drawnCards c) else None.
Proof.
  rewrite countCards_tallyFrom, keys_tally. split_and!; [done | |].
  - apply firstOccurrences_NoDup.
  - intros c. apply Map_get_tally.
Qed.

(** The records of [calculateEffects]: one per distinct drawn card with
    an effect, in the order of the first draws, with the number of
    occurrences. *)
Lemma calculateEffects_shape drawnCards :
  let out := CardEffects.calculateEffects drawnCards in
  map CardEffects.rcard out.1
  = filter (λ c, isRegularCard c = true) (firstOccurrences drawnCards)
  ∧ map CardEffects.rcard out.2
    = filter (λ c, isCurseCard c = true) (firstOccurrences drawnCards)
  ∧ (∀ r, r ∈ out.1 →
       CardEffects.rcount r = countOf drawnCards (CardEffects.rcard r)
       ∧ CardEffects.getEffect (CardEffects.rcard r) (CardEffects.rcount r)
         = Some (CardEffects.reffect r))
  ∧ (∀ r, r ∈ out.2 →
       CardEffects.rcount r = countOf drawnCards (CardEffects.rcard r)
       ∧ ∃ text,
           CardEffects.reffect r = CardEffects.Text text
           ∧ CardEffects.getEffect (CardEffects.rcard r)
               (CardEffects.rcount r)
             = Some (CardEffects.Curse text)).
Proof.
  intros out. subst out. unfold CardEffects.calculateEffects.
  destruct (Z.of_nat (length drawnCards) =? 0) eqn:E.
  { apply Z.eqb_eq in E. destruct drawnCards; [|simpl length in E; lia].
    split_and!; [done | done | |]; by intros r ?%elem_of_nil. }
  assert (Forall (λ kv : string * Z, 0 < kv.2)
            (CardEffects.countCards drawnCards)) as Hpos.
  { rewrite countCards_tallyFrom. by apply positive_tallyFrom. }
  assert (∀ c n, (c, n) ∈ CardEffects.countCards drawnCards →
                 n = countOf drawnCards c) as Hcount.
  { intros c n. rewrite countCards_tallyFrom. apply elem_of_tally. }
  destruct (effectsLoop_records (CardEffects.countCards drawnCards) [] []
              Hpos) as (H1 & H2 & H3 & H4).
  destruct (CardEffects.effectsLoop _ [] []) as [regular curses].
  simpl in H1, H2, H3, H4.
  rewrite countCards_tallyFrom, keys_tally in H1, H2.
  split_and!; [done | done | |]; intros r Hr.
  - destruct (H3 r Hr) as [Hin|[Hin Hg]]; [by apply elem_of_nil in Hin|].
    split; [by apply Hcount | done].
  - destruct (H4 r Hr) as [Hin|[Hin Hg]]; [by apply elem_of_nil in Hin|].
    split; [by apply Hcount | done].
Qed.

(** X14.  [calculateEffects] writes exactly one record for each distinct
    drawn card that has an effect, in the order in which the cards were
    first drawn: into [curses] for the six curse cards, into [regular] for
    the other cards with an effect.  Each record carries the number of
    occurrences of its card and the effect [getEffect] gives for that
    number; a curse is stored as its text alone. *)
Theorem calculateEffects_records drawnCards :
  let '(regular, curses) := CardEffects.calculateEffects drawnCards in
  map CardEffects.rcard regular
  = filter (λ c, isRegularCard c = true) (firstOccurrences drawnCards)
  ∧ map CardEffects.rcard curses
    = filter (λ c, isCurseCard c = true) (firstOccurrences drawnCards)
  ∧ (∀ r, r ∈ regular →
       CardEffects.rcount r = countOf drawnCards (CardEffects.rcard r)
       ∧ CardEffects.getEffect (CardEffects.rcard r) (CardEffects.rcount r)
         = Some (CardEffects.reffect r))
  ∧ (∀ r, r ∈ curses →
       CardEffects.rcount r = countOf drawnCards (CardEffects.rcard r)
       ∧ ∃ text,
           CardEffects.reffect r = CardEffects.Text text
           ∧ CardEffects.getEffect (CardEffects.rcard r)
               (CardEffects.rcount r)
             = Some (CardEffects.Curse text)).
Proof.
  pose proof (calculateEffects_shape drawnCards) as Hshape.
  by destruct (CardEffects.calculateEffects drawnCards)
    as [regular curses].
Qed.

(** X15.  [calculateChaosDurations] and [calculateOrderDurations] give
    each selected damage type as many d12 as there are dropdowns that
    select it, in the order in which the types were first selected; the
    numbers of d12 add up to the number of dropdowns, and a type that is
    not selected has no duration. *)
Theorem calculateDurations_counts_selections selections :
  CardEffects.calculateOrderDurations selections
  = CardEffects.calculateChaosDurations selections
  ∧ (CardEffects.calculateChaosDurations selections).*1
    = firstOccurrences selections
  ∧ (∀ damageType,
       Map_get (CardEffects.calculateChaosDurations selections) damageType
       = if decide (damageType ∈ selections)
         then Some (countOf selections damageType) else None)
  ∧ sumAll (CardEffects.calculateChaosDurations selections)
    = Z.of_nat (length selections).
Proof.
  change (CardEffects.calculateChaosDurations selections)
    with (tallyFrom [] selections).
  split_and!; [done | | |].
  - apply keys_tally.
  - intros damageType. apply Map_get_tally.
  - apply sumAll_tallyFrom.
Qed.
End TallyProperties.

(** ** Dice expressions *)

Section ParseProperties.
Import DiceRoller DiceText DiceFacts.

(** What the anchored pattern of [parseDiceExpression] matches is a dice
    token, whole. *)
Lemma matchWhole_split s g1 g2 :
  matchWhole s = Some (g1, g2) →
  ∃ kh, s = diceToken g1 g2 kh
        ∧ allDigits g1 = true ∧ g1 ≠ ""
        ∧ allDigits g2 = true ∧ g2 ≠ "".
Proof.
  unfold matchWhole.
  destruct (spanDigits_split s) as (Hs & Hd1 & _).
  destruct (spanDigits s) as [d1 after1]. simpl in Hs, Hd1.
  destruct d1 as [|c1 d1']; [done|]. set (d1 := String c1 d1') in *.
  destruct (stripPrefix "d" after1) as [after_d|] eqn:Hd; [|done].
  apply stripPrefix_split in Hd.
  destruct (spanDigits_split after_d) as (Hs2 & Hd2 & _).
  destruct (spanDigits after_d) as [d2 after2]. simpl in Hs2, Hd2.
  destruct d2 as [|c2 d2']; [done|]. set (d2 := String c2 d2') in *.
  destruct (bool_decide (after2 = "")) eqn:E1.
  - apply bool_decide_eq_true in E1 as ->. intros [= <- <-].
    exists false. by rewrite Hs, Hd, Hs2.
  - destruct (bool_decide (after2 = "kh1")) eqn:E2; [|done].
    apply bool_decide_eq_true in E2 as ->. intros [= <- <-].
    exists true. by rewrite Hs, Hd, Hs2.
Qed.

(** X16.  Writing a dice expression and parsing it gives the expression
    back: for a quantity and a number of sides from 1 to
    [MAX_SAFE_INTEGER], the numbers JavaScript writes digit by digit and
    reads back exactly, [parseDiceExpression] reads [<quantity>d<sides>],
    with or without the suffix [kh1], as that quantity, those sides and
    that flag.  (Above the bound the program rounds: it reads
    9007199254740993 as 2^53.) *)
Theorem parseDiceExpression_round_trip (q s : Z) (kh : bool) :
  1 ≤ q ≤ MAX_SAFE_INTEGER → 1 ≤ s ≤ MAX_SAFE_INTEGER →
  parseDiceExpression
    (toString q +:+ "d" +:+ toString s +:+ (if kh then "kh1" else ""))
  = Some (Parsed q s kh).
Proof.
  intros [Hq _] [Hs _].
  destruct (toString_positive q ltac:(lia)) as (Hd1 & Hn1 & Hp1).
  destruct (toString_positive s ltac:(lia)) as (Hd2 & Hn2 & Hp2).
  destruct (parse_token (toString q) (toString s) kh Hd1 Hn1 Hd2 Hn2)
    as (q' & s' & Hq' & Hs' & _ & _ & Hparse).
  rewrite Hp1 in Hq'. rewrite Hp2 in Hs'. simplify_eq.
  unfold diceToken in Hparse. rewrite Hparse.
  destruct (q' <? 1) eqn:E1; [apply Z.ltb_lt in E1; lia|].
  destruct (s' <? 1) eqn:E2; [apply Z.ltb_lt in E2; lia|]. done.
Qed.

(** X17.  [parseDiceExpression] accepts nothing but dice expressions: a
    parsed text is a run of digits, the letter [d], a run of digits and
    then nothing or [kh1]; the runs of digits read as the quantity and
    the number of sides, both at least 1, and [keepHighest] tells
    whether the text ends in [kh1]. *)
Theorem parseDiceExpression_accepts diceExpression p :
  parseDiceExpression diceExpression = Some p →
  ∃ g1 g2,
    diceExpression
    = g1 +:+ "d" +:+ g2 +:+ (if keepHighest p then "kh1" else "")
    ∧ allDigits g1 = true ∧ allDigits g2 = true
    ∧ parseInt g1 = Some (quantity p) ∧ parseInt g2 = Some (sides p)
    ∧ 1 ≤ quantity p ∧ 1 ≤ sides p.
Proof.
  intros Hp. pose proof (parseDiceExpression_Some _ _ Hp) as [Hq Hs].
  revert Hp. unfold parseDiceExpression.
  destruct (matchWhole diceExpression) as [[g1 g2]|] eqn:Hm; [|done].
  destruct (matchWhole_split _ _ _ Hm) as (kh & -> & H1 & N1 & H2 & N2).
  rewrite str_includes_token by done.
  destruct (parseInt g1) as [q|] eqn:Hg1; [|done].
  destruct (parseInt g2) as [s|] eqn:Hg2; [|done].
  destruct ((q <? 1) || (s <? 1)); [done|]. intros [= <-].
  exists g1, g2. simpl in *. by split_and!.
Qed.
End ParseProperties.

Lemma highest_bounds (rolls : list Z) (sides : Z) :
  Forall (λ r, 1 ≤ r ≤ sides) rolls → rolls ≠ [] →
  1 ≤ highest rolls ≤ sides.
Proof.
  intros Hall Hne. unfold highest.
  assert (∀ acc, 0 ≤ acc ≤ sides →
            (acc ≤ fold_left Z.max rolls acc ≤ sides)
            ∧ (rolls ≠ [] → 1 ≤ fold_left Z.max rolls acc)) as Hgen.
  { clear Hne. induction Hall as [|r rolls Hr Hall IH]; intros acc Hacc.
    - simpl. split; [lia | done].
    - simpl. destruct (IH (Z.max acc r) ltac:(lia)) as [IH1 IH2].
      split; [lia|]. intros _. lia. }
  destruct rolls as [|r rolls]; [done|].
  apply Forall_cons in Hall as Hr. destruct Hr as [Hr _].
  destruct (Hgen 0 ltac:(lia)) as [H1 H2]. split; [by apply H2 | lia].
Qed.

Lemma total_bounds (rolls : list Z) (sides : Z) :
  Forall (λ r, 1 ≤ r ≤ sides) rolls →
  Z.of_nat (length rolls) ≤ total rolls ≤ Z.of_nat (length rolls) * sides.
Proof.
  intros Hall. unfold total.
  assert (∀ acc, acc + Z.of_nat (length rolls)
                 ≤ fold_left Z.add rolls acc
                 ≤ acc + Z.of_nat (length rolls) * sides) as Hgen.
  { induction Hall as [|r rolls Hr Hall IH]; intros acc; simpl; [lia|].
    specialize (IH (acc + r)). rewrite Nat2Z.inj_succ. nia. }
  specialize (Hgen 0). lia.
Qed.

Section RollProperties.
Import DiceRoller DiceText DiceFacts.
Context {rng : Type} `{RandomSource rng}.
Implicit Types (w : world rng) (text : string).

Lemma rollMany_console n sides w :
  console (rollMany n sides w).2 = console w.
Proof.
  revert w. induction n as [|n IH]; intros w; [done|].
  simpl. rewrite !bind_run, ?ret_run. simpl.
  by rewrite IH, randomInt_console.
Qed.

(** A text without digits is scanned to its end and copied as it is. *)
Lemma replaceLoop_noDigit fuel b text w :
  noDigit text = true → replaceLoop fuel b text w = (text, w).
Proof.
  revert fuel b. induction text as [|c text IH]; intros fuel b Hd.
  - apply replaceLoop_empty.
  - simpl in Hd. apply andb_true_iff in Hd as [Hc Hd].
    apply negb_true_iff in Hc.
    destruct fuel as [|fuel]; [done|]. simpl replaceLoop.
    rewrite (matchAt_non_digit _ _ Hc).
    assert ((if b then None else @None (string * string)) = None) as ->
      by by destruct b.
    by rewrite !bind_run, !ret_run, IH.
Qed.

(** X18.  What [rollDiceExpression] returns lies within the dice: for an
    expression that parses, between 1 and the number of sides with
    [kh1], and between the quantity and the quantity times the number of
    sides without it, and nothing is written to the console; for any
    other text it is 0, one line is written and the generator is left as
    it was. *)
Theorem rollDiceExpression_bounds diceExpression w :
  let r := rollDiceExpression diceExpression w in
  match parseDiceExpression diceExpression with
  | Some p =>
      (if keepHighest p then 1 ≤ r.1 ≤ sides p
       else quantity p ≤ r.1 ≤ quantity p * sides p)
      ∧ console r.2 = console w
  | None =>
      r.1 = 0 ∧ gen r.2 = gen w
      ∧ console r.2 = console w ++ [diagnostic diceExpression]
  end.
Proof.
  intros r. subst r.
  destruct (parseDiceExpression diceExpression) as [p|] eqn:Hp.
  - destruct (parseDiceExpression_Some _ _ Hp) as [Hq Hs].
    rewrite (rollDiceExpression_valid _ p) by (done || lia).
    cbn [fst snd]. rewrite rollMany_console. split; [|done].
    pose proof (rollMany_range (Z.to_nat (quantity p)) (sides p) w Hs)
      as Hrange.
    pose proof (rollMany_length (Z.to_nat (quantity p)) (sides p) w)
      as Hlen.
    destruct (keepHighest p).
    + apply highest_bounds; [done|].
      intros E. rewrite E in Hlen. simpl in Hlen. lia.
    + pose proof (total_bounds _ _ Hrange) as Hb.
      rewrite Hlen, Z2Nat.id in Hb by lia. done.
  - by rewrite rollDiceExpression_invalid.
Qed.

(** X19.  [rollDiceInText] returns a text without digits as it is: it
    rolls nothing, uses no random number and writes nothing to the
    console. *)
Theorem rollDiceInText_without_digits text w :
  noDigit text = true → rollDiceInText text w = (text, w).
Proof. intros Hd. by apply replaceLoop_noDigit. Qed.
End RollProperties.

(** ** The duration lines after the dice are rolled *)

Section DurationProperties.
Import DiceRoller DiceText DiceFacts.
Context {rng : Type} `{RandomSource rng}.
Implicit Types (w : world rng).

Lemma noDigit_app (s t : string) :
  noDigit (s +:+ t) = noDigit s && noDigit t.
Proof.
  induction s as [|c s IH]; [done|].
  rewrite app_cons. simpl. by rewrite IH, andb_assoc.
Qed.

Lemma endsInWord_app (b : bool) (s t : string) :
  endsInWord b (s +:+ t) = endsInWord (endsInWord b s) t.
Proof.
  revert b. induction s as [|c s IH]; intros b; [done|].
  rewrite app_cons. simpl. by rewrite IH.
Qed.

Lemma isDigit_toUpperCase c :
  isDigit (EffectRenderers.toUpperCase c) = isDigit c.
Proof. by destruct c as [[] [] [] [] [] [] [] []]. Qed.

Lemma noDigit_capitalizeFirst (s : string) :
  noDigit (EffectRenderers.capitalizeFirst s) = noDigit s.
Proof.
  destruct s as [|c s]; [done|]. simpl noDigit.
  by rewrite isDigit_toUpperCase.
Qed.

(** The notation of a duration is a dice token, and it parses as that
    many twelve-sided dice. *)
Lemma diceNotation_token (n : Z) :
  EffectRenderers.diceNotation n
  = diceToken (toString n) "12" (negb (n =? 1)).
Proof.
  unfold EffectRenderers.diceNotation, diceToken.
  by destruct (n =? 1).
Qed.

Lemma diceNotation_parse (n : Z) :
  1 ≤ n →
  parseDiceExpression (EffectRenderers.diceNotation n)
  = Some (Parsed n 12 (negb (n =? 1))).
Proof.
  intros Hn. unfold EffectRenderers.diceNotation.
  destruct (n =? 1) eqn:E.
  - apply Z.eqb_eq in E as ->. done.
  - apply Z.eqb_neq in E. apply parse_kh1_notation. lia.
Qed.

(** X20.  After "Roll Dice" the line of a duration shows a number of days
    between 1 and 12: [rollDiceInText] replaces the notation written for
    [n] selections of a damage type by the highest of [n] rolls of a
    twelve-sided die, and leaves the rest of the line as it is. *)
Theorem rolled_duration_line damageType (n : Z) w :
  noDigit damageType = true → 1 ≤ n →
  let rolled := rollMany (Z.to_nat n) 12 w in
  rollDiceInText (EffectRenderers.durationText damageType n) w
  = (EffectRenderers.capitalizeFirst damageType +:+ ": "
     +:+ toString (highest rolled.1) +:+ " days", rolled.2)
  ∧ 1 ≤ highest rolled.1 ≤ 12.
Proof.
  intros Hd Hn rolled.
  assert (length rolled.1 = Z.to_nat n) as Hlen by apply rollMany_length.
  assert (Forall (λ r, 1 ≤ r ≤ 12) rolled.1) as Hrange
    by by apply rollMany_range.
  assert (1 ≤ highest rolled.1 ≤ 12) as Hhigh.
  { apply highest_bounds; [done|]. intros E. rewrite E in Hlen.
    simpl in Hlen. lia. }
  split; [|done].
  set (pre := EffectRenderers.capitalizeFirst damageType +:+ ": ").
  assert (noDigit pre = true) as Hpre.
  { unfold pre. by rewrite noDigit_app, noDigit_capitalizeFirst, Hd. }
  assert (endsInWord false pre = false) as Hend.
  { unfold pre. by rewrite endsInWord_app. }
  set (token := EffectRenderers.diceNotation n).
  assert (matchAt (token +:+ " days") = Some (token, " days")) as Hm.
  { unfold token. rewrite diceNotation_token.
    destruct (toString_positive n ltac:(lia)) as (Hdig & Hne & _).
    by apply matchAt_token. }
  assert (rollDiceExpression token w = (highest rolled.1, rolled.2))
    as Hroll.
  { unfold token.
    rewrite (rollDiceExpression_valid _ _ w (diceNotation_parse n Hn))
      by (simpl; lia).
    cbn [keepHighest quantity sides]. fold rolled.
    destruct (n =? 1) eqn:E; [|done]. apply Z.eqb_eq in E.
    rewrite E in Hlen. simpl. f_equal.
    destruct rolled.1 as [|x [|y l]]; try done.
    apply Forall_cons in Hrange as [Hx _].
    unfold total, highest. simpl. lia. }
  unfold rollDiceInText, EffectRenderers.durationText. fold token.
  rewrite <- (app_assoc _ ": "). fold pre.
  rewrite replaceLoop_skip by done. rewrite Hend. cbv zeta.
  rewrite (replaceLoop_match _ _ token " days" w) by done.
  cbv zeta. rewrite Hroll. cbn [fst snd].
  rewrite replaceLoop_noDigit by done. cbn [fst snd].
  unfold pre. by rewrite app_assoc.
Qed.
End DurationProperties.

(** ** What is put on display, and the controls *)

Section DisplayProperties.
Import Tally Display.
Implicit Types (drawnCards : list card) (r : CardEffects.EffectRecord).

(** [getEffect] gives no effect for a count of 0. *)
Lemma getEffect_count cardName count e :
  CardEffects.getEffect cardName count = Some e → count ≠ 0.
Proof. intros He ->. done. Qed.

(** The renderer chosen for a record that holds the effect of its card:
    the choice by the [type] of the effect is a choice by the card. *)
Lemma dispatch_by_card this hasIsolation onMischiefDraw r :
  CardEffects.getEffect (CardEffects.rcard r) (CardEffects.rcount r)
  = Some (CardEffects.reffect r) →
  EffectsRenderer.dispatch this hasIsolation onMischiefDraw r
  = if decide (CardEffects.rcard r = "chaos")
    then EffectsRenderer.renderChaosEffect r
           (EffectsRenderer.chaosSelections this)
    else if decide (CardEffects.rcard r = "coin")
    then EffectsRenderer.renderCoinEffect r
           (EffectsRenderer.coinSelection this)
    else if decide (CardEffects.rcard r = "order")
    then EffectsRenderer.renderOrderEffect r
           (EffectsRenderer.orderSelections this)
    else if decide (CardEffects.rcard r = "mischief")
    then EffectsRenderer.renderMischiefEffect r hasIsolation onMischiefDraw
    else EffectsRenderer.renderStandardEffect r false.
Proof.
  destruct r as [cardName count e]. simpl. intros He.
  pose proof (getEffect_count _ _ _ He) as Hc. revert He.
  unfold CardEffects.getEffect. rewrite (proj2 (Z.eqb_neq count 0) Hc).
  unfold EffectsRenderer.dispatch.
  repeat (case_decide; [subst cardName; by intros [= <-]|]).
  done.
Qed.

(** The calls [renderEffects] makes after a draw. *)
Lemma shown_calls drawnCards calls :
  shown drawnCards = Some calls →
  let out := CardEffects.calculateEffects drawnCards in
  let this := EffectsRenderer.resetSelections EffectsRenderer.new drawnCards in
  calls
  = map (EffectsRenderer.dispatch this (includes drawnCards "isolation") true)
      out.1
    ++ map (λ effect, EffectsRenderer.renderStandardEffect effect true) out.2.
Proof.
  unfold shown, EffectsRenderer.renderEffects.
  destruct (Z.of_nat (length drawnCards) =? 0); [done|].
  destruct (CardEffects.calculateEffects drawnCards) as [regular curses].
  destruct ((Z.of_nat (length regular) =? 0)
            && (Z.of_nat (length curses) =? 0)); [done|].
  by intros [= <-].
Qed.

(** A card with an effect that is not a curse has its record among the
    regular ones as soon as it is drawn. *)
Lemma regular_record drawnCards cardName :
  cardName ∈ drawnCards → isRegularCard cardName = true →
  ∃ r, r ∈ (CardEffects.calculateEffects drawnCards).1
       ∧ CardEffects.rcard r = cardName.
Proof.
  intros Hin Hreg.
  destruct (calculateEffects_shape drawnCards) as (H1 & _).
  assert (cardName ∈ map CardEffects.rcard
                         (CardEffects.calculateEffects drawnCards).1) as Hm.
  { rewrite H1. apply list_elem_of_filter. split; [done|].
    by apply firstOccurrences_elem_of. }
  apply list_elem_of_fmap in Hm as (r & -> & Hr). by exists r.
Qed.

Lemma regular_record_drawn drawnCards r :
  r ∈ (CardEffects.calculateEffects drawnCards).1 →
  CardEffects.rcard r ∈ drawnCards.
Proof.
  intros Hr. destruct (calculateEffects_shape drawnCards) as (H1 & _).
  assert (CardEffects.rcard r
          ∈ map CardEffects.rcard
              (CardEffects.calculateEffects drawnCards).1) as Hm.
  { apply list_elem_of_fmap. by exists r. }
  rewrite H1 in Hm. apply list_elem_of_filter in Hm as [_ Hm].
  exact (proj1 (firstOccurrences_elem_of _ _) Hm).
Qed.

(** With a regular record to show, the display is not left empty. *)
Lemma shown_Some drawnCards r :
  r ∈ (CardEffects.calculateEffects drawnCards).1 →
  ∃ calls, shown drawnCards = Some calls.
Proof.
  intros Hr. pose proof (regular_record_drawn _ _ Hr) as Hin.
  unfold shown, EffectsRenderer.renderEffects.
  destruct drawnCards as [|c l]; [by apply elem_of_nil in Hin|].
  assert ((Z.of_nat (length (c :: l)) =? 0) = false) as ->.
  { apply Z.eqb_neq. simpl length. lia. }
  destruct (CardEffects.calculateEffects (c :: l)) as [regular curses].
  simpl in Hr. destruct regular as [|r0 regular];
    [by apply elem_of_nil in Hr|].
  assert ((Z.of_nat (length (r0 :: regular)) =? 0) = false) as ->.
  { apply Z.eqb_neq. simpl length. lia. }
  by eexists.
Qed.

(** X22.  After a draw the "Draw x2" button of the Mischief effect is on
    display exactly when a "mischief" is among the drawn cards and no
    "isolation" is. *)
Theorem draw_button_shown drawnCards :
  (∃ calls c, shown drawnCards = Some calls ∧ c ∈ calls
              ∧ EffectsRenderer.showsDrawButton c = true)
  ↔ "mischief" ∈ drawnCards ∧ ("isolation" ∉ drawnCards).
Proof.
  destruct (calculateEffects_shape drawnCards) as (_ & _ & H3 & _).
  split.
  - intros (calls & c & Hshown & Hc & Hbutton).
    rewrite (shown_calls _ _ Hshown) in Hc.
    apply elem_of_app in Hc as [Hc|Hc];
      apply list_elem_of_fmap in Hc as (r & -> & Hr); [|done].
    rewrite dispatch_by_card in Hbutton by by apply H3.
    repeat (case_decide; [done|]).
    case_decide as Hm; [|done]. simpl in Hbutton.
    apply andb_true_iff in Hbutton as [Hiso _].
    apply negb_true_iff in Hiso. split.
    + rewrite <- Hm. by apply regular_record_drawn.
    + by apply includes_false.
  - intros [Hm Hiso].
    destruct (regular_record drawnCards "mischief" Hm eq_refl)
      as (r & Hr & Hcard).
    destruct (shown_Some _ _ Hr) as [calls Hshown].
    exists calls, (EffectsRenderer.renderMischiefEffect r false true).
    split_and!; [done | | done].
    rewrite (shown_calls _ _ Hshown). apply elem_of_app. left.
    apply list_elem_of_fmap. exists r. split; [|done].
    rewrite dispatch_by_card by by apply H3.
    rewrite Hcard. simpl. by rewrite (proj2 (includes_false _ _) Hiso).
Qed.

(** X23.  After a draw every Chaos dropdown has a selection: the Chaos
    effect is rendered with as many selections as it has dropdowns, one
    per "chaos" drawn, each of them "acid", which is one of the damage
    types on offer; so one duration line is shown, for "acid", with that
    many d12.  The same holds for Order, with "force". *)
Theorem dropdowns_have_selections drawnCards calls effect selections :
  shown drawnCards = Some calls →
  let n := CardEffects.rcount effect in
  (EffectsRenderer.renderChaosEffect effect selections ∈ calls →
   n = countOf drawnCards "chaos" ∧ 1 ≤ n
   ∧ selections = replicate (Z.to_nat n) "acid"
   ∧ (∃ damageTypes,
        CardEffects.reffect effect
        = CardEffects.Resistance "chaos" n damageTypes
        ∧ "acid" ∈ damageTypes)
   ∧ CardEffects.calculateChaosDurations selections = [("acid", n)])
  ∧ (EffectsRenderer.renderOrderEffect effect selections ∈ calls →
     n = countOf drawnCards "order" ∧ 1 ≤ n
     ∧ selections = replicate (Z.to_nat n) "force"
     ∧ (∃ damageTypes,
          CardEffects.reffect effect
          = CardEffects.Resistance "order" n damageTypes
          ∧ "force" ∈ damageTypes)
     ∧ CardEffects.calculateOrderDurations selections = [("force", n)]).
Proof.
  intros Hshown n.
  destruct (calculateEffects_shape drawnCards) as (_ & _ & H3 & _).
  assert (∀ (x : string) (k : nat),
            (1 ≤ k)%nat →
            CardEffects.calculateDurations (replicate k x)
            = [(x, Z.of_nat k)]) as Hdur.
  { intros x k Hk. unfold CardEffects.calculateDurations.
    destruct k as [|k]; [lia|]. clear Hk. simpl.
    rewrite Z.add_0_l.
    assert (∀ v, fold_left
                   (λ durations damageType,
                      Map_set durations damageType
                        (default 0 (Map_get durations damageType) + 1))
                   (replicate k x) [(x, v)]
                 = [(x, v + Z.of_nat k)]) as Hgen.
    { induction k as [|k IH]; intros v.
      - simpl. by rewrite Z.add_0_r.
      - simpl. rewrite decide_True by done. simpl. rewrite IH.
        rewrite decide_True by done. simpl.
        by replace (v + 1 + Z.of_nat k) with (v + Z.of_nat (S k)) by lia. }
    rewrite Hgen.
    by replace (1 + Z.of_nat k) with (Z.of_nat (S k)) by lia. }
  rewrite (shown_calls _ _ Hshown).
  split; intros Hc.
  - apply elem_of_app in Hc as [Hc|Hc];
      apply list_elem_of_fmap in Hc as (r & Heq & Hr); [|done].
    destruct (H3 r Hr) as [Hcount Heff].
    rewrite dispatch_by_card in Heq by done.
    case_decide as Hcard; [|by repeat case_decide].
    injection Heq as -> ->. fold n in Hcount, Heff.
    rewrite Hcard in Hcount, Heff.
    pose proof (getEffect_count _ _ _ Heff) as Hn0.
    assert (1 ≤ n) as Hn.
    { rewrite Hcount in Hn0 |- *. unfold countOf in *. lia. }
    unfold CardEffects.getEffect in Heff.
    rewrite (proj2 (Z.eqb_neq n 0) Hn0) in Heff. simpl in Heff.
    injection Heff as Heff.
    assert (Z.to_nat n
            = length (filter (λ card, card = "chaos") drawnCards)) as Hk.
    { rewrite Hcount. unfold countOf. by rewrite Nat2Z.id. }
    split_and!; [done | done | | |].
    + simpl. by rewrite Hk.
    + eexists. split; [done|]. by left.
    + simpl. rewrite <- Hk.
      unfold CardEffects.calculateChaosDurations.
      rewrite Hdur by lia. by rewrite Z2Nat.id by lia.
  - apply elem_of_app in Hc as [Hc|Hc];
      apply list_elem_of_fmap in Hc as (r & Heq & Hr); [|done].
    destruct (H3 r Hr) as [Hcount Heff].
    rewrite dispatch_by_card in Heq by done.
    do 2 (case_decide; [done|]).
    case_decide as Hcard; [|by repeat case_decide].
    injection Heq as -> ->. fold n in Hcount, Heff.
    rewrite Hcard in Hcount, Heff.
    pose proof (getEffect_count _ _ _ Heff) as Hn0.
    assert (1 ≤ n) as Hn.
    { rewrite Hcount in Hn0 |- *. unfold countOf in *. lia. }
    unfold CardEffects.getEffect in Heff.
    rewrite (proj2 (Z.eqb_neq n 0) Hn0) in Heff. simpl in Heff.
    injection Heff as Heff.
    assert (Z.to_nat n
            = length (filter (λ card, card = "order") drawnCards)) as Hk.
    { rewrite Hcount. unfold countOf. by rewrite Nat2Z.id. }
    split_and!; [done | done | | |].
    + simpl. by rewrite Hk.
    + eexists. split; [done|]. by left.
    + simpl. rewrite <- Hk.
      unfold CardEffects.calculateOrderDurations.
      rewrite Hdur by lia. by rewrite Z2Nat.id by lia.
Qed.
End DisplayProperties.

Section ControlProperties.
Import Tally Display.
Context {rng : Type} `{RandomSource rng}.
Implicit Types (this : CardGame.t) (w : world rng).

(** X21.  The draw button and [handleDrawCards] agree on the numbers
    they take.  A click with a number that [isValidCardCount] refuses (or
    with [NaN]) changes nothing and does not call the handler; a click
    with a number it accepts never ends at a guard on the count: the
    draw completes, or the deck is empty and nothing changes.  The
    handler's guards on the count refuse exactly the numbers the button
    refuses. *)
Theorem draw_button_click this w :
  (∀ count,
     UIManager.isValidCardCount count = false →
     UIManager.drawButtonClick count this w = (None, this, w))
  ∧ (∀ n,
       UIManager.isValidCardCount (Some n) = true →
       let r := CardGame.handleDrawCards this n w in
       UIManager.drawButtonClick (Some n) this w = (Some r.1.1, r.1.2, r.2)
       ∧ (r.1.1 = CardGame.Completed
          ∨ (r = (CardGame.Returned CardGame.DeckIsEmpty, this, w)
             ∧ DeckManager.deck (CardGame.deckManager this) = [])))
  ∧ (∀ n,
       UIManager.isValidCardCount (Some n) = false
       ↔ (CardGame.handleDrawCards this n w).1.1
         = CardGame.Returned CardGame.CountNotPositive
         ∨ (CardGame.handleDrawCards this n w).1.1
           = CardGame.Returned CardGame.CountAboveMaxDraw).
Proof.
  assert (∀ n, UIManager.isValidCardCount (Some n) = true
               ↔ 0 < n ≤ DECK_CONFIG.MAX_DRAW) as Hvalid.
  { intros n. unfold UIManager.isValidCardCount.
    rewrite andb_true_iff, Z.ltb_lt, Z.leb_le. done. }
  split_and!.
  - intros [n|] Hc; [|done]. unfold UIManager.drawButtonClick.
    by rewrite Hc.
  - intros n Hn r. split.
    + unfold UIManager.drawButtonClick. rewrite Hn. simpl.
      rewrite bind_run, ret_run. subst r.
      by destruct (CardGame.handleDrawCards this n w) as [[c this'] w'].
    + apply Hvalid in Hn. subst r.
      destruct (decide (DeckManager.deck (CardGame.deckManager this) = []))
        as [Hd|Hne].
      * right. split; [|done]. unfold CardGame.handleDrawCards.
        rewrite (proj2 (Z.leb_gt _ _) (proj1 Hn)).
        rewrite (proj2 (Z.ltb_ge _ _) (proj2 Hn)).
        unfold DeckManager.isEmpty. by rewrite Hd.
      * left.
        destruct (handleDrawCards_resolved this n w Hne Hn)
          as [[_ ->]|[_ (k & _ & -> & _)]]; done.
  - intros n. split.
    + intros Hn. unfold CardGame.handleDrawCards.
      destruct (n <=? 0) eqn:E1; [by left|].
      destruct (DECK_CONFIG.MAX_DRAW <? n) eqn:E2; [by right|].
      apply Z.leb_gt in E1. apply Z.ltb_ge in E2.
      assert (UIManager.isValidCardCount (Some n) = true) as Hv
        by by apply Hvalid.
      congruence.
    + intros Hg. destruct (UIManager.isValidCardCount (Some n)) eqn:Hv;
        [|done].
      apply Hvalid in Hv.
      destruct (decide (DeckManager.deck (CardGame.deckManager this) = []))
        as [Hd|Hne].
      * revert Hg. unfold CardGame.handleDrawCards.
        rewrite (proj2 (Z.leb_gt _ _) (proj1 Hv)).
        rewrite (proj2 (Z.ltb_ge _ _) (proj2 Hv)).
        unfold DeckManager.isEmpty. rewrite Hd. by intros [?|?].
      * revert Hg.
        destruct (handleDrawCards_resolved this n w Hne Hv)
          as [[_ ->]|[_ (k & _ & -> & _)]]; by intros [?|?].
Qed.

(** X24.  The "Draw x2" button keeps its promise: in a game reached from
    a new one, when the button is on display ("mischief" among the drawn
    cards, no "isolation"), [handleMischiefDraw] is neither refused nor
    does it throw; it completes, takes the first "mischief" away and
    appends one or two cards of the deck. *)
Theorem draw_button_completes this w :
  reachable this w →
  (∃ calls c, shown (CardGame.drawnCards this) = Some calls ∧ c ∈ calls
              ∧ EffectsRenderer.showsDrawButton c = true) →
  ∃ pre post new,
    CardGame.drawnCards this = pre ++ "mischief" :: post
    ∧ ("mischief" ∉ pre)
    ∧ (length new = 1%nat ∨ length new = 2%nat)
    ∧ (∀ c, c ∈ new → c ∈ DeckManager.deck (CardGame.deckManager this))
    ∧ (CardGame.handleMischiefDraw this w).1
      = (CardGame.Completed,
         CardGame.Make (CardGame.deckManager this) (pre ++ post ++ new)).
Proof.
  intros Hreach Hshown.
  assert ("mischief" ∈ CardGame.drawnCards this
          ∧ ("isolation" ∉ CardGame.drawnCards this)) as [Hm Hiso].
  { destruct (calculateEffects_shape (CardGame.drawnCards this))
      as (_ & _ & H3 & _).
    destruct Hshown as (calls & c & Hs & Hc & Hbutton).
    rewrite (shown_calls _ _ Hs) in Hc.
    apply elem_of_app in Hc as [Hc|Hc];
      apply list_elem_of_fmap in Hc as (r & -> & Hr); [|done].
    rewrite dispatch_by_card in Hbutton by by apply H3.
    repeat (case_decide; [done|]).
    case_decide as Hcard; [|done]. simpl in Hbutton.
    apply andb_true_iff in Hbutton as [Hi _].
    apply negb_true_iff in Hi. split.
    - rewrite <- Hcard. by apply regular_record_drawn.
    - by apply includes_false. }
  assert (DeckManager.deck (CardGame.deckManager this) ≠ []) as Hdeck.
  { apply (reachable_deck_nonempty this w Hreach).
    intros E. rewrite E in Hm. by apply elem_of_nil in Hm. }
  rewrite (handleMischiefDraw_resolved this w Hiso Hdeck). cbn [fst].
  set (deck := DeckManager.deck (CardGame.deckManager this)) in *.
  set (c1 := (sampleOne deck w).1). set (w1 := (sampleOne deck w).2).
  set (c2 := (sampleOne deck w1).1).
  assert (indexOf (CardGame.drawnCards this) "mischief" ≠ -1) as Hidx.
  { by intros E%indexOf_absent. }
  destruct (indexOf_found _ _ Hidx) as (pre & post & Hsplit & Hpre & _).
  exists pre, post, (haltRule [c1; c2]).
  rewrite Hsplit in Hiso |- *. rewrite removeOneMischief_first by done.
  assert ("isolation" ∉ pre ++ post) as Hkept.
  { revert Hiso. rewrite !elem_of_app, elem_of_cons. tauto. }
  rewrite haltRule_app_absent, haltRule_idemp by done.
  destruct (haltRule_length [c1; c2]) as [Hle Hnil].
  assert (haltRule [c1; c2] ≠ []) as Hn by by apply Hnil.
  split_and!; [done | done | | | by rewrite <- app_assoc].
  - simpl length in Hle.
    destruct (haltRule [c1; c2]) as [|x [|y [|z l]]];
      simpl in *; [done | by left | by right | lia].
  - intros c Hc. apply haltRule_subset in Hc.
    apply elem_of_cons in Hc as [->|Hc]; [by apply sampleOne_member|].
    apply list_elem_of_singleton in Hc as ->. by apply sampleOne_member.
Qed.
End ControlProperties.

(** ** The Coin description *)

Section CoinProperties.
Import Display.

(** X25.  Both rewards of the Coin card are worth the same: for [n] Coin
    cards, 5 jewelry worth 100 gp each or 10 gemstones worth 50 gp each
    per card, 500 gp per card in total either way.  The description is
    written for these two selections and for no other; the selection set
    by [resetSelections] is one of them. *)
Theorem coin_rewards_are_worth_the_same (n : Z) :
  n ≠ 0 →
  ∃ choices,
    CardEffects.getEffect "coin" n = Some (CardEffects.Reward n choices)
    ∧ (∀ choice, choice ∈ choices →
         CoinEffect.findChoice choices (CardEffects.value choice)
         = Some choice
         ∧ (CoinEffect.totals choice n).2 = 500 * n)
    ∧ CoinEffect.description n choices "jewelry"
      = Some (toString (5 * n)
              +:+ " jewelry, each worth 100 gp, appear at your feet. (total: "
              +:+ toString (500 * n) +:+ " gp)")
    ∧ CoinEffect.description n choices "gemstones"
      = Some (toString (10 * n)
              +:+ " gemstones, each worth 50 gp, appear at your feet. (total: "
              +:+ toString (500 * n) +:+ " gp)")
    ∧ (∀ selection,
         selection ≠ "jewelry" → selection ≠ "gemstones" →
         CoinEffect.description n choices selection = None)
    ∧ ∀ drawnCards,
        EffectsRenderer.coinSelection
          (EffectsRenderer.resetSelections EffectsRenderer.new drawnCards)
        = "jewelry".
Proof.
  intros Hn. eexists. split_and!.
  - unfold CardEffects.getEffect. by rewrite (proj2 (Z.eqb_neq n 0) Hn).
  - intros choice Hc.
    apply elem_of_cons in Hc as [->|Hc];
      [|apply list_elem_of_singleton in Hc as ->];
      (split; [done|]); unfold CoinEffect.totals; simpl; lia.
  - unfold CoinEffect.description, CoinEffect.totals. simpl.
    by replace (5 * n * 100) with (500 * n) by lia.
  - unfold CoinEffect.description, CoinEffect.totals. simpl.
    by replace (10 * n * 50) with (500 * n) by lia.
  - intros selection H1 H2. unfold CoinEffect.description,
      CoinEffect.findChoice. simpl.
    by rewrite !bool_decide_eq_false_2 by done.
  - done.
Qed.
End CoinProperties.

(** ** When the display is left empty *)

Section EmptyDisplay.
Import Tally Display.
Implicit Types (drawnCards : list card).

Lemma hasRule_kinds (cardName : card) :
  hasRule cardName = isRegularCard cardName || isCurseCard cardName.
Proof.
  unfold isRegularCard. destruct (isCurseCard cardName) eqn:Hc.
  - rewrite orb_true_r. unfold isCurseCard in Hc.
    apply bool_decide_eq_true in Hc. unfold curseCards in Hc.
    repeat (apply elem_of_cons in Hc as [->|Hc]; [done|]).
    by apply elem_of_nil in Hc.
  - by rewrite andb_true_r, orb_false_r.
Qed.

Lemma filter_nil_iff {A} (P : A → Prop) `{∀ x, Decision (P x)} (l : list A) :
  filter P l = [] ↔ ∀ x, x ∈ l → ¬ P x.
Proof.
  split.
  - intros Hf x Hx HP. by eapply filter_nil_not_elem_of.
  - intros Hall. induction l as [|x l IH]; [done|].
    rewrite filter_cons, decide_False by (apply Hall; by left).
    apply IH. intros y Hy. apply Hall. by right.
Qed.

(** X26.  After a draw the effects display is left empty exactly when no
    drawn card has an effect: when nothing is drawn, or every drawn card
    has a name outside the 22 cards of the rule table (as a custom deck
    can hold).  Otherwise one renderer is called for each distinct drawn
    card with an effect, the curses last. *)
Theorem display_empty_iff drawnCards :
  (shown drawnCards = None
   ↔ ∀ c, c ∈ drawnCards → hasRule c = false)
  ∧ ∀ calls, shown drawnCards = Some calls →
      length calls
      = length (filter (λ c, hasRule c = true) (firstOccurrences drawnCards)).
Proof.
  destruct (calculateEffects_shape drawnCards) as (H1 & H2 & _).
  set (regular := (CardEffects.calculateEffects drawnCards).1) in *.
  set (curses := (CardEffects.calculateEffects drawnCards).2) in *.
  assert (length regular + length curses
          = length (filter (λ c, hasRule c = true)
                      (firstOccurrences drawnCards)))%nat as Hlen.
  { rewrite <- (length_map CardEffects.rcard regular), H1.
    rewrite <- (length_map CardEffects.rcard curses), H2. clear H1 H2.
    generalize (firstOccurrences drawnCards). intros l.
    induction l as [|c l IH]; [done|].
    rewrite !filter_cons, hasRule_kinds.
    assert (isRegularCard c = true → isCurseCard c = false) as Hex.
    { unfold isRegularCard. intros [_ Hn]%andb_true_iff.
      by apply negb_true_iff in Hn. }
    destruct (isRegularCard c) eqn:Er.
    - rewrite (Hex eq_refl). simpl. lia.
    - destruct (isCurseCard c) eqn:Ec; simpl; lia. }
  assert (shown drawnCards = None
          ↔ (length regular + length curses = 0)%nat) as Hnone.
  { unfold shown, EffectsRenderer.renderEffects.
    fold regular curses.
    destruct (Z.of_nat (length drawnCards) =? 0) eqn:E.
    - apply Z.eqb_eq in E. destruct drawnCards; [|simpl length in E; lia].
      done.
    - destruct (CardEffects.calculateEffects drawnCards) as [rs cs].
      simpl in regular, curses. subst regular curses.
      destruct rs, cs; simpl; split; (done || lia). }
  split.
  - rewrite Hnone, Hlen.
    rewrite length_zero_iff_nil, filter_nil_iff.
    split.
    + intros Hall c Hc. apply not_true_is_false, Hall.
      by apply firstOccurrences_elem_of.
    + intros Hall c Hc E.
      apply (proj1 (firstOccurrences_elem_of _ _)) in Hc.
      apply Hall in Hc. congruence.
  - intros calls Hshown. rewrite (shown_calls _ _ Hshown).
    fold regular curses. by rewrite length_app, !length_map.
Qed.
End EmptyDisplay.

(** * The further properties on given rolls *)

Module Runs.
Import Scripted Fixture Session.

Lemma afterDraw_reachable : reachable afterDraw.1.2 afterDraw.2.
Proof. apply reachable_draw, reachable_new. Qed.

Example afterDraw_cards :
  CardGame.drawnCards afterDraw.1.2 = ["mischief"; "day"]
  ∧ DeckManager.deck (CardGame.deckManager afterDraw.1.2) = TAROT_CARDS.FULL
  ∧ afterDraw.2 = rolls [3; 11].
Proof. vm_compute. done. Qed.

Lemma drawCards_in_two_batches_witness :
  DeckManager.drawCards fullDeck (2 + 1) (rolls [0; 1; 2])
  = (Some (["beginning"; "champion"] ++ ["chancellor"]), rolls []).
Proof.
  apply (drawCards_in_two_batches (rng:=Scripted.t) fullDeck 2 1
           (rolls [0; 1; 2]) ["beginning"; "champion"] (rolls [2])
           ["chancellor"] (rolls [])).
  - lia.
  - lia.
  - vm_compute. reflexivity.
  - vm_compute. reflexivity.
Defined.

Lemma handleDrawCards_outcome_bounds_witness :
  let outcome :=
    ["mystery"; "champion"; "mystery"; "mystery"; "chancellor"] in
  1 ≤ Z.of_nat (length outcome) ≤ 2 * 3
  ∧ ∀ c, c ∈ outcome → c ∈ TAROT_CARDS.FULL.
Proof.
  apply (handleDrawCards_outcome_bounds (rng:=Scripted.t)
           (game []) 3 (rolls [17; 1; 17; 17; 2; 9])
           (game ["mystery"; "champion"; "mystery"; "mystery"; "chancellor"])
           (rolls [9])).
  vm_compute. reflexivity.
Defined.

Lemma draw_halts_at_first_isolation_witness :
  ∃ pre post,
    ["beginning"; "isolation"; "champion"; "chancellor"; "chaos"]
    = pre ++ "isolation" :: post
    ∧ ("isolation" ∉ pre)
    ∧ CardGame.handleDrawCards (game []) 5 (rolls [0; 11; 1; 2; 3])
      = (CardGame.Completed,
         CardGame.Make fullDeck (pre ++ ["isolation"]), rolls []).
Proof.
  apply (draw_halts_at_first_isolation (rng:=Scripted.t)
           (game []) 5 (rolls [0; 11; 1; 2; 3])
           ["beginning"; "isolation"; "champion"; "chancellor"; "chaos"]
           (rolls [])).
  - vm_compute. split; [reflexivity | discriminate].
  - vm_compute. reflexivity.
  - by_compute.
Defined.

Lemma bonus_draw_throws_on_empty_deck_witness :
  CardGame.handleMischiefDraw
    (CardGame.Make (DeckManager.Make [] 0) ["mischief"]) (rolls [3; 4])
  = (CardGame.Threw "TypeError",
     CardGame.Make (DeckManager.Make [] 0) ["mischief"], rolls [3; 4]).
Proof.
  apply (bonus_draw_throws_on_empty_deck (rng:=Scripted.t)
           (CardGame.Make (DeckManager.Make [] 0) ["mischief"])
           (rolls [3; 4])).
  - by_compute.
  - reflexivity.
Defined.

Lemma bonus_draw_grows_by_at_most_one_witness :
  (length ["day"; "mischief"]
   ≤ length ["day"; "champion"; "isolation"]
   ≤ length ["day"; "mischief"] + 1)%nat
  ∧ ∀ c, c ∈ ["day"; "champion"; "isolation"] →
         c ∈ ["day"; "mischief"] ∨ c ∈ TAROT_CARDS.FULL.
Proof.
  apply (bonus_draw_grows_by_at_most_one (rng:=Scripted.t)
           (game ["day"; "mischief"]) (rolls [1; 11; 4])
           (game ["day"; "champion"; "isolation"]) (rolls [4])).
  - by_compute.
  - vm_compute. reflexivity.
Defined.

Lemma reachable_NoCardAfterHalt_witness :
  NoCardAfterHalt (CardGame.drawnCards afterDraw.1.2).
Proof.
  apply (reachable_NoCardAfterHalt (rng:=Scripted.t)
           afterDraw.1.2 afterDraw.2).
  apply reachable_draw, reachable_new.
Defined.

Lemma reachable_drawn_from_deck_witness :
  (∀ c, c ∈ CardGame.drawnCards afterDraw.1.2 →
        c ∈ DeckManager.deck (CardGame.deckManager afterDraw.1.2))
  ∧ (CardGame.drawnCards afterDraw.1.2 ≠ [] →
     DeckManager.deck (CardGame.deckManager afterDraw.1.2) ≠ []
     ∧ ∀ error, (CardGame.handleMischiefDraw afterDraw.1.2 afterDraw.2).1.1
                ≠ CardGame.Threw error).
Proof.
  apply (reachable_drawn_from_deck (rng:=Scripted.t)
           afterDraw.1.2 afterDraw.2).
  apply reachable_draw, reachable_new.
Defined.

Lemma parseDiceExpression_round_trip_witness :
  DiceRoller.parseDiceExpression
    (toString 3 +:+ "d" +:+ toString MAX_SAFE_INTEGER +:+ "kh1")
  = Some (DiceRoller.Parsed 3 MAX_SAFE_INTEGER true).
Proof.
  apply (parseDiceExpression_round_trip 3 MAX_SAFE_INTEGER true);
    by_compute.
Defined.

Example largest_sides_text :
  toString 3 +:+ "d" +:+ toString MAX_SAFE_INTEGER +:+ "kh1"
  = "3d9007199254740991kh1".
Proof. vm_compute. reflexivity. Qed.

Lemma parseDiceExpression_accepts_witness :
  ∃ g1 g2,
    "3d10kh1" = g1 +:+ "d" +:+ g2 +:+ "kh1"
    ∧ DiceText.allDigits g1 = true ∧ DiceText.allDigits g2 = true
    ∧ parseInt g1 = Some 3 ∧ parseInt g2 = Some 10
    ∧ 1 ≤ 3 ∧ 1 ≤ 10.
Proof.
  apply (parseDiceExpression_accepts "3d10kh1" (DiceRoller.Parsed 3 10 true)).
  vm_compute. reflexivity.
Defined.

Lemma rollDiceInText_without_digits_witness :
  DiceRoller.rollDiceInText "You learn the Friends cantrip." (rolls [3; 5])
  = ("You learn the Friends cantrip.", rolls [3; 5]).
Proof.
  apply (rollDiceInText_without_digits (rng:=Scripted.t)). reflexivity.
Defined.

Lemma rolled_duration_line_witness :
  let rolled := rollMany (Z.to_nat 3) 12 (rolls [2; 9; 4; 7]) in
  DiceRoller.rollDiceInText (EffectRenderers.durationText "acid" 3)
    (rolls [2; 9; 4; 7])
  = (EffectRenderers.capitalizeFirst "acid" +:+ ": "
     +:+ toString (highest rolled.1) +:+ " days", rolled.2)
  ∧ 1 ≤ highest rolled.1 ≤ 12.
Proof.
  apply (rolled_duration_line (rng:=Scripted.t) "acid" 3
           (rolls [2; 9; 4; 7])).
  - reflexivity.
  - lia.
Defined.

Example rolled_duration_line_text :
  DiceRoller.rollDiceInText (EffectRenderers.durationText "acid" 3)
    (rolls [2; 9; 4; 7])
  = ("Acid: 9 days", rolls [7]).
Proof. vm_compute. reflexivity. Qed.

Lemma dropdowns_have_selections_witness :
  CardEffects.calculateChaosDurations ["acid"; "acid"] = [("acid", 2)].
Proof.
  destruct (dropdowns_have_selections ["chaos"; "day"; "chaos"]
              [ EffectsRenderer.renderChaosEffect
                  (CardEffects.Record_ "chaos" 2
                     (CardEffects.Resistance "chaos" 2
                        ["acid"; "cold"; "fire"; "lightning"; "thunder"]))
                  ["acid"; "acid"];
                EffectsRenderer.renderStandardEffect
                  (CardEffects.Record_ "day" 1
                     (CardEffects.Text "You gain a +1 bonus to saving throws. This benefit lasts until you finish a long rest."))
                  false ]
              (CardEffects.Record_ "chaos" 2
                 (CardEffects.Resistance "chaos" 2
                    ["acid"; "cold"; "fire"; "lightning"; "thunder"]))
              ["acid"; "acid"])
    as [Hchaos _].
  - vm_compute. reflexivity.
  - apply Hchaos. by left.
Defined.

Lemma draw_button_completes_witness :
  ∃ pre post new,
    CardGame.drawnCards afterDraw.1.2 = pre ++ "mischief" :: post
    ∧ ("mischief" ∉ pre)
    ∧ (length new = 1%nat ∨ length new = 2%nat)
    ∧ (∀ c, c ∈ new →
            c ∈ DeckManager.deck (CardGame.deckManager afterDraw.1.2))
    ∧ (CardGame.handleMischiefDraw afterDraw.1.2 afterDraw.2).1
      = (CardGame.Completed,
         CardGame.Make (CardGame.deckManager afterDraw.1.2)
           (pre ++ post ++ new)).
Proof.
  apply (draw_button_completes (rng:=Scripted.t) afterDraw.1.2 afterDraw.2).
  - apply reachable_draw, reachable_new.
  - eexists _, _. split_and!.
    + vm_compute. reflexivity.
    + by left.
    + reflexivity.
Defined.

Example draw_button_run :
  CardGame.handleMischiefDraw afterDraw.1.2 afterDraw.2
  = (CardGame.Completed, game ["day"; "chaos"; "isolation"], rolls []).
Proof. vm_compute. reflexivity. Qed.

Lemma coin_rewards_are_worth_the_same_witness :
  ∃ choices,
    CardEffects.getEffect "coin" 2 = Some (CardEffects.Reward 2 choices)
    ∧ CoinEffect.description 2 choices "gemstones"
      = Some "20 gemstones, each worth 50 gp, appear at your feet. (total: 1000 gp)".
Proof.
  destruct (coin_rewards_are_worth_the_same 2) as (choices & Hc & _ & _ & Hg & _).
  - lia.
  - exists choices. split; [exact Hc | exact Hg].
Defined.

(** The properties without a condition, on given rolls. *)

Example click_with_21 :
  UIManager.drawButtonClick (Some 21) (game []) (rolls [1; 2])
  = (None, game [], rolls [1; 2]).
Proof. vm_compute. reflexivity. Qed.

Example click_with_2 :
  UIManager.drawButtonClick (Some 2) (game []) (rolls [1; 2])
  = (Some CardGame.Completed, game ["champion"; "chancellor"], rolls []).
Proof. vm_compute. reflexivity. Qed.

Example records_in_order_of_first_draw :
  map CardEffects.rcard
    (CardEffects.calculateEffects ["day"; "end"; "chaos"; "day"; "dusk"]).1
  = ["day"; "chaos"]
  ∧ map CardEffects.rcard
      (CardEffects.calculateEffects ["day"; "end"; "chaos"; "day"; "dusk"]).2
    = ["end"; "dusk"].
Proof. vm_compute. done. Qed.

Example button_hidden_after_isolation :
  Display.shown ["mischief"; "isolation"]
  = Some [ EffectsRenderer.renderMischiefEffect
             (CardEffects.Record_ "mischief" 1
                (CardEffects.Offer 1 "You receive an uncommon wondrous item (chosen by the DM), or you can draw 2 additional cards beyond your declared draws."))
             true true;
           EffectsRenderer.renderStandardEffect
             (CardEffects.Record_ "isolation" 1
                (CardEffects.Text "You disappear, along with anything you are wearing or carrying, and become trapped in a harmless extradimensional space for 1d4 minutes. You draw no more cards. You then reappear in the space you left or the nearest unoccupied space. When you reappear, you must succeed on a DC 11 Constitution saving throw or have the poisoned condition for 1 hour as your body reels from the extradimensional travel."))
             true ].
Proof. vm_compute. reflexivity. Qed.
End Runs.
